(** * tinyclaw: mention routing, invocation dispatch and the observer bridge

    A shallow embedding of [src/lib/invoke.ts], [src/lib/observer.ts],
    [src/server/routes/observer.ts] and of the two library functions whose
    source is not part of the tree ([routing.ts]'s mention extraction and
    [observer.ts]'s stale-team filter), followed by the properties the
    specification states about them.

    JavaScript strings are modelled as Rocq [string]s, finite JavaScript
    objects used as dictionaries as association lists (iteration order and
    duplicate keys matter to the code), the file system as a finite map from
    paths to nodes, and effectful code in a small trace-and-exception monad. *)

From Stdlib Require Import ZArith Ascii String DecimalString.
From stdpp Require Import base option list strings gmap.

Open Scope Z_scope.
Open Scope stdpp_scope.

(* ===================================================================== *)
(** * JavaScript strings *)
(* ===================================================================== *)

Module JsString.

Definition isEmpty (s : string) : bool :=
  match s with EmptyString => true | _ => false end.

(** [String.prototype.trimStart], on the ASCII white space characters. *)
Fixpoint trimStart (s : string) : string :=
  match s with
  | EmptyString => EmptyString
  | String c s' => if Ascii.is_space c then trimStart s' else s
  end.

(** [String.prototype.trimEnd]. *)
Fixpoint trimEnd (s : string) : string :=
  match s with
  | EmptyString => EmptyString
  | String c s' =>
      let r := trimEnd s' in
      if Ascii.is_space c && isEmpty r then EmptyString else String c r
  end.

(** [String.prototype.trim]. *)
Definition trim (s : string) : string := trimEnd (trimStart s).

(** [s.split(sep)] for a one-character separator: never the empty list. *)
Fixpoint split (sep : ascii) (s : string) : list string :=
  match s with
  | EmptyString => [EmptyString]
  | String c s' =>
      if Ascii.eqb c sep then EmptyString :: split sep s'
      else match split sep s' with
           | h :: t => String c h :: t
           | [] => [String c EmptyString]
           end
  end.

(** [parts.join(sep)]. *)
Definition join (sep : string) (parts : list string) : string :=
  String.concat sep parts.

(** [s.startsWith(p)], returning what follows the prefix. *)
Fixpoint stripPrefix (p s : string) : option string :=
  match p, s with
  | EmptyString, _ => Some s
  | String a p', String b s' =>
      if Ascii.eqb a b then stripPrefix p' s' else None
  | String _ _, EmptyString => None
  end.

Definition startsWith (p s : string) : bool :=
  match stripPrefix p s with Some _ => true | None => false end.

(** [s.includes(needle)]. *)
Fixpoint includes (needle s : string) : bool :=
  startsWith needle s ||
  match s with
  | EmptyString => false
  | String _ s' => includes needle s'
  end.

Definition lowerChar (c : ascii) : ascii :=
  let n := nat_of_ascii c in
  if (Nat.leb 65 n && Nat.leb n 90)%bool then ascii_of_nat (n + 32) else c.

(** [s.toLowerCase()], on ASCII letters. *)
Fixpoint toLowerCase (s : string) : string :=
  match s with
  | EmptyString => EmptyString
  | String c s' => String (lowerChar c) (toLowerCase s')
  end.

(** The longest prefix whose characters satisfy [p], and what follows. *)
Fixpoint spanWhile (p : ascii -> bool) (s : string) : string * string :=
  match s with
  | EmptyString => (EmptyString, EmptyString)
  | String a s' =>
      if p a then let '(run, rest) := spanWhile p s' in (String a run, rest)
      else (EmptyString, s)
  end.

(** The longest prefix without the character [c], and what follows. *)
Definition spanNot (c : ascii) : string -> string * string :=
  spanWhile (fun a => negb (Ascii.eqb a c)).

Definition isDigit (c : ascii) : bool :=
  match Ascii.is_nat c with Some _ => true | None => false end.

Definition isLetter (c : ascii) : bool :=
  let n := nat_of_ascii c in
  (Nat.leb 65 n && Nat.leb n 90) || (Nat.leb 97 n && Nat.leb n 122).

(** [String(n)] for an integer. *)
Definition ofZ (n : Z) : string := NilZero.string_of_int (Z.to_int n).

End JsString.

(* ===================================================================== *)
(** * JavaScript values as far as [JSON.parse] produces them *)
(* ===================================================================== *)

(** The values of the JSON fragment of JavaScript, plus [undefined], which
    is what reading a missing property gives.  Numbers are the integers. *)
#[warnings="-register-all"]
Inductive jsval : Type :=
| VUndefined
| VNull
| VBool (b : bool)
| VNum (n : Z)
| VStr (s : string)
| VArr (items : list jsval)
| VObj (fields : list (string * jsval)).

Module Js.

(** ToBoolean: what [if (v)], [v || w] and [!v] test. *)
Definition truthy (v : jsval) : bool :=
  match v with
  | VUndefined | VNull => false
  | VBool b => b
  | VNum n => negb (n =? 0)
  | VStr s => negb (JsString.isEmpty s)
  | VArr _ | VObj _ => true
  end.

(** [a || b]. *)
Definition or (a b : jsval) : jsval := if truthy a then a else b.

(** Own property of an object literal: the last binding of a key wins,
    as in [JSON.parse]. *)
Fixpoint field (k : string) (fields : list (string * jsval)) : jsval :=
  match fields with
  | [] => VUndefined
  | (k', v) :: rest =>
      match field k rest with
      | VUndefined => if String.eqb k k' then v else VUndefined
      | later => later
      end
  end.

(** [v.k] for a key that no primitive wrapper or array defines ([type],
    [item], [text], [part] and the observer state's fields): [None] is
    the [TypeError] of reading a property of [undefined] or [null]. *)
Definition get (v : jsval) (k : string) : option jsval :=
  match v with
  | VUndefined | VNull => None
  | VObj fields => Some (field k fields)
  | _ => Some VUndefined
  end.

(** [v?.k]. *)
Definition getOpt (v : jsval) (k : string) : jsval :=
  match get v k with Some x => x | None => VUndefined end.

(** [v === "s"]. *)
Definition isStr (v : jsval) (s : string) : bool :=
  match v with VStr t => String.eqb t s | _ => false end.

(** ToString, as a template literal applies it. *)
Fixpoint toString (v : jsval) : string :=
  match v with
  | VUndefined => "undefined"
  | VNull => "null"
  | VBool true => "true"
  | VBool false => "false"
  | VNum n => JsString.ofZ n
  | VStr s => s
  | VArr items =>
      JsString.join ","
        (map (fun x => match x with
                       | VUndefined | VNull => EmptyString
                       | _ => toString x
                       end) items)
  | VObj _ => "[object Object]"
  end.

(** [items.join(sep)]: [undefined] and [null] elements print as nothing. *)
Definition joinWith (sep : string) (items : list jsval) : string :=
  JsString.join sep
    (map (fun x => match x with
                   | VUndefined | VNull => EmptyString
                   | _ => toString x
                   end) items).

(** [typeof v === 'string'] *)
Definition isString (v : jsval) : bool :=
  match v with VStr _ => true | _ => false end.

End Js.

(* ===================================================================== *)
(** * Exceptions and effects *)
(* ===================================================================== *)

(** A computation either returns or throws an [Error] carrying a message. *)
Inductive outcome (A : Type) : Type :=
| Ret (a : A)
| Throw (message : string).
Arguments Ret {A} a.
Arguments Throw {A} message.

Definition isRet {A} (o : outcome A) : bool :=
  match o with Ret _ => true | Throw _ => false end.

(* ===================================================================== *)
(** * [JSON.parse] *)
(* ===================================================================== *)

(** A parser for the fragment of JSON without fractions, exponents and
    [\u] escapes.  The code under study is stated over an arbitrary
    [JSON_parse]; this one instantiates it on concrete inputs. *)
Module Json.

Definition isWs (c : ascii) : bool :=
  match c with
  | " " | "009" | "010" | "013" => true
  | _ => false
  end%char.

Fixpoint skipWs (s : string) : string :=
  match s with
  | EmptyString => EmptyString
  | String c s' => if isWs c then skipWs s' else s
  end.

Definition digit (c : ascii) : option Z :=
  match Ascii.is_nat c with Some n => Some (Z.of_nat n) | None => None end.

Fixpoint digits (acc : Z) (s : string) : Z * string :=
  match s with
  | EmptyString => (acc, s)
  | String c s' =>
      match digit c with
      | Some d => digits (10 * acc + d) s'
      | None => (acc, s)
      end
  end.

Definition endsNumber (s : string) : bool :=
  match s with
  | String c _ =>
      match c with
      | "." | "e" | "E" => false
      | _ => match digit c with Some _ => false | None => true end
      end%char
  | EmptyString => true
  end.

Definition natural (s : string) : option (Z * string) :=
  match s with
  | String c s' =>
      match digit c with
      | Some 0 => if endsNumber s' then Some (0, s') else None
      | Some d =>
          let '(n, r) := digits d s' in
          if endsNumber r then Some (n, r) else None
      | None => None
      end
  | EmptyString => None
  end.

Definition number (s : string) : option (Z * string) :=
  match s with
  | String "-"%char s' =>
      match natural s' with
      | Some (n, r) => Some (- n, r)
      | None => None
      end
  | _ => natural s
  end.

Definition unescape (c : ascii) : option ascii :=
  match c with
  | "034" => Some "034"
  | "\" => Some "\"
  | "/" => Some "/"
  | "b" => Some "008"
  | "f" => Some "012"
  | "n" => Some "010"
  | "r" => Some "013"
  | "t" => Some "009"
  | _ => None
  end%char.

Definition consTo (c : ascii) (r : option (string * string)) :
  option (string * string) :=
  match r with
  | Some (body, rest) => Some (String c body, rest)
  | None => None
  end.

(** The characters of a string literal after its opening quote. *)
Fixpoint stringBody (s : string) : option (string * string) :=
  match s with
  | EmptyString => None
  | String c s' =>
      if Ascii.eqb c "034" then Some (EmptyString, s')
      else if Ascii.eqb c "\" then
        match s' with
        | String e s'' =>
            match unescape e with
            | Some ch => consTo ch (stringBody s'')
            | None => None
            end
        | EmptyString => None
        end
      else if Nat.ltb (nat_of_ascii c) 32 then None
      else consTo c (stringBody s')
  end.

Definition keyword (k : string) (v : jsval) (s : string) :
  option (jsval * string) :=
  match JsString.stripPrefix k s with
  | Some r => Some (v, r)
  | None => None
  end.

Fixpoint value (fuel : nat) (s : string) : option (jsval * string) :=
  match fuel with
  | O => None
  | S fuel =>
      match skipWs s with
      | String "n"%char _ as t => keyword "null" VNull t
      | String "t"%char _ as t => keyword "true" (VBool true) t
      | String "f"%char _ as t => keyword "false" (VBool false) t
      | String "034"%char r =>
          match stringBody r with
          | Some (str, rest) => Some (VStr str, rest)
          | None => None
          end
      | String "["%char r =>
          match skipWs r with
          | String "]"%char rest => Some (VArr [], rest)
          | t =>
              match items fuel t with
              | Some (vs, rest) => Some (VArr vs, rest)
              | None => None
              end
          end
      | String "{"%char r =>
          match skipWs r with
          | String "}"%char rest => Some (VObj [], rest)
          | t =>
              match members fuel t with
              | Some (kvs, rest) => Some (VObj kvs, rest)
              | None => None
              end
          end
      | t =>
          match number t with
          | Some (n, rest) => Some (VNum n, rest)
          | None => None
          end
      end
  end
with items (fuel : nat) (s : string) : option (list jsval * string) :=
  match fuel with
  | O => None
  | S fuel =>
      match value fuel s with
      | Some (v, r) =>
          match skipWs r with
          | String ","%char r' =>
              match items fuel r' with
              | Some (vs, rest) => Some (v :: vs, rest)
              | None => None
              end
          | String "]"%char rest => Some ([v], rest)
          | _ => None
          end
      | None => None
      end
  end
with members (fuel : nat) (s : string) :
  option (list (string * jsval) * string) :=
  match fuel with
  | O => None
  | S fuel =>
      match skipWs s with
      | String "034"%char r =>
          match stringBody r with
          | Some (k, r1) =>
              match skipWs r1 with
              | String ":"%char r2 =>
                  match value fuel r2 with
                  | Some (v, r3) =>
                      match skipWs r3 with
                      | String ","%char r4 =>
                          match members fuel r4 with
                          | Some (kvs, rest) => Some ((k, v) :: kvs, rest)
                          | None => None
                          end
                      | String "}"%char rest => Some ([(k, v)], rest)
                      | _ => None
                      end
                  | None => None
                  end
              | _ => None
              end
          | None => None
          end
      | _ => None
      end
  end.

Definition hexDigit (n : nat) : ascii :=
  ascii_of_nat (if Nat.ltb n 10 then 48 + n else 87 + n).

Definition escapeChar (c : ascii) : string :=
  let n := nat_of_ascii c in
  if Ascii.eqb c "034" then "\" +:+ String "034"%char EmptyString
  else if Ascii.eqb c "\" then "\\"
  else if Ascii.eqb c "008" then "\b"
  else if Ascii.eqb c "012" then "\f"
  else if Ascii.eqb c "010" then "\n"
  else if Ascii.eqb c "013" then "\r"
  else if Ascii.eqb c "009" then "\t"
  else if Nat.ltb n 32 then
    "\u00" +:+ String (hexDigit (n / 16)) (String (hexDigit (n mod 16)) EmptyString)
  else String c EmptyString.

Fixpoint escape (s : string) : string :=
  match s with
  | EmptyString => EmptyString
  | String c s' => escapeChar c +:+ escape s'
  end.

Definition quote (s : string) : string :=
  String "034"%char (escape s) +:+ String "034"%char EmptyString.

(** [JSON.stringify(v)] inside a container: [undefined] prints as [null]
    in an array and drops the property in an object. *)
Fixpoint print (v : jsval) : string :=
  match v with
  | VUndefined | VNull => "null"
  | VBool true => "true"
  | VBool false => "false"
  | VNum n => JsString.ofZ n
  | VStr s => quote s
  | VArr items => "[" +:+ JsString.join "," (map print items) +:+ "]"
  | VObj fields =>
      "{" +:+ JsString.join ","
                (omap (fun '(k, x) => match x with
                                      | VUndefined => None
                                      | _ => Some (quote k +:+ ":" +:+ print x)
                                      end) fields) +:+ "}"
  end.

(** [JSON.stringify(v)] *)
Definition stringify (v : jsval) : option string :=
  match v with
  | VUndefined => None
  | _ => Some (print v)
  end.

Definition newline : string := String "010"%char EmptyString.

(** [JSON.stringify(v, null, 2)] at the indentation [ind]. *)
Fixpoint pretty (ind : string) (v : jsval) : string :=
  match v with
  | VArr [] => "[]"
  | VArr items =>
      "[" +:+ newline
        +:+ JsString.join ("," +:+ newline)
              (map (fun x => ind +:+ "  " +:+ pretty (ind +:+ "  ") x) items)
        +:+ newline +:+ ind +:+ "]"
  | VObj fields =>
      match omap (fun '(k, x) => match x with
                                 | VUndefined => None
                                 | _ => Some (ind +:+ "  " +:+ quote k +:+ ": "
                                                +:+ pretty (ind +:+ "  ") x)
                                 end) fields with
      | [] => "{}"
      | lines => "{" +:+ newline +:+ JsString.join ("," +:+ newline) lines
                   +:+ newline +:+ ind +:+ "}"
      end
  | _ => print v
  end.

(** [JSON.parse(text)]: a value, or the [SyntaxError]. *)
Definition parse (text : string) : outcome jsval :=
  match value (S (String.length text)) text with
  | Some (v, rest) =>
      if JsString.isEmpty (skipWs rest) then Ret v
      else Throw "Unexpected non-whitespace character after JSON"
  | None => Throw "Unexpected token in JSON"
  end.

End Json.


(* ===================================================================== *)
(** * The file system and the effect monad *)
(* ===================================================================== *)

Inductive fsnode : Type :=
| File (content : string)
| Dir.

Abbreviation filesystem := (gmap string fsnode).

(** The options object handed to the SDK's [query]. *)
Record QueryOptions : Type := {
  opt_cwd : string;
  opt_systemPromptAppend : option string;
  opt_maxTurns : Z;
  opt_abortController : bool;
  opt_model : option string;
  opt_continue : bool;
  opt_sessionId : option string;
  opt_persistSession : option bool
}.

(** What a call does to the outside, in program order. *)
Inductive effect : Type :=
| ELog (level message : string)
| EEnsureAgentDirectory (agentDir : string)
| EUpdateAgentTeammates (agentDir agentId : string)
| ESpawn (command : string) (args : list string) (cwd : string)
    (env : list (string * string))
| ESetTimeout (ms : Z)
| EClearTimeout
| EAbort
| EQuery (prompt : string) (options : QueryOptions).

(** State (the file system), a trace of effects, and exceptions. *)
Definition M (A : Type) : Type :=
  filesystem -> filesystem * list effect * outcome A.

Definition ret {A} (a : A) : M A := fun fs => (fs, [], Ret a).

Definition throw {A} (message : string) : M A := fun fs => (fs, [], Throw message).

Definition bind {A B} (m : M A) (k : A -> M B) : M B :=
  fun fs =>
    match m fs with
    | (fs1, t1, Ret a) =>
        match k a fs1 with
        | (fs2, t2, o) => (fs2, t1 ++ t2, o)
        end
    | (fs1, t1, Throw e) => (fs1, t1, Throw e)
    end.

Notation "x <- m ;; k" := (bind m (fun x => k))
  (at level 100, m at next level, right associativity).
Notation "m ;;; k" := (bind m (fun _ => k))
  (at level 100, right associativity).

Definition emit (e : effect) : M unit := fun fs => (fs, [e], Ret tt).

(** [log(level, message)] of [lib/logging]. *)
Definition log (level message : string) : M unit := emit (ELog level message).

Definition lift {A} (o : outcome A) : M A := fun fs => (fs, [], o).

Definition modifyFs (f : filesystem -> filesystem) : M unit :=
  fun fs => (f fs, [], Ret tt).

(** [try { body } catch (err) { handler }]. *)
Definition tryCatch {A} (body : M A) (handler : string -> M A) : M A :=
  fun fs =>
    match body fs with
    | (fs1, t1, Ret a) => (fs1, t1, Ret a)
    | (fs1, t1, Throw e) =>
        match handler e fs1 with
        | (fs2, t2, o) => (fs2, t1 ++ t2, o)
        end
    end.

(** [try { body } finally { cleanup }]: the cleanup runs on both exits and
    its own exception, if any, replaces the body's completion. *)
Definition tryFinally {A} (body : M A) (cleanup : M unit) : M A :=
  fun fs =>
    match body fs with
    | (fs1, t1, o) =>
        match cleanup fs1 with
        | (fs2, t2, Ret _) => (fs2, t1 ++ t2, o)
        | (fs2, t2, Throw e) => (fs2, t1 ++ t2, Throw e)
        end
    end.

Module Fs.

(** [fs.existsSync(p)]. *)
Definition existsSync (p : string) : M bool :=
  fun fs => (fs, [], Ret (match fs !! p with Some _ => true | None => false end)).

(** [fs.readFileSync(p, 'utf8')]. *)
Definition readFileSync (p : string) : M string :=
  fun fs =>
    match fs !! p with
    | Some (File content) => (fs, [], Ret content)
    | Some Dir => (fs, [], Throw "EISDIR: illegal operation on a directory, read")
    | None => (fs, [], Throw ("ENOENT: no such file or directory, open '" +:+ p +:+ "'"))
    end.

(** [fs.writeFileSync(p, content)]. *)
Definition writeFileSync (p content : string) : M unit :=
  fun fs =>
    match fs !! p with
    | Some Dir =>
        (fs, [], Throw ("EISDIR: illegal operation on a directory, open '" +:+ p +:+ "'"))
    | _ => (<[p := File content]> fs, [], Ret tt)
    end.

(** [fs.unlinkSync(p)]. *)
Definition unlinkSync (p : string) : M unit :=
  fun fs =>
    match fs !! p with
    | Some (File _) => (delete p fs, [], Ret tt)
    | Some Dir => (fs, [], Throw ("EPERM: operation not permitted, unlink '" +:+ p +:+ "'"))
    | None => (fs, [], Throw ("ENOENT: no such file or directory, unlink '" +:+ p +:+ "'"))
    end.

(** Is a regular file stored at [p]? *)
Definition isFile (fs : filesystem) (p : string) : bool :=
  match fs !! p with Some (File _) => true | _ => false end.

End Fs.

Module Path.

(** [path.join(...parts)] on segments that are already normalised: empty
    segments are dropped and the rest joined by the separator. *)
Definition join (parts : list string) : string :=
  match filter (fun s => s ≠ EmptyString) parts with
  | [] => "."
  | segs => JsString.join "/" segs
  end.

(** [path.isAbsolute(p)]. *)
Definition isAbsolute (p : string) : bool := JsString.startsWith "/" p.

End Path.

(** The pure collaborators the code imports: the JSON built-ins and the
    model-name resolvers of [lib/config]. *)
Class Host : Type := {
  JSON_parse : string -> outcome jsval;
  (** [JSON.stringify(v)]: [None] is the [undefined] it returns for
      [undefined]. *)
  JSON_stringify : jsval -> option string;
  (** [JSON.stringify(v, null, 2)] *)
  JSON_stringify_pretty : jsval -> string;
  resolveClaudeModel : string -> string;
  resolveCodexModel : string -> string;
  resolveOpenCodeModel : string -> string;
  SCRIPT_DIR : string
}.

(** How a spawned child process ends: the [error] event, or [close] with
    an exit code ([None] is the [null] of a signal) and what it wrote. *)
Inductive ChildResult : Type :=
| SpawnError (message : string)
| Closed (code : option Z) (stdout stderr : string).

(* ===================================================================== *)
(** * [lib/observer.ts] *)
(* ===================================================================== *)

Definition nl : string := String "010"%char EmptyString.

(** [getObserverStateDir] *)
Definition getObserverStateDir (agentId workspacePath : string) : string :=
  Path.join [workspacePath; agentId; ".switchboard"; agentId].

(** [loadObserverState]: the parsed file, cast to [ObserverState] without
    a check, or [null]. *)
Definition loadObserverState `{Host} (agentId workspacePath : string) : M jsval :=
  let stateDir := getObserverStateDir agentId workspacePath in
  let stateFile := Path.join [stateDir; "observer_state.json"] in
  present <- Fs.existsSync stateFile ;;
  if negb present then ret VNull
  else
    tryCatch
      (raw <- Fs.readFileSync stateFile ;;
       data <- lift (JSON_parse raw) ;;
       ret data)
      (fun err =>
         log "WARN" ("Failed to read observer state for " +:+ agentId +:+ ": " +:+ err) ;;;
         ret VNull).

(** [state.k] where [state] is typed [ObserverState]. *)
Definition stateField (state : jsval) (k : string) : outcome jsval :=
  match Js.get state k with
  | Some v => Ret v
  | None => Throw ("Cannot read properties of " +:+ Js.toString state +:+ " (reading '" +:+ k +:+ "')")
  end.

(** [formatObservationsPrompt] *)
Definition formatObservationsPrompt (state : jsval) : outcome string :=
  match stateField state "current_task" with
  | Throw e => Throw e
  | Ret current_task =>
  match stateField state "suggested_response" with
  | Throw e => Throw e
  | Ret suggested_response =>
  match stateField state "observations_text" with
  | Throw e => Throw e
  | Ret observations_text =>
      let parts := ["<observer-context>"] in
      let parts :=
        if Js.truthy current_task
        then parts ++ ["<current-task>" +:+ Js.toString current_task +:+ "</current-task>"]
        else parts in
      let parts :=
        if Js.truthy suggested_response
        then parts ++ ["<suggested-response>" +:+ Js.toString suggested_response
                         +:+ "</suggested-response>"]
        else parts in
      let parts := parts ++ ["<observations>" +:+ Js.toString observations_text
                               +:+ "</observations>"] in
      let parts := parts ++ ["</observer-context>"] in
      let parts := parts ++ [EmptyString] in
      let parts := parts ++ ["Reference specific details from these observations when relevant."] in
      let parts := parts ++ ["Prefer the MOST RECENT information when observations conflict."] in
      Ret (JsString.join nl parts)
  end end end.

(* ===================================================================== *)
(** * [server/routes/observer.ts] *)
(* ===================================================================== *)

(** The state [readObserverState] falls back to. *)
Definition defaultObserverState : jsval :=
  VObj [("observations_text", VStr EmptyString);
        ("total_tokens_observed", VNum 0);
        ("observation_count", VNum 0);
        ("reflection_count", VNum 0);
        ("last_observed_at", VNull);
        ("current_task", VStr EmptyString);
        ("suggested_response", VStr EmptyString)].

(** [readObserverState] *)
Definition readObserverState `{Host} (agentDir : string) : M jsval :=
  let stateFile := Path.join [agentDir; ".switchboard"; "observer_state.json"] in
  tryCatch
    (raw <- Fs.readFileSync stateFile ;;
     lift (JSON_parse raw))
    (fun _ => ret defaultObserverState).

(* ===================================================================== *)
(** * The world outside one call *)
(* ===================================================================== *)

(** An event of the SDK's message stream, with the properties the code
    reads.  An absent optional property is [None]. *)
Record SDKMessage : Type := {
  msg_type : string;
  msg_subtype : string;
  msg_session_id : option string;
  msg_result : string;
  msg_errors : option (list string);
  msg_content : jsval;
  msg_isReplay : bool
}.

(** What happens, in order, while the stream is being consumed: the
    generator yields a message, the timeout armed by the caller expires,
    or the generator throws. *)
Inductive occurrence : Type :=
| Yield (msg : SDKMessage)
| TimerExpires
| StreamFails (message : string).

Record World : Type := {
  w_tmpdir : string;
  w_now : Z;
  w_env : string -> string;
  w_child : ChildResult;
  w_childWrites : filesystem -> filesystem;
  w_stream : list occurrence;
  w_uuid : string
}.

(** One entry of the log handed to the observer. *)
Record ObserverMessage : Type := {
  role : string;
  content : jsval
}.

(* ===================================================================== *)
(** * [lib/observer.ts]: [runObserver] *)
(* ===================================================================== *)

Module Normalize.

Definition typeError (what : string) : string :=
  "Cannot read properties of undefined (reading '" +:+ what +:+ "')".

(** [JSON.stringify(v).substring(0, n)] *)
Definition stringifyCut `{Host} (v : jsval) (n : nat) : outcome string :=
  match JSON_stringify v with
  | Some s => Ret (String.substring 0 n s)
  | None => Throw (typeError "substring")
  end.

(** One turn of the loop over the blocks of a message. *)
Definition block `{Host} (parts : list jsval) (b : jsval) : outcome (list jsval) :=
  match Js.get b "type" with
  | None => Throw (typeError "type")
  | Some ty =>
      if Js.isStr ty "text" && Js.truthy (Js.getOpt b "text") then
        Ret (parts ++ [Js.getOpt b "text"])
      else if Js.isStr ty "tool_use" then
        match stringifyCut (Js.getOpt b "input") 500 with
        | Ret input =>
            Ret (parts ++ [VStr ("[Tool: " +:+ Js.toString (Js.getOpt b "name")
                                   +:+ "] Input: " +:+ input)])
        | Throw e => Throw e
        end
      else if Js.isStr ty "tool_result" then
        match
          match Js.getOpt b "content" with
          | VStr s => Ret (String.substring 0 1000 s)
          | other => stringifyCut other 1000
          end
        with
        | Ret c => Ret (parts ++ [VStr ("[Tool Result] " +:+ c)])
        | Throw e => Throw e
        end
      else Ret parts
  end.

Fixpoint blocks `{Host} (parts : list jsval) (bs : list jsval) : outcome (list jsval) :=
  match bs with
  | [] => Ret parts
  | b :: rest =>
      match block parts b with
      | Ret parts' => blocks parts' rest
      | Throw e => Throw e
      end
  end.

(** The first [map]: flatten a content array to one string. *)
Definition flatten `{Host} (msg : ObserverMessage) : outcome ObserverMessage :=
  match content msg with
  | VArr bs =>
      match blocks [] bs with
      | Ret parts => Ret {| role := role msg; content := VStr (Js.joinWith nl parts) |}
      | Throw e => Throw e
      end
  | _ => Ret msg
  end.

(** [content.replace(/^\[Message from teammate @[^\]]+\]:\n/, '')] *)
Definition stripHeader (s : string) : string :=
  match JsString.stripPrefix "[Message from teammate @" s with
  | Some r =>
      let '(name, rest) := JsString.spanNot "]"%char r in
      if JsString.isEmpty name then s
      else match JsString.stripPrefix ("]:" +:+ nl) rest with
           | Some body => body
           | None => s
           end
  | None => s
  end.

(** A match of the pending-responses trailer at the head of [s]: what
    follows the match. *)
Definition trailerAt (s : string) : option string :=
  match JsString.stripPrefix (nl +:+ nl +:+ "------" +:+ nl +:+ nl +:+ "[") s with
  | Some r =>
      let '(count, r1) := JsString.spanWhile JsString.isDigit r in
      if JsString.isEmpty count then None
      else
        match JsString.stripPrefix
                " other teammate response(s) are still being processed" r1 with
        | Some r2 =>
            let '(_, r3) := JsString.spanNot "]"%char r2 in
            JsString.stripPrefix "]" r3
        | None => None
        end
  | None => None
  end.

(** [content.replace(/\n\n------\n\n\[\d+ other teammate response\(s\)
    are still being processed[^\]]*\]/, '')]: the leftmost match goes. *)
Fixpoint stripTrailer (s : string) : string :=
  match trailerAt s with
  | Some after => after
  | None =>
      match s with
      | EmptyString => EmptyString
      | String c s' => String c (stripTrailer s')
      end
  end.

(** The second [map]: strip the team routing artifacts. *)
Definition strip (msg : ObserverMessage) : ObserverMessage :=
  match content msg with
  | VStr c => {| role := role msg; content := VStr (stripTrailer (stripHeader c)) |}
  | _ => msg
  end.

Fixpoint flattenAll `{Host} (messages : list ObserverMessage) :
  outcome (list ObserverMessage) :=
  match messages with
  | [] => Ret []
  | m :: rest =>
      match flatten m with
      | Ret m' =>
          match flattenAll rest with
          | Ret rest' => Ret (m' :: rest')
          | Throw e => Throw e
          end
      | Throw e => Throw e
      end
  end.

(** [messages.map(flatten).map(strip)] *)
Definition all `{Host} (messages : list ObserverMessage) : outcome (list ObserverMessage) :=
  match flattenAll messages with
  | Ret flat => Ret (map strip flat)
  | Throw e => Throw e
  end.

Definition toJson (messages : list ObserverMessage) : jsval :=
  VArr (map (fun m => VObj [("role", VStr (role m)); ("content", content m)]) messages).

End Normalize.

(** [a || b] on strings, the empty string standing for an absent value. *)
Definition orElse (a b : string) : string :=
  if JsString.isEmpty a then b else a.

(** The name of the transient messages file of a call. *)
Definition observerTmpFile (w : World) (agentId : string) : string :=
  Path.join [w_tmpdir w;
             "observer-" +:+ agentId +:+ "-" +:+ JsString.ofZ (w_now w) +:+ ".json"].

(** The promise that spawns the hook and settles when it ends. *)
Definition observerHook (w : World) (agentId tmpFile agentDir provider : string)
    (tokenThreshold reflectionThreshold : Z) (observerSrc observerPython : string) : M unit :=
  let pythonBin := orElse observerPython (orElse (w_env w "SWITCHBOARD_PYTHON") "python3") in
  let srcPath := orElse observerSrc (w_env w "SWITCHBOARD_OBSERVER_SRC") in
  (if JsString.isEmpty srcPath
   then log "WARN" ("Observer for " +:+ agentId +:+ ": no observer source path configured. "
                      +:+ "Set workspace.observer_src in settings or SWITCHBOARD_OBSERVER_SRC env var.")
   else ret tt) ;;;
  emit (ESpawn pythonBin
          ["-m"; "switchboard.observer.hook";
           "--messages-file"; tmpFile;
           "--project-root"; agentDir;
           "--agent-id"; agentId;
           "--provider"; provider;
           "--token-threshold"; JsString.ofZ tokenThreshold;
           "--reflection-threshold"; JsString.ofZ reflectionThreshold]
          agentDir
          [("PYTHONPATH",
            JsString.join ":"
              (filter (fun s => s ≠ EmptyString) [srcPath; w_env w "PYTHONPATH"]))]) ;;;
  match w_child w with
  | SpawnError e => throw e
  | Closed code _ stderr =>
      modifyFs (w_childWrites w) ;;;
      match code with
      | Some 0 => ret tt
      | _ =>
          throw ("observer hook exited with code "
                   +:+ match code with Some c => JsString.ofZ c | None => "null" end
                   +:+ ": " +:+ JsString.trim stderr)
      end
  end.

(** [runObserver] *)
Definition runObserver `{Host} (w : World) (agentId : string)
    (messages : list ObserverMessage) (workspacePath provider : string)
    (tokenThreshold reflectionThreshold : Z) (observerSrc observerPython : string) : M unit :=
  let tmpFile := observerTmpFile w agentId in
  normalized <- lift (Normalize.all messages) ;;
  Fs.writeFileSync tmpFile (JSON_stringify_pretty (Normalize.toJson normalized)) ;;;
  let agentDir := Path.join [workspacePath; agentId] in
  tryFinally
    (observerHook w agentId tmpFile agentDir provider
       tokenThreshold reflectionThreshold observerSrc observerPython)
    (tryCatch (Fs.unlinkSync tmpFile) (fun _ => ret tt)).

(* ===================================================================== *)
(** * Configuration tables *)
(* ===================================================================== *)

(** [AgentConfig]: an absent optional string is the empty string, which
    the code's truthiness tests cannot tell apart. *)
Record AgentConfig : Type := {
  agent_name : string;
  agent_provider : string;
  agent_model : string;
  agent_working_directory : string;
  agent_observer_enabled : bool
}.

Record TeamConfig : Type := {
  team_name : string;
  team_agents : list string;
  team_leader_agent : string
}.

(** [Record<string, T>] in insertion order. *)
Abbreviation table T := (list (string * T)).

(** [t[k]] for a key that the table holds.  For a key that it does not
    hold, [None] is the [undefined] of JavaScript unless the key is a name
    that every plain object inherits from [Object.prototype], such as
    [constructor]; [inheritedKey] tells these names. *)
Fixpoint lookup {T} (k : string) (t : table T) : option T :=
  match t with
  | [] => None
  | (k', v) :: rest => if String.eqb k k' then Some v else lookup k rest
  end.

(** [ids.includes(id)] *)
Definition includesId (id : string) (ids : list string) : bool :=
  existsb (String.eqb id) ids.

(** Modelled from the spec: [findTeamForAgent] of [lib/routing.ts], whose
    source is not in the tree.  The first team, in iteration order, whose
    member list contains the agent. *)
Fixpoint findTeamForAgent (agentId : string) (teams : table TeamConfig) :
  option (string * TeamConfig) :=
  match teams with
  | [] => None
  | (teamId, team) :: rest =>
      if includesId agentId (team_agents team) then Some (teamId, team)
      else findTeamForAgent agentId rest
  end.

(* ===================================================================== *)
(** * [lib/invoke.ts] *)
(* ===================================================================== *)

(** Default timeout for SDK query in milliseconds (2 minutes). *)
Definition SDK_QUERY_TIMEOUT_MS : Z := 120000.

Record InvokeResult : Type := {
  response : string;
  messages : list ObserverMessage;
  sessionId : option string
}.

(** [string | InvokeResult]; the plain response is whatever value the
    parsed output carried. *)
Inductive InvokeReturn : Type :=
| Plain (response : jsval)
| Structured (result : InvokeResult).

(** [collectObserverMessages] *)
Fixpoint collectObserverMessages (sdkMessages : list SDKMessage) : list ObserverMessage :=
  match sdkMessages with
  | [] => []
  | msg :: rest =>
      if msg_isReplay msg then collectObserverMessages rest
      else if String.eqb (msg_type msg) "assistant" && Js.truthy (msg_content msg) then
        {| role := "assistant"; content := msg_content msg |} :: collectObserverMessages rest
      else if String.eqb (msg_type msg) "user" && negb (msg_isReplay msg)
                && Js.truthy (msg_content msg) then
        {| role := "user"; content := msg_content msg |} :: collectObserverMessages rest
      else collectObserverMessages rest
  end.

(** [runCommand] *)
Definition runCommand `{Host} (w : World) (command : string) (args : list string)
    (cwd : string) : M string :=
  emit (ESpawn command args (orElse cwd SCRIPT_DIR) []) ;;;
  match w_child w with
  | SpawnError e => throw e
  | Closed code stdout stderr =>
      modifyFs (w_childWrites w) ;;;
      match code with
      | Some 0 => ret stdout
      | _ =>
          throw (orElse (JsString.trim stderr)
                   ("Command exited with code "
                      +:+ match code with Some c => JsString.ofZ c | None => "null" end))
      end
  end.

Definition codexFallback : string := "Sorry, I could not generate a response from Codex.".
Definition opencodeFallback : string := "Sorry, I could not generate a response from OpenCode.".

(** The body of the [try] of the Codex loop: the new value of [response],
    or [None] when the body throws. *)
Definition codexTry `{Host} (response : jsval) (line : string) : option jsval :=
  match JSON_parse line with
  | Throw _ => None
  | Ret json =>
      match Js.get json "type" with
      | None => None
      | Some ty =>
          if Js.isStr ty "item.completed"
             && Js.isStr (Js.getOpt (Js.getOpt json "item") "type") "agent_message"
          then Js.get (Js.getOpt json "item") "text"
          else Some response
      end
  end.

(** One turn of the Codex loop; the [catch] ignores the exception. *)
Definition codexStep `{Host} (response : jsval) (line : string) : jsval :=
  match codexTry response line with
  | Some r => r
  | None => response
  end.

(** Parse JSONL output and extract final agent_message. *)
Definition codexResponse `{Host} (codexOutput : string) : jsval :=
  let lines := JsString.split "010"%char (JsString.trim codexOutput) in
  Js.or (fold_left codexStep lines (VStr EmptyString)) (VStr codexFallback).

Definition opencodeTry `{Host} (response : jsval) (line : string) : option jsval :=
  match JSON_parse line with
  | Throw _ => None
  | Ret json =>
      match Js.get json "type" with
      | None => None
      | Some ty =>
          if Js.isStr ty "text" && Js.truthy (Js.getOpt (Js.getOpt json "part") "text")
          then Js.get (Js.getOpt json "part") "text"
          else Some response
      end
  end.

Definition opencodeStep `{Host} (response : jsval) (line : string) : jsval :=
  match opencodeTry response line with
  | Some r => r
  | None => response
  end.

(** Parse JSONL output and collect all text parts. *)
Definition opencodeResponse `{Host} (opencodeOutput : string) : jsval :=
  let lines := JsString.split "010"%char (JsString.trim opencodeOutput) in
  Js.or (fold_left opencodeStep lines (VStr EmptyString)) (VStr opencodeFallback).

(** The continuation hint put in front of the message after a reset. *)
Definition clearanceNotice : string :=
  "[Your previous conversation was cleared. Your observations contain your memory of past work. Pick up where you left off.]".

(** The team routing instructions appended to the system prompt. *)
Definition teamRoutingBlock (agentId teamId : string) (teammateIds : list string) : string :=
  "<team-routing>" +:+ nl +:+
  "You are agent " +:+ String "034"%char agentId +:+ String "034"%char " in team "
    +:+ String "034"%char teamId +:+ String "034"%char "." +:+ nl +:+
  "Your teammates: " +:+ JsString.join ", " teammateIds +:+ nl +:+ nl +:+
  "CRITICAL: To send a message to a teammate, you MUST include the tag " +:+
  "[@teammate_id: your message] in your response text. " +:+
  "This is the ONLY way to communicate with teammates. " +:+
  "Do NOT use SendMessage, Task, or any other tool for teammate communication. " +:+
  "Do NOT claim you sent a message unless you included the [@tag: msg] in your response."
    +:+ nl +:+ nl +:+
  "Example: [@" +:+ match teammateIds with t :: _ => t | [] => "undefined" end
    +:+ ": Can you help with this task?]" +:+ nl +:+
  "</team-routing>".

(** The loop's variables. *)
Record StreamState : Type := {
  st_allMessages : list SDKMessage;
  st_resultText : string;
  st_sessionId : option string
}.

(** Is a session id a non-empty string? *)
Definition sessionTruthy (s : option string) : bool :=
  match s with Some t => negb (JsString.isEmpty t) | None => false end.

(** The message of the error thrown for an error result. *)
Definition sdkErrorMessage (msg : SDKMessage) : string :=
  orElse (match msg_errors msg with
          | Some errs => JsString.join "; " errs
          | None => EmptyString
          end)
         ("SDK error: " +:+ msg_subtype msg).

(** The body of the [for await] loop. *)
Definition onMessage (st : StreamState) (msg : SDKMessage) : outcome StreamState :=
  let all :=
    if String.eqb (msg_type msg) "assistant" || String.eqb (msg_type msg) "user"
    then st_allMessages st ++ [msg] else st_allMessages st in
  let sid :=
    if sessionTruthy (msg_session_id msg) && negb (sessionTruthy (st_sessionId st))
    then msg_session_id msg else st_sessionId st in
  if String.eqb (msg_type msg) "result" then
    if String.eqb (msg_subtype msg) "success" then
      Ret {| st_allMessages := all;
             st_resultText := msg_result msg;
             st_sessionId := msg_session_id msg |}
    else Throw (sdkErrorMessage msg)
  else Ret {| st_allMessages := all; st_resultText := st_resultText st; st_sessionId := sid |}.

(** The callback given to [setTimeout]. *)
Definition onTimeout (agentId : string) : list effect :=
  [ELog "WARN" ("SDK query timed out after " +:+ JsString.ofZ (SDK_QUERY_TIMEOUT_MS / 1000)
                  +:+ "s (agent: " +:+ agentId +:+ ")");
   EAbort].

(** The [for await] loop over what happens while the stream is open.
    [armed] tells whether the timer is still pending: it fires once. *)
Fixpoint consume (agentId : string) (armed : bool) (st : StreamState)
    (os : list occurrence) : list effect * outcome StreamState :=
  match os with
  | [] => ([], Ret st)
  | Yield msg :: rest =>
      match onMessage st msg with
      | Ret st' => consume agentId armed st' rest
      | Throw e => ([], Throw e)
      end
  | TimerExpires :: rest =>
      if armed then
        let '(t, o) := consume agentId false st rest in (onTimeout agentId ++ t, o)
      else consume agentId false st rest
  | StreamFails e :: _ => ([], Throw e)
  end.

(** The loop's variables before the first event. *)
Definition initialState : StreamState :=
  {| st_allMessages := []; st_resultText := EmptyString; st_sessionId := Some EmptyString |}.

(** The loop, started with the timer armed. *)
Definition consumeStream (agentId : string) (os : list occurrence) : M StreamState :=
  fun fs =>
    let '(t, o) := consume agentId true initialState os in
    (fs, t, o).

Definition when (b : bool) (m : M unit) : M unit := if b then m else ret tt.

(** The observer part of the system prompt, and the outbound message. *)
Definition observerContext `{Host} (agent : AgentConfig) (agentId message workspacePath : string)
    (shouldReset : bool) : M (list string * string) :=
  if agent_observer_enabled agent then
    state <- loadObserverState agentId workspacePath ;;
    if Js.truthy (Js.getOpt state "observations_text") then
      prompt <- lift (formatObservationsPrompt state) ;;
      ret ([prompt],
           if shouldReset then clearanceNotice +:+ nl +:+ nl +:+ message else message)
    else ret ([], message)
  else ret ([], message).

(** The team routing part of the system prompt. *)
Definition teamContext (agentId : string) (teams : table TeamConfig) : list string :=
  match findTeamForAgent agentId teams with
  | Some (teamId, team) =>
      let teammateIds := filter (fun id => id ≠ agentId) (team_agents team) in
      match teammateIds with
      | [] => []
      | _ => [teamRoutingBlock agentId teamId teammateIds]
      end
  | None => []
  end.

(** The Anthropic branch of [invokeAgent], from the point where the SDK
    module is loaded.  Of the options object the fields that vary are
    kept; the environment, the permission mode, the tool preset and the
    setting sources are constants of the source. *)
Definition invokeClaude `{Host} (w : World) (agent : AgentConfig)
    (agentId message workspacePath workingDir : string) (shouldReset : bool)
    (teams : table TeamConfig) : M InvokeReturn :=
  log "INFO" ("Using Claude provider via SDK (agent: " +:+ agentId +:+ ")") ;;;
  let continueConversation := negb shouldReset in
  when shouldReset (log "INFO" ("🔄 Resetting conversation for agent: " +:+ agentId)) ;;;
  let modelId := resolveClaudeModel (agent_model agent) in
  ctx <- observerContext agent agentId message workspacePath shouldReset ;;
  let appendParts := ctx.1 ++ teamContext agentId teams in
  let message := ctx.2 in
  let systemPromptAppend :=
    match appendParts with
    | [] => None
    | _ => Some (JsString.join (nl +:+ nl) appendParts)
    end in
  emit (ESetTimeout SDK_QUERY_TIMEOUT_MS) ;;;
  let options :=
    {| opt_cwd := workingDir;
       opt_systemPromptAppend := systemPromptAppend;
       opt_maxTurns := 1;
       opt_abortController := true;
       opt_model := if JsString.isEmpty modelId then None else Some modelId;
       opt_continue := continueConversation;
       opt_sessionId := if continueConversation then None else Some (w_uuid w);
       opt_persistSession := if continueConversation then None else Some false |} in
  st <- tryFinally
          (emit (EQuery message options) ;;;
           consumeStream agentId (w_stream w))
          (emit EClearTimeout) ;;
  ret (Structured {| response := st_resultText st;
                     messages := collectObserverMessages (st_allMessages st);
                     sessionId := st_sessionId st |}).

(** [invokeAgent].  [ensureAgentDirectory] and [updateAgentTeammates] of
    [lib/agent.ts] appear as effects: they write the template files of the
    agent directory and never the observer state file.  What they write is
    not part of the file system threaded here, which follows only what the
    invocation itself reads and writes; no statement below is about the
    files of the agent directory after a call. *)
Definition invokeAgent `{Host} (w : World) (agent : AgentConfig)
    (agentId message workspacePath : string) (shouldReset : bool)
    (agents : table AgentConfig) (teams : table TeamConfig) : M InvokeReturn :=
  let agentDir := Path.join [workspacePath; agentId] in
  present <- Fs.existsSync agentDir ;;
  emit (EEnsureAgentDirectory agentDir) ;;;
  when (negb present)
    (log "INFO" ("Initialized agent directory with config files: " +:+ agentDir)) ;;;
  emit (EUpdateAgentTeammates agentDir agentId) ;;;
  let workingDir :=
    if JsString.isEmpty (agent_working_directory agent) then agentDir
    else if Path.isAbsolute (agent_working_directory agent)
         then agent_working_directory agent
         else Path.join [workspacePath; agent_working_directory agent] in
  let provider := orElse (agent_provider agent) "anthropic" in
  if String.eqb provider "openai" then
    log "INFO" ("Using Codex CLI (agent: " +:+ agentId +:+ ")") ;;;
    let shouldResume := negb shouldReset in
    when shouldReset (log "INFO" ("🔄 Resetting Codex conversation for agent: " +:+ agentId)) ;;;
    let modelId := resolveCodexModel (agent_model agent) in
    let codexArgs :=
      ["exec"]
        ++ (if shouldResume then ["resume"; "--last"] else [])
        ++ (if JsString.isEmpty modelId then [] else ["--model"; modelId])
        ++ ["--skip-git-repo-check"; "--dangerously-bypass-approvals-and-sandbox";
            "--json"; message] in
    codexOutput <- runCommand w "codex" codexArgs workingDir ;;
    ret (Plain (codexResponse codexOutput))
  else if String.eqb provider "opencode" then
    let modelId := resolveOpenCodeModel (agent_model agent) in
    log "INFO" ("Using OpenCode CLI (agent: " +:+ agentId +:+ ", model: " +:+ modelId +:+ ")") ;;;
    let continueConversation := negb shouldReset in
    when shouldReset (log "INFO" ("🔄 Resetting OpenCode conversation for agent: " +:+ agentId)) ;;;
    let opencodeArgs :=
      ["run"; "--format"; "json"]
        ++ (if JsString.isEmpty modelId then [] else ["--model"; modelId])
        ++ (if continueConversation then ["-c"] else [])
        ++ [message] in
    opencodeOutput <- runCommand w "opencode" opencodeArgs workingDir ;;
    ret (Plain (opencodeResponse opencodeOutput))
  else
    invokeClaude w agent agentId message workspacePath workingDir shouldReset teams.

(* ===================================================================== *)
(** * [lib/routing.ts]: mention extraction *)
(* ===================================================================== *)

Record DirectedMention : Type := {
  teammateId : string;
  message : string;
  sourceAgentId : string
}.

(** A bracket tag found in a response: its id list, its directed clause
    and the text that precedes the tag. *)
Record BracketTag : Type := {
  tag_ids : list string;
  tag_message : string;
  tag_preceding : string
}.

Module Routing.

(** The characters of an agent id or a handle. *)
Definition isIdChar (c : ascii) : bool :=
  JsString.isLetter c || JsString.isDigit c || Ascii.eqb c "_" || Ascii.eqb c "-".

Definition isIdListChar (c : ascii) : bool := isIdChar c || Ascii.eqb c ",".

(** Modelled from the spec: a bracket tag [[@id(,id)*: message]] at the
    head of [s], as the comma-separated ids, the directed clause and what
    follows the closing bracket.  A tag without colon or with an empty id
    is malformed and is no tag. *)
Definition parseTag (s : string) : option (list string * string * string) :=
  match JsString.stripPrefix "[@" s with
  | Some r =>
      let '(idlist, r1) := JsString.spanWhile isIdListChar r in
      match r1 with
      | String ":"%char r2 =>
          let '(clause, r3) := JsString.spanNot "]"%char r2 in
          match r3 with
          | String "]"%char rest =>
              let ids := JsString.split ","%char idlist in
              if forallb (fun id => negb (JsString.isEmpty id)) ids
              then Some (ids, JsString.trim clause, rest)
              else None
          | _ => None
          end
      | _ => None
      end
  | None => None
  end.

(** Modelled from the spec: the scan for bracket tags, left to right and
    without overlap.  [skip] counts the characters of the last tag still
    to be passed, [before] is the text already passed. *)
Fixpoint bracketScan (skip : nat) (before s : string) : list BracketTag :=
  match s with
  | EmptyString => []
  | String c s' =>
      match skip with
      | S k => bracketScan k (before +:+ String c EmptyString) s'
      | O =>
          match parseTag s with
          | Some (ids, clause, rest) =>
              {| tag_ids := ids; tag_message := clause; tag_preceding := before |}
                :: bracketScan (String.length s' - String.length rest)
                     (before +:+ String c EmptyString) s'
          | None => bracketScan O (before +:+ String c EmptyString) s'
          end
      end
  end.

Definition bracketMatches (text : string) : list BracketTag :=
  bracketScan O EmptyString text.

(** Modelled from the spec: a recognized teammate of [self] is another
    member of the team that the agent table knows. *)
Definition isTeammate (id self teamId : string) (teams : table TeamConfig)
    (agents : table AgentConfig) : bool :=
  negb (String.eqb id self)
  && match lookup teamId teams with
     | Some team => includesId id (team_agents team)
     | None => false
     end
  && match lookup id agents with Some _ => true | None => false end.

(** Keep the first occurrence of every id. *)
Fixpoint dedup (seen ids : list string) : list string :=
  match ids with
  | [] => []
  | id :: rest =>
      if includesId id seen then dedup seen rest
      else id :: dedup (id :: seen) rest
  end.

(** The mentions one bracket tag emits: the text preceding the tag is
    put, verbatim, in front of the directed clause. *)
Definition tagMentions (self teamId : string) (teams : table TeamConfig)
    (agents : table AgentConfig) (tag : BracketTag) : list DirectedMention :=
  map (fun id => {| teammateId := id;
                    message := tag_preceding tag +:+ tag_message tag;
                    sourceAgentId := self |})
      (dedup [] (filter (fun id => isTeammate id self teamId teams agents = true)
                   (tag_ids tag))).

Definition bracketMentions (self teamId : string) (teams : table TeamConfig)
    (agents : table AgentConfig) (tags : list BracketTag) : list DirectedMention :=
  concat (map (tagMentions self teamId teams agents) tags).

(** The handles of a text: after every [@], the maximal run of
    identifier characters, when it is not empty. *)
Fixpoint bareTokens (s : string) : list string :=
  match s with
  | EmptyString => []
  | String c s' =>
      if Ascii.eqb c "@" then
        let '(token, _) := JsString.spanWhile isIdChar s' in
        if JsString.isEmpty token then bareTokens s' else token :: bareTokens s'
      else bareTokens s'
  end.

(** The first agent whose display name is [token], letter case aside. *)
Fixpoint byDisplayName (token : string) (agents : table AgentConfig) : option string :=
  match agents with
  | [] => None
  | (id, agent) :: rest =>
      if String.eqb (JsString.toLowerCase (agent_name agent)) (JsString.toLowerCase token)
      then Some id
      else byDisplayName token rest
  end.

(** A handle resolves by exact id first, then by display name. *)
Definition resolveHandle (token : string) (agents : table AgentConfig) : option string :=
  match lookup token agents with
  | Some _ => Some token
  | None => byDisplayName token agents
  end.

(** Modelled from the spec: the bare-mention fallback.  Every surviving
    mention carries the whole response. *)
Definition bareMentions (text self teamId : string) (teams : table TeamConfig)
    (agents : table AgentConfig) : list DirectedMention :=
  let resolved := omap (fun token => resolveHandle token agents) (bareTokens text) in
  map (fun id => {| teammateId := id; message := text; sourceAgentId := self |})
      (dedup [] (filter (fun id => isTeammate id self teamId teams agents = true) resolved)).

End Routing.

(** Modelled from the spec: [extractTeammateMentions] of [lib/routing.ts],
    whose source is not in the tree (only its tests are).  Bracket tags
    are exclusive: the bare-mention scan runs only when the text has no
    bracket tag at all. *)
Definition extractTeammateMentions (text self teamId : string)
    (teams : table TeamConfig) (agents : table AgentConfig) : list DirectedMention :=
  match Routing.bracketMatches text with
  | [] => Routing.bareMentions text self teamId teams agents
  | tags => Routing.bracketMentions self teamId teams agents tags
  end.

(* ===================================================================== *)
(** * [lib/observer.ts]: the stale team reference filter *)
(* ===================================================================== *)

Module Stale.

(** Does [s] hold [a], then one word, then [b]? *)
Fixpoint wordBetween (a b s : string) : bool :=
  match JsString.stripPrefix a s with
  | Some r =>
      let '(word, rest) := JsString.spanNot " "%char r in
      negb (JsString.isEmpty word) && JsString.startsWith b rest
  | None => false
  end
  || match s with
     | EmptyString => false
     | String _ s' => wordBetween a b s'
     end.

(** Does [s] hold [a], then one word, then [b], and after it [c]? *)
Fixpoint wordBetweenThen (a b c s : string) : bool :=
  match JsString.stripPrefix a s with
  | Some r =>
      let '(word, rest) := JsString.spanNot " "%char r in
      negb (JsString.isEmpty word)
      && match JsString.stripPrefix b rest with
         | Some after => JsString.includes c after
         | None => false
         end
  | None => false
  end
  || match s with
     | EmptyString => false
     | String _ s' => wordBetweenThen a b c s'
     end.

(** Modelled from the spec: a line asserts team structure when it gives a
    roster (your team includes ...), claims membership (you are in team X
    with ...) or states a composition (team X comprises ..., team X with
    ... agents), whatever the letter case.  A line in which the word team
    is followed by a verb and with, but names no agent, is prose and
    stays. *)
Definition isTeamStructureLine (line : string) : bool :=
  let l := JsString.toLowerCase line in
  JsString.includes "your team includes" l
  || wordBetween "you are in team " " with" l
  || wordBetween "team " " comprises" l
  || wordBetweenThen "team " " with" "agent" l.

End Stale.

(** Modelled from the spec: [filterStaleTeamReferences] of
    [lib/observer.ts]; the version of the file in the tree does not have
    it, its tests do.  The lines asserting team structure are removed,
    every other line is kept as it is. *)
Definition filterStaleTeamReferences (text : string) : string :=
  JsString.join nl
    (filter (fun line => Stale.isTeamStructureLine line = false)
       (JsString.split "010"%char text)).

(* ===================================================================== *)
(** * Reference formulations and concrete inputs *)
(* ===================================================================== *)

(** The host whose JSON built-ins are the functions of [Json] and whose
    model resolvers return the configured name. *)
Definition jsonHost : Host :=
  {| JSON_parse := Json.parse;
     JSON_stringify := Json.stringify;
     JSON_stringify_pretty := Json.pretty EmptyString;
     resolveClaudeModel := fun m => m;
     resolveCodexModel := fun m => m;
     resolveOpenCodeModel := fun m => m;
     SCRIPT_DIR := "/opt/tinyclaw" |}.

(** A text with every apostrophe turned into a double quote, to write
    JSON texts down. *)
Fixpoint dq (s : string) : string :=
  match s with
  | EmptyString => EmptyString
  | String c s' => String (if Ascii.eqb c "'" then "034"%char else c) (dq s')
  end.

(** The lines of a subprocess output, as both loops split them. *)
Definition outputLines (output : string) : list string :=
  JsString.split "010"%char (JsString.trim output).

(** The [text] of a line of the form
    [{type: item.completed, item: {type: agent_message, text}}]. *)
Definition codexMatch `{Host} (line : string) : option jsval :=
  match JSON_parse line with
  | Ret json =>
      if Js.isStr (Js.getOpt json "type") "item.completed"
         && Js.isStr (Js.getOpt (Js.getOpt json "item") "type") "agent_message"
      then Some (Js.getOpt (Js.getOpt json "item") "text")
      else None
  | Throw _ => None
  end.

(** The [part.text] of a line of the form [{type: text, part: {text}}]. *)
Definition opencodeMatch `{Host} (line : string) : option jsval :=
  match JSON_parse line with
  | Ret json =>
      if Js.isStr (Js.getOpt json "type") "text"
      then Some (Js.getOpt (Js.getOpt json "part") "text")
      else None
  | Throw _ => None
  end.

(** The value, or the fallback notice when there is none or it is falsy. *)
Definition orFallback (v : option jsval) (fallback : string) : jsval :=
  match v with
  | Some t => if Js.truthy t then t else VStr fallback
  | None => VStr fallback
  end.

(** A world whose child process and SDK stream are given. *)
Definition worldOf (child : ChildResult) (stream : list occurrence) : World :=
  {| w_tmpdir := "/tmp";
     w_now := 1772100000000;
     w_env := fun _ => EmptyString;
     w_child := child;
     w_childWrites := fun fs => fs;
     w_stream := stream;
     w_uuid := "3f0c1a52-7c1e-4d7e-9a51-2b1d0e6f9c11" |}.

Definition agentOf (provider : string) (observer : bool) : AgentConfig :=
  {| agent_name := "Bob";
     agent_provider := provider;
     agent_model := "sonnet";
     agent_working_directory := EmptyString;
     agent_observer_enabled := observer |}.

(** The outcome of running a computation on a file system. *)
Definition outcomeOf {A} (m : M A) (fs : filesystem) : outcome A := (m fs).2.

(** Its trace. *)
Definition traceOf {A} (m : M A) (fs : filesystem) : list effect := (m fs).1.2.

(** The file system it leaves. *)
Definition finalFs {A} (m : M A) (fs : filesystem) : filesystem := (m fs).1.1.

(** An agent_message completion whose text is empty. *)
Definition codexEmptyText : string :=
  dq "{'type':'item.completed','item':{'type':'agent_message','text':''}}".

(** A text event with a text, then one with an empty text. *)
Definition opencodeHelloThenEmpty : string :=
  dq "{'type':'text','part':{'text':'hello'}}" +:+ nl
    +:+ dq "{'type':'text','part':{'text':''}}".

(** The per-agent state file that [loadObserverState] reads. *)
Definition observerStateFile (agentId workspacePath : string) : string :=
  Path.join [getObserverStateDir agentId workspacePath; "observer_state.json"].

(** The state file that the route's [readObserverState] reads. *)
Definition routeStateFile (agentDir : string) : string :=
  Path.join [agentDir; ".switchboard"; "observer_state.json"].

Definition isNumber (v : jsval) : bool :=
  match v with VNum _ => true | _ => false end.

Definition isNull (v : jsval) : bool :=
  match v with VNull => true | _ => false end.

(** Every field of [ObserverState] is present with its declared type. *)
Definition observerStateComplete (state : jsval) : bool :=
  Js.isString (Js.getOpt state "observations_text")
  && isNumber (Js.getOpt state "total_tokens_observed")
  && isNumber (Js.getOpt state "observation_count")
  && isNumber (Js.getOpt state "reflection_count")
  && (Js.isString (Js.getOpt state "last_observed_at")
      || isNull (Js.getOpt state "last_observed_at"))
  && Js.isString (Js.getOpt state "current_task")
  && Js.isString (Js.getOpt state "suggested_response").

(** A file system holding one regular file. *)
Definition oneFile (path content : string) : filesystem := {[ path := File content ]}.


(** What the hook's promise settles to. *)
Definition hookOutcome (w : World) : outcome unit :=
  match w_child w with
  | SpawnError e => Throw e
  | Closed (Some 0) _ _ => Ret tt
  | Closed code _ stderr =>
      Throw ("observer hook exited with code "
               +:+ match code with Some c => JsString.ofZ c | None => "null" end
               +:+ ": " +:+ JsString.trim stderr)
  end.

(** Does [s] hold the character [c]? *)
Fixpoint hasChar (c : ascii) (s : string) : bool :=
  match s with
  | EmptyString => false
  | String a s' => Ascii.eqb a c || hasChar c s'
  end.

(** The lines of a text. *)
Definition linesOf (text : string) : list string := JsString.split "010"%char text.

(** The observation log of [testFormatObservationsFiltersTeamReferences]. *)
Definition staleObservations : string :=
  "* HIGH (10:00) User prefers Python" +:+ nl
    +:+ "* MEDIUM (10:05) Your team includes @old-agent and @stale-agent" +:+ nl
    +:+ "* HIGH (10:10) Project uses FastAPI".

(** The state of that test. *)
Definition staleState : jsval :=
  VObj [("observations_text", VStr staleObservations);
        ("total_tokens_observed", VNum 500);
        ("observation_count", VNum 3);
        ("reflection_count", VNum 0);
        ("last_observed_at", VStr "2026-02-28T10:00:00Z");
        ("current_task", VStr "Building API")].

(** Do all characters of [s] satisfy [p]? *)
Fixpoint allChars (p : ascii -> bool) (s : string) : bool :=
  match s with
  | EmptyString => true
  | String a s' => p a && allChars p s'
  end.

(** An agent id as it may stand in a bracket tag. *)
Definition isId (id : string) : bool :=
  negb (JsString.isEmpty id) && allChars Routing.isIdChar id.

(** The text of the bracket tag [[@id(,id)*:clause]]. *)
Definition tagText (ids : list string) (clause : string) : string :=
  "[@" +:+ JsString.join "," ids +:+ ":" +:+ clause +:+ "]".

(** The tag is well formed: at least one id, every id an identifier, and
    no closing bracket inside the clause. *)
Definition wellFormedTag (ids : list string) (clause : string) : Prop :=
  ids <> [] /\ Forall (fun id => isId id = true) ids /\ hasChar "]"%char clause = false.

(** The text holds a well-formed bracket tag somewhere. *)
Definition containsBracketTag (text : string) : Prop :=
  exists before ids clause after,
    wellFormedTag ids clause /\ text = before +:+ tagText ids clause +:+ after.

(** The agents and the team of the routing tests. *)
Definition testAgents : table AgentConfig :=
  [("agent-a", {| agent_name := "Alice"; agent_provider := "anthropic";
                  agent_model := "claude-sonnet-4-20250514";
                  agent_working_directory := EmptyString;
                  agent_observer_enabled := false |});
   ("agent-b", {| agent_name := "Bob"; agent_provider := "anthropic";
                  agent_model := "claude-sonnet-4-20250514";
                  agent_working_directory := EmptyString;
                  agent_observer_enabled := false |});
   ("agent-c", {| agent_name := "Charlie"; agent_provider := "anthropic";
                  agent_model := "claude-sonnet-4-20250514";
                  agent_working_directory := EmptyString;
                  agent_observer_enabled := false |})].

Definition testTeams : table TeamConfig :=
  [("test-team", {| team_name := "Test Team";
                    team_agents := ["agent-a"; "agent-b"; "agent-c"];
                    team_leader_agent := "agent-a" |})].

(** The provider tag selects the native streaming variant: it is neither
    of the two subprocess tags. *)
Definition isNative (agent : AgentConfig) : bool :=
  negb (String.eqb (orElse (agent_provider agent) "anthropic") "openai")
  && negb (String.eqb (orElse (agent_provider agent) "anthropic") "opencode").

(** The message a native invocation should send, given the state that
    [loadObserverState] returns for the agent. *)
Definition expectedPrompt (agent : AgentConfig) (state : jsval) (shouldReset : bool)
    (message : string) : string :=
  if shouldReset && agent_observer_enabled agent
     && Js.truthy (Js.getOpt state "observations_text")
  then clearanceNotice +:+ nl +:+ nl +:+ message
  else message.

(** The effects that concern the timer, the cancellation and the query. *)
Definition isControl (e : effect) : bool :=
  match e with
  | ESetTimeout _ | EClearTimeout | EAbort | EQuery _ _ => true
  | _ => false
  end.

Definition controlOf (tr : list effect) : list effect :=
  filter (fun e => isControl e = true) tr.

(** The queries of a trace, with their prompts. *)
Definition queriesOf (tr : list effect) : list (string * QueryOptions) :=
  omap (fun e => match e with EQuery p o => Some (p, o) | _ => None end) tr.

(** An occurrence that ends the consumption of the stream with an
    exception: a result event of an error subtype, or a failing stream. *)
Definition isFatal (o : occurrence) : bool :=
  match o with
  | Yield msg =>
      String.eqb (msg_type msg) "result" && negb (String.eqb (msg_subtype msg) "success")
  | TimerExpires => false
  | StreamFails _ => true
  end.

(** The occurrences that the loop gets to see. *)
Fixpoint consumed (os : list occurrence) : list occurrence :=
  match os with
  | [] => []
  | o :: rest => if isFatal o then [o] else o :: consumed rest
  end.

Definition isExpiry (o : occurrence) : bool :=
  match o with TimerExpires => true | _ => false end.

(** The value a native invocation returns for the final loop state. *)
Definition structuredOf (st : StreamState) : InvokeReturn :=
  Structured {| response := st_resultText st;
                messages := collectObserverMessages (st_allMessages st);
                sessionId := st_sessionId st |}.

(** A message event of the given type carrying a text. *)
Definition textEvent (type text : string) : SDKMessage :=
  {| msg_type := type; msg_subtype := EmptyString; msg_session_id := Some "S1";
     msg_result := EmptyString; msg_errors := None;
     msg_content := VStr text; msg_isReplay := false |}.

(** The terminal event of the spec's scenario. *)
Definition doneEvent : SDKMessage :=
  {| msg_type := "result"; msg_subtype := "success"; msg_session_id := Some "S1";
     msg_result := "Done."; msg_errors := None;
     msg_content := VUndefined; msg_isReplay := false |}.

(** An error result whose error list is present and empty. *)
Definition emptyErrorsEvent : SDKMessage :=
  {| msg_type := "result"; msg_subtype := "error_during_execution";
     msg_session_id := Some "S1"; msg_result := EmptyString; msg_errors := Some [];
     msg_content := VUndefined; msg_isReplay := false |}.

(** An error result with two errors. *)
Definition twoErrorsEvent : SDKMessage :=
  {| msg_type := "result"; msg_subtype := "error_during_execution";
     msg_session_id := Some "S1"; msg_result := EmptyString;
     msg_errors := Some ["rate limited"; "gave up"];
     msg_content := VUndefined; msg_isReplay := false |}.

(** A state file with one observation. *)
Definition observedFs : filesystem :=
  oneFile "/ws/agent-b/.switchboard/agent-b/observer_state.json"
    (dq "{'observations_text': '* HIGH (10:00) User prefers Python', 'current_task': ''}").

(* ===================================================================== *)
(** * Further reference formulations *)
(* ===================================================================== *)

(** The subprocesses of a trace: command, arguments and working
    directory. *)
Definition spawnsOf (tr : list effect) : list (string * list string * string) :=
  omap (fun e => match e with ESpawn c a d _ => Some (c, a, d) | _ => None end) tr.

(** The exit code as the error message prints it. *)
Definition codeText (code : option Z) : string :=
  match code with Some c => JsString.ofZ c | None => "null" end.

(** An assistant or user event. *)
Definition isConversation (msg : SDKMessage) : bool :=
  String.eqb (msg_type msg) "assistant" || String.eqb (msg_type msg) "user".

(** The first non-empty session id that the events carry, and the empty
    string when there is none. *)
Definition firstSessionId (msgs : list SDKMessage) : option string :=
  default (Some EmptyString)
    (head (filter (fun s => sessionTruthy s = true) (map msg_session_id msgs))).

(** The working directory of an invocation. *)
Definition workingDirOf (agent : AgentConfig) (agentId workspacePath : string) : string :=
  if JsString.isEmpty (agent_working_directory agent) then Path.join [workspacePath; agentId]
  else if Path.isAbsolute (agent_working_directory agent)
       then agent_working_directory agent
       else Path.join [workspacePath; agent_working_directory agent].

(** A log entry or one of the two provisioning effects. *)
Definition isHousekeeping (e : effect) : bool :=
  match e with
  | ELog _ _ | EEnsureAgentDirectory _ | EUpdateAgentTeammates _ _ => true
  | _ => false
  end.

(** The entry of the observer log that an event becomes. *)
Definition observerEntry (msg : SDKMessage) : ObserverMessage :=
  {| role := msg_type msg; content := msg_content msg |}.

(** The header the queue processor puts before a message that a teammate
    sent. *)
Definition teammateHeader (sender : string) : string :=
  "[Message from teammate @" +:+ sender +:+ "]:" +:+ nl.

(** How the pending-responses trailer starts. *)
Definition trailerStart : string := nl +:+ nl +:+ "------" +:+ nl +:+ nl +:+ "[".

(** The trailer the queue processor appends while other teammates are still
    working: [count] is the number it prints, [note] the rest of the sentence. *)
Definition pendingTrailer (count note : string) : string :=
  trailerStart +:+ count +:+ " other teammate response(s) are still being processed"
    +:+ note +:+ "]".

(** [Array.isArray(v)] *)
Definition isArray (v : jsval) : bool :=
  match v with VArr _ => true | _ => false end.

(** [v == null] *)
Definition isNullish (v : jsval) : bool :=
  match v with VUndefined | VNull => true | _ => false end.

(* ===================================================================== *)
(** * [lib/observer.ts]: [parseStreamJson] *)
(* ===================================================================== *)

(** What [parseStreamJson] returns.  The result and the session id are
    whatever values the events carry. *)
Record ParsedStreamJson : Type := {
  ps_result : jsval;
  ps_messages : list ObserverMessage;
  ps_sessionId : jsval
}.

(** One turn of the loop over the blocks of an assistant message. *)
Definition textBlock (result block : jsval) : outcome jsval :=
  match stateField block "type" with
  | Throw e => Throw e
  | Ret ty =>
      if Js.isStr ty "text" && Js.truthy (Js.getOpt block "text")
      then Ret (Js.getOpt block "text")
      else Ret result
  end.

Fixpoint textBlocks (result : jsval) (blocks : list jsval) : outcome jsval :=
  match blocks with
  | [] => Ret result
  | block :: rest =>
      match textBlock result block with
      | Ret result' => textBlocks result' rest
      | Throw e => Throw e
      end
  end.

(** [for (const block of content)] on a truthy [content]: an array gives
    its elements, a string its characters, which have no [type]; nothing
    else is iterable. *)
Definition lastText (result content : jsval) : outcome jsval :=
  match content with
  | VArr blocks => textBlocks result blocks
  | VStr _ => Ret result
  | _ => Throw "content is not iterable"
  end.

(** The body of the loop after a line has been parsed.  The first read,
    [json.session_id], fails on [null]; after it [json] is known to have
    properties. *)
Definition streamEvent (st : ParsedStreamJson) (json : jsval) : outcome ParsedStreamJson :=
  match stateField json "session_id" with
  | Throw e => Throw e
  | Ret session_id =>
      let sessionId :=
        if Js.truthy session_id && negb (Js.truthy (ps_sessionId st))
        then session_id else ps_sessionId st in
      let type := Js.getOpt json "type" in
      let content := Js.getOpt (Js.getOpt json "message") "content" in
      match
        (if Js.isStr type "assistant" && Js.truthy content
         then match lastText (ps_result st) content with
              | Ret result =>
                  Ret (result,
                       ps_messages st ++ [{| role := "assistant"; content := content |}])
              | Throw e => Throw e
              end
         else Ret (ps_result st, ps_messages st))
      with
      | Throw e => Throw e
      | Ret (result, messages) =>
          let messages :=
            if Js.isStr type "user" && Js.truthy content
            then messages ++ [{| role := "user"; content := content |}]
            else messages in
          if Js.isStr type "result" && Js.truthy (Js.getOpt json "result")
          then Ret {| ps_result := Js.getOpt json "result";
                      ps_messages := messages;
                      ps_sessionId := if Js.truthy session_id then session_id else sessionId |}
          else Ret {| ps_result := result;
                      ps_messages := messages;
                      ps_sessionId := sessionId |}
      end
  end.

(** One turn of the loop over the lines: a line that does not parse is
    skipped. *)
Definition streamLine `{Host} (st : ParsedStreamJson) (line : string) :
  outcome ParsedStreamJson :=
  match JSON_parse line with
  | Throw _ => Ret st
  | Ret json => streamEvent st json
  end.

Fixpoint streamLines `{Host} (st : ParsedStreamJson) (lines : list string) :
  outcome ParsedStreamJson :=
  match lines with
  | [] => Ret st
  | line :: rest =>
      match streamLine st line with
      | Ret st' => streamLines st' rest
      | Throw e => Throw e
      end
  end.

(** The state before the first line. *)
Definition emptyStream : ParsedStreamJson :=
  {| ps_result := VStr EmptyString; ps_messages := []; ps_sessionId := VStr EmptyString |}.

(** [parseStreamJson] *)
Definition parseStreamJson `{Host} (ndjsonOutput : string) : outcome ParsedStreamJson :=
  let lines := JsString.split "010"%char (JsString.trim ndjsonOutput) in
  streamLines emptyStream lines.

(** Does the line parse? *)
Definition parses `{Host} (line : string) : bool := isRet (JSON_parse line).

(* ===================================================================== *)
(** * Plain objects and paths *)
(* ===================================================================== *)

(** The property names every plain object inherits from
    [Object.prototype]: [obj[k]] is a function, or the prototype itself,
    for such a [k] that [obj] does not hold as its own. *)
Definition inheritedKey (k : string) : bool :=
  existsb (String.eqb k)
    ["constructor"; "__proto__"; "hasOwnProperty"; "isPrototypeOf";
     "propertyIsEnumerable"; "toLocaleString"; "toString"; "valueOf";
     "__defineGetter__"; "__defineSetter__"; "__lookupGetter__"; "__lookupSetter__"].

(** A segment that [path.join] keeps as it is. *)
Definition plainSegment (segment : string) : bool :=
  negb (JsString.isEmpty segment)
  && negb (String.eqb segment ".") && negb (String.eqb segment "..").

(** A relative path that [path.normalize] leaves alone: plain segments with
    one separator between them. *)
Definition normalisedRelative (p : string) : bool :=
  forallb plainSegment (JsString.split "/"%char p).

(** The same for the first argument of [path.join]: empty, or relative, or
    absolute below the root. *)
Definition normalisedBase (p : string) : bool :=
  match p with
  | EmptyString => true
  | String c rest => if Ascii.eqb c "/" then normalisedRelative rest else normalisedRelative p
  end.

(* ===================================================================== *)
(** * [server/routes/observer.ts]: the two handlers *)
(* ===================================================================== *)

(** What [c.json(body, status)] answers. *)
Record Response : Type := {
  res_status : Z;
  res_body : jsval
}.

Definition DEFAULT_TOKEN_THRESHOLD : Z := 50000.
Definition DEFAULT_REFLECTION_THRESHOLD : Z := 40000.

(** [a ?? b] *)
Definition coalesce (a b : jsval) : jsval :=
  match a with
  | VUndefined | VNull => b
  | _ => a
  end.

(** [typeof v === 'boolean'] *)
Definition isBoolean (v : jsval) : bool :=
  match v with VBool _ => true | _ => false end.

(** An agent of the settings: the fields of its object. *)
Abbreviation AgentEntry := (list (string * jsval)).

Definition notFound (agentId : string) : Response :=
  {| res_status := 404;
     res_body := VObj [("error", VStr ("agent '" +:+ agentId +:+ "' not found"))] |}.

(** [path.join] takes strings only.  The part of the message that
    describes the value received is left out. *)
Definition pathArgument (v : jsval) : outcome string :=
  match v with
  | VStr s => Ret s
  | _ => Throw (dq "The 'path' argument must be of type string.")
  end.

Definition defaultBuffer : jsval :=
  VObj [("message_count", VNum 0); ("token_count", VNum 0)].

(** The [try] that reads the buffer file of the observer. *)
Definition readBufferState `{Host} (workingDirectory : string) : M jsval :=
  let bufferFile := Path.join [workingDirectory; ".switchboard"; "buffer_state.json"] in
  tryCatch
    (raw <- Fs.readFileSync bufferFile ;;
     parsed <- lift (JSON_parse raw) ;;
     message_count <- lift (stateField parsed "message_count") ;;
     token_count <- lift (stateField parsed "token_count") ;;
     ret (VObj [("message_count", coalesce message_count (VNum 0));
                ("token_count", coalesce token_count (VNum 0))]))
    (fun _ => ret defaultBuffer).

(** [agents[agentId]] on the plain object [getAgents] returns: the agent's
    own entry, or, for a name inherited from [Object.prototype], a value
    that is truthy and has none of the fields the handler reads. *)
Definition agentEntry (agents : table AgentEntry) (agentId : string) : option AgentEntry :=
  match lookup agentId agents with
  | Some agent => Some agent
  | None => if inheritedKey agentId then Some [] else None
  end.

(** [GET /api/agents/:id/observer], given what [getAgents] returned. *)
Definition getObserver `{Host} (agents : table AgentEntry) (agentId : string) : M Response :=
  match agentEntry agents agentId with
  | None => ret (notFound agentId)
  | Some agent =>
      workingDirectory <- lift (pathArgument (Js.field "working_directory" agent)) ;;
      state <- readObserverState workingDirectory ;;
      let config :=
        VObj [("token_threshold",
               coalesce (Js.field "observer_token_threshold" agent)
                 (VNum DEFAULT_TOKEN_THRESHOLD));
              ("reflection_threshold",
               coalesce (Js.field "observer_reflection_threshold" agent)
                 (VNum DEFAULT_REFLECTION_THRESHOLD));
              ("observer_enabled",
               coalesce (Js.field "observer_enabled" agent) (VBool false));
              ("provider", coalesce (Js.field "observer_model" agent) (VStr "claude"))] in
      buffer <- readBufferState workingDirectory ;;
      ret {| res_status := 200;
             res_body := VObj [("state", state); ("config", config); ("buffer", buffer)] |}
  end.

(** [obj.k = v] on the fields of an object. *)
Definition setField (k : string) (v : jsval) (fields : list (string * jsval)) :
  list (string * jsval) :=
  if existsb (fun kv => String.eqb k kv.1) fields
  then map (fun kv => if String.eqb k kv.1 then (kv.1, v) else kv) fields
  else fields ++ [(k, v)].

(** [t[k] = f(t[k])] for a key of the table. *)
Fixpoint updateEntry {T} (k : string) (f : T -> T) (t : table T) : table T :=
  match t with
  | [] => []
  | (k', v) :: rest =>
      if String.eqb k k' then (k', f v) :: rest else (k', v) :: updateEntry k f rest
  end.

(** The settings as far as the handler touches them. *)
Record Settings : Type := {
  s_agents : option (table AgentEntry)
}.

(** The function the [PUT] handler passes to [mutateSettings]. *)
Definition observerConfigMutation (agentId : string) (body : jsval) (s : Settings) :
  outcome Settings :=
  let agents := match s_agents s with Some agents => agents | None => [] end in
  match lookup agentId agents with
  | None => Ret {| s_agents := Some agents |}
  | Some _ =>
      match stateField body "token_threshold" with
      | Throw e => Throw e
      | Ret token_threshold =>
          let agents :=
            if isNumber token_threshold
            then updateEntry agentId (setField "observer_token_threshold" token_threshold) agents
            else agents in
          let reflection_threshold := Js.getOpt body "reflection_threshold" in
          let agents :=
            if isNumber reflection_threshold
            then updateEntry agentId
                   (setField "observer_reflection_threshold" reflection_threshold) agents
            else agents in
          let observer_enabled := Js.getOpt body "observer_enabled" in
          let agents :=
            if isBoolean observer_enabled
            then updateEntry agentId (setField "observer_enabled" observer_enabled) agents
            else agents in
          Ret {| s_agents := Some agents |}
      end
  end.

(** The agents of the settings, none when the member is absent. *)
Definition agentsOf (s : Settings) : table AgentEntry :=
  match s_agents s with Some agents => agents | None => [] end.


(** The new value of a field: the one of the body when it has the type the
    handler asks for, the old one otherwise. *)
Definition applied (accepts : jsval -> bool) (requested old : jsval) : jsval :=
  if accepts requested then requested else old.
(** The three assignments of the handler, on the fields of one agent. *)
Definition assignments (body : jsval) (fields : AgentEntry) : AgentEntry :=
  let fields :=
    if isNumber (Js.getOpt body "token_threshold")
    then setField "observer_token_threshold" (Js.getOpt body "token_threshold") fields
    else fields in
  let fields :=
    if isNumber (Js.getOpt body "reflection_threshold")
    then setField "observer_reflection_threshold" (Js.getOpt body "reflection_threshold") fields
    else fields in
  if isBoolean (Js.getOpt body "observer_enabled")
  then setField "observer_enabled" (Js.getOpt body "observer_enabled") fields
  else fields.

(* ===================================================================== *)
(** * [lib/agent.ts]: [updateAgentTeammates] *)
(* ===================================================================== *)

(** [s.indexOf(needle)]: [None] is the [-1] of a needle that does not
    occur. *)
Fixpoint indexOf (needle s : string) : option nat :=
  if JsString.startsWith needle s then Some 0%nat
  else match s with
       | EmptyString => None
       | String _ s' => S <$> indexOf needle s'
       end.

(** [s.substring(n)] *)
Fixpoint sliceFrom (n : nat) (s : string) : string :=
  match n, s with
  | O, _ => s
  | S n', String _ s' => sliceFrom n' s'
  | S _, EmptyString => EmptyString
  end.

(** [fs.mkdirSync(p, { recursive: true })].  The map does not relate a
    path to its parent: the directory is created at the path itself. *)
Definition mkdirSync (p : string) : M unit :=
  fun fs =>
    match fs !! p with
    | Some (File _) => (fs, [], Throw ("EEXIST: file already exists, mkdir '" +:+ p +:+ "'"))
    | _ => (<[p := Dir]> fs, [], Ret tt)
    end.

Definition startMarker : string := "<!-- TEAMMATES_START -->".
Definition endMarker : string := "<!-- TEAMMATES_END -->".

Record Teammate : Type := {
  tm_id : string;
  tm_name : string;
  tm_model : string
}.

(** The body of the inner loop over the members of a team.  [agents[tid]]
    is read as the member's own entry: a member that is not configured and
    whose id is a name inherited from [Object.prototype] is outside this
    reading. *)
Definition addTeammate (agentId : string) (agents : table AgentConfig)
    (teammates : list Teammate) (tid : string) : list Teammate :=
  if String.eqb tid agentId then teammates
  else match lookup tid agents with
       | Some agent =>
           if existsb (fun t => String.eqb (tm_id t) tid) teammates then teammates
           else teammates ++ [{| tm_id := tid; tm_name := agent_name agent;
                                 tm_model := agent_model agent |}]
       | None => teammates
       end.

(** The body of the outer loop over the teams. *)
Definition addTeam (agentId : string) (agents : table AgentConfig)
    (teammates : list Teammate) (team : TeamConfig) : list Teammate :=
  if negb (includesId agentId (team_agents team)) then teammates
  else fold_left (addTeammate agentId agents) (team_agents team) teammates.

(** Find teammates from all teams this agent belongs to. *)
Definition teammatesOf (agentId : string) (agents : table AgentConfig)
    (teams : table TeamConfig) : list Teammate :=
  fold_left (addTeam agentId agents) (map snd teams) [].

(** One line of the roster. *)
Definition rosterLine (id name model : string) : string :=
  "- `@" +:+ id +:+ "` — **" +:+ name +:+ "** (" +:+ model +:+ ")" +:+ nl.

(** The text put between the markers. *)
Definition teammateBlock (agentId : string) (agents : table AgentConfig)
    (teams : table TeamConfig) : string :=
  let teammates := teammatesOf agentId agents teams in
  let block := EmptyString in
  let block :=
    match lookup agentId agents with
    | Some self =>
        block +:+ nl +:+ "### You" +:+ nl +:+ nl
          +:+ rosterLine agentId (agent_name self) (agent_model self)
    | None => block
    end in
  match teammates with
  | [] => block
  | _ =>
      fold_left (fun block t => block +:+ rosterLine (tm_id t) (tm_name t) (tm_model t))
        teammates (block +:+ nl +:+ "### Your Teammates" +:+ nl +:+ nl)
  end.

(** [content.substring(0, startIdx + startMarker.length) + block
    + content.substring(endIdx)].  Both indices fall on the boundaries of
    the ASCII markers, so that counting bytes or UTF-16 units gives the
    same text. *)
Definition spliceBlock (content : string) (startIdx endIdx : nat) (block : string) : string :=
  String.substring 0 (startIdx + String.length startMarker) content
    +:+ block +:+ sliceFrom endIdx content.

(** [updateAgentTeammates] *)
Definition updateAgentTeammates (agentDir agentId : string)
    (agents : table AgentConfig) (teams : table TeamConfig) : M unit :=
  let agentsMdPath := Path.join [agentDir; "AGENTS.md"] in
  present <- Fs.existsSync agentsMdPath ;;
  if negb present then ret tt
  else
    content <- Fs.readFileSync agentsMdPath ;;
    match indexOf startMarker content, indexOf endMarker content with
    | Some startIdx, Some endIdx =>
        let block := teammateBlock agentId agents teams in
        Fs.writeFileSync agentsMdPath (spliceBlock content startIdx endIdx block) ;;;
        let claudeDir := Path.join [agentDir; ".claude"] in
        claudeDirPresent <- Fs.existsSync claudeDir ;;
        (if negb claudeDirPresent then mkdirSync claudeDir else ret tt) ;;;
        let claudeMdPath := Path.join [claudeDir; "CLAUDE.md"] in
        claudeMdPresent <- Fs.existsSync claudeMdPath ;;
        claudeContent <- (if claudeMdPresent then Fs.readFileSync claudeMdPath
                          else ret EmptyString) ;;
        let claudeContent :=
          match indexOf startMarker claudeContent, indexOf endMarker claudeContent with
          | Some cStartIdx, Some cEndIdx =>
              spliceBlock claudeContent cStartIdx cEndIdx block
          | _, _ =>
              JsString.trimEnd claudeContent +:+ nl +:+ nl
                +:+ startMarker +:+ block +:+ endMarker +:+ nl
          end in
        Fs.writeFileSync claudeMdPath claudeContent
    | _, _ => ret tt
    end.

(** Do the two agents share a team? *)
Definition shareTeam (a b : string) (teams : table TeamConfig) : Prop :=
  exists team, In team (map snd teams)
               /\ In a (team_agents team) /\ In b (team_agents team).
(** What the loops maintain: no duplicate, never the agent itself, and
    each entry copied from the agent table. *)
Definition roster (agentId : string) (agents : table AgentConfig)
    (teammates : list Teammate) : Prop :=
  NoDup (map tm_id teammates)
  /\ Forall (fun t => tm_id t <> agentId
                      /\ exists agent, lookup (tm_id t) agents = Some agent
                                       /\ tm_name t = agent_name agent
                                       /\ tm_model t = agent_model agent) teammates.
(** What [updateAgentTeammates] makes of the text of [CLAUDE.md]. *)
Definition claudeText (claudeContent block : string) : string :=
  match indexOf startMarker claudeContent, indexOf endMarker claudeContent with
  | Some cStartIdx, Some cEndIdx => spliceBlock claudeContent cStartIdx cEndIdx block
  | _, _ =>
      JsString.trimEnd claudeContent +:+ nl +:+ nl
        +:+ startMarker +:+ block +:+ endMarker +:+ nl
  end.

(** The text of the regular file at a path, empty when there is none. *)
Definition textAt (fs : filesystem) (p : string) : string :=
  match fs !! p with Some (File content) => content | _ => EmptyString end.

(* ===================================================================== *)
(** * [lib/agent.ts]: the recursive copies *)
(* ===================================================================== *)

(** What stands at a path of the disk: a regular file, or a directory with
    its entries in the order [readdirSync] lists them.  Links and special
    files are left out.  The source and the destination of a copy are two
    such nodes, so that neither lies inside the other. *)
#[warnings="-register-all"]
Inductive dirent : Type :=
| EFile (content : string)
| EDirectory (entries : list (string * dirent)).

(** [t[k] = v], at the place of the key when the table has it. *)
Fixpoint setEntry {T} (k : string) (v : T) (t : table T) : table T :=
  match t with
  | [] => [(k, v)]
  | (k', x) :: rest =>
      if String.eqb k k' then (k', v) :: rest else (k', x) :: setEntry k v rest
  end.

(** [fs.mkdirSync(dest, { recursive: true })] on what stands at [dest]:
    the entries of the directory afterwards. *)
Definition mkdirRecursive (dest : option dirent) : outcome (table dirent) :=
  match dest with
  | None => Ret []
  | Some (EDirectory entries) => Ret entries
  | Some (EFile _) => Throw "EEXIST: file already exists, mkdir"
  end.

Section CopyEntries.
Variable copyDir : dirent -> option dirent -> option dirent * outcome unit.

(** The loop of [copyDirSyncNoOverwrite] over the entries of the source,
    on the entries of the destination. *)
Fixpoint copyEntriesNoOverwrite (entries : table dirent) (destEntries : table dirent) :
  table dirent * outcome unit :=
  match entries with
  | [] => (destEntries, Ret tt)
  | (name, node) :: rest =>
      match node with
      | EDirectory _ =>
          let '(copied, result) := copyDir node (lookup name destEntries) in
          let destEntries :=
            match copied with
            | Some d => setEntry name d destEntries
            | None => destEntries
            end in
          match result with
          | Ret _ => copyEntriesNoOverwrite rest destEntries
          | Throw e => (destEntries, Throw e)
          end
      | EFile content =>
          match lookup name destEntries with
          | Some _ => copyEntriesNoOverwrite rest destEntries
          | None => copyEntriesNoOverwrite rest (setEntry name (EFile content) destEntries)
          end
      end
  end.

(** The loop of [copyDirSync]: [copyFileSync] replaces a file and fails on
    a directory. *)
Fixpoint copyEntries (entries : table dirent) (destEntries : table dirent) :
  table dirent * outcome unit :=
  match entries with
  | [] => (destEntries, Ret tt)
  | (name, node) :: rest =>
      match node with
      | EDirectory _ =>
          let '(copied, result) := copyDir node (lookup name destEntries) in
          let destEntries :=
            match copied with
            | Some d => setEntry name d destEntries
            | None => destEntries
            end in
          match result with
          | Ret _ => copyEntries rest destEntries
          | Throw e => (destEntries, Throw e)
          end
      | EFile content =>
          match lookup name destEntries with
          | Some (EDirectory _) =>
              (destEntries, Throw "EISDIR: illegal operation on a directory, copyfile")
          | _ => copyEntries rest (setEntry name (EFile content) destEntries)
          end
      end
  end.

End CopyEntries.

(** [copyDirSyncNoOverwrite(src, dest)]: what stands at [dest] afterwards,
    and how the call ends. *)
Fixpoint copyDirSyncNoOverwrite (src : dirent) (dest : option dirent) :
  option dirent * outcome unit :=
  match mkdirRecursive dest with
  | Throw e => (dest, Throw e)
  | Ret destEntries =>
      match src with
      | EFile _ => (Some (EDirectory destEntries), Throw "ENOTDIR: not a directory, scandir")
      | EDirectory entries =>
          let '(destEntries, result) :=
            copyEntriesNoOverwrite copyDirSyncNoOverwrite entries destEntries in
          (Some (EDirectory destEntries), result)
      end
  end.

(** [copyDirSync(src, dest)] *)
Fixpoint copyDirSync (src : dirent) (dest : option dirent) : option dirent * outcome unit :=
  match mkdirRecursive dest with
  | Throw e => (dest, Throw e)
  | Ret destEntries =>
      match src with
      | EFile _ => (Some (EDirectory destEntries), Throw "ENOTDIR: not a directory, scandir")
      | EDirectory entries =>
          let '(destEntries, result) := copyEntries copyDirSync entries destEntries in
          (Some (EDirectory destEntries), result)
      end
  end.

(** What stands at a relative path below a node. *)
Fixpoint find (p : list string) (t : dirent) : option dirent :=
  match p with
  | [] => Some t
  | name :: rest =>
      match t with
      | EDirectory entries =>
          match lookup name entries with
          | Some t' => find rest t'
          | None => None
          end
      | EFile _ => None
      end
  end.

(** The same below a path that may hold nothing. *)
Definition findAt (p : list string) (dest : option dirent) : option dirent :=
  match dest with Some t => find p t | None => None end.

(** Structural induction on a node and on the nodes below it. *)
Fixpoint dirent_nested_ind (P : dirent -> Prop)
    (Hfile : forall content, P (EFile content))
    (Hdir : forall entries, Forall (fun e => P e.2) entries -> P (EDirectory entries))
    (t : dirent) : P t :=
  match t with
  | EFile content => Hfile content
  | EDirectory entries =>
      Hdir entries
        ((fix all (es : list (string * dirent)) : Forall (fun e => P e.2) es :=
            match es with
            | [] => @List.Forall_nil _ (fun e => P e.2)
            | e :: rest =>
                @List.Forall_cons _ (fun e => P e.2) e rest
                  (dirent_nested_ind P Hfile Hdir e.2) (all rest)
            end) entries)
  end.

(** Nothing that stands below [t] is lost in [t']: a file keeps its
    content and a directory stays a directory. *)
Definition keeps (t t' : dirent) : Prop :=
  forall p,
    match find p t with
    | Some (EFile content) => find p t' = Some (EFile content)
    | Some (EDirectory _) => exists entries, find p t' = Some (EDirectory entries)
    | None => True
    end.

Definition keepsAt (dest dest' : option dirent) : Prop :=
  match dest with
  | Some t => exists t', dest' = Some t' /\ keeps t t'
  | None => True
  end.

Definition keepsEntries (es es' : table dirent) : Prop :=
  forall name t, lookup name es = Some t ->
                 exists t', lookup name es' = Some t' /\ keeps t t'.

(** The source lacks nothing that the copy without overwrite would add to
    [t]: every entry of a directory of the source has its name in the
    directory in its place, and directories stand where the source has
    directories. *)
#[warnings="-register-all"]
Inductive covers : dirent -> dirent -> Prop :=
| covers_file content t : covers (EFile content) t
| covers_directory entries es :
    Forall (fun e => exists t, lookup e.1 es = Some t /\ covers e.2 t) entries ->
    covers (EDirectory entries) (EDirectory es).

(** [entry.isDirectory()] *)
Definition isDirectory (t : dirent) : bool :=
  match t with EDirectory _ => true | EFile _ => false end.

(** No name twice in a list of names. *)
Fixpoint distinct (names : list string) : bool :=
  match names with
  | [] => true
  | name :: rest => negb (includesId name rest) && distinct rest
  end.

(** No directory of the node lists a name twice, as on a disk. *)
Fixpoint wellFormed (t : dirent) : bool :=
  match t with
  | EFile _ => true
  | EDirectory entries =>
      distinct (map fst entries)
      && (fix all (es : list (string * dirent)) : bool :=
            match es with
            | [] => true
            | e :: rest => wellFormed e.2 && all rest
            end) entries
  end.

(** What [copyDirSyncNoOverwrite] adds: a file of the source that had
    nothing in its place stands there afterwards. *)
Definition fills (src : dirent) : Prop :=
  forall dest dest',
    copyDirSyncNoOverwrite src dest = (dest', Ret tt) ->
    forall p content,
      find p src = Some (EFile content) -> findAt p dest = None ->
      findAt p dest' = Some (EFile content).

(** What [copyDirSync] establishes for a source. *)
Definition installs (src : dirent) : Prop :=
  wellFormed src = true ->
  forall dest dest',
    copyDirSync src dest = (dest', Ret tt) ->
    forall p content, find p src = Some (EFile content) ->
                      findAt p dest' = Some (EFile content).

(* ===================================================================== *)
(** * [lib/invoke.ts] with the runtime memory file *)
(* ===================================================================== *)

(** The version of [lib/invoke.ts] that hands the memory block to the
    Claude CLI through a file of the working directory. *)
Module MemoryInvoke.

Definition CLAUDE_MEMORY_FILENAME : string := "MEMORY.md".

(** [getClaudeMemoryFilePath] *)
Definition getClaudeMemoryFilePath (workingDir : string) : string :=
  Path.join [workingDir; ".claude"; CLAUDE_MEMORY_FILENAME].

(** [deleteClaudeMemoryFile] *)
Definition deleteClaudeMemoryFile (memoryFilePath : string) : M unit :=
  present <- Fs.existsSync memoryFilePath ;;
  if present then Fs.unlinkSync memoryFilePath else ret tt.

(** [writeClaudeMemoryFile].  [claudeDir] is [path.dirname(memoryFilePath)],
    which for the path [getClaudeMemoryFilePath] builds is the [.claude]
    directory of the working directory. *)
Definition writeClaudeMemoryFile (workingDir memoryBlock : string) : M unit :=
  let memoryFilePath := getClaudeMemoryFilePath workingDir in
  let claudeDir := Path.join [workingDir; ".claude"] in
  mkdirSync claudeDir ;;;
  let body := JsString.trim memoryBlock in
  let content :=
    JsString.join nl
      ["# Runtime Memory Context";
       EmptyString;
       "Auto-generated for the current invocation. Do not persist manually.";
       EmptyString;
       body;
       EmptyString] in
  Fs.writeFileSync memoryFilePath content.

(** [invokeAgent].  [memoryBlock] is what [buildMemoryBlock] resolved
    to. *)
Definition invokeAgent `{Host} (w : World) (agent : AgentConfig)
    (agentId message workspacePath : string) (shouldReset : bool)
    (memoryBlock : string) : M jsval :=
  let agentDir := Path.join [workspacePath; agentId] in
  present <- Fs.existsSync agentDir ;;
  emit (EEnsureAgentDirectory agentDir) ;;;
  when (negb present)
    (log "INFO" ("Initialized agent directory with config files: " +:+ agentDir)) ;;;
  emit (EUpdateAgentTeammates agentDir agentId) ;;;
  let workingDir :=
    if JsString.isEmpty (agent_working_directory agent) then agentDir
    else if Path.isAbsolute (agent_working_directory agent)
         then agent_working_directory agent
         else Path.join [workspacePath; agent_working_directory agent] in
  let provider := orElse (agent_provider agent) "anthropic" in
  if String.eqb provider "openai" then
    let messageForModel :=
      if JsString.isEmpty memoryBlock then message else message +:+ memoryBlock in
    log "INFO" ("Using Codex CLI (agent: " +:+ agentId +:+ ")") ;;;
    let shouldResume := negb shouldReset in
    when shouldReset (log "INFO" ("🔄 Resetting Codex conversation for agent: " +:+ agentId)) ;;;
    let modelId := resolveCodexModel (agent_model agent) in
    let codexArgs :=
      ["exec"]
        ++ (if shouldResume then ["resume"; "--last"] else [])
        ++ (if JsString.isEmpty modelId then [] else ["--model"; modelId])
        ++ ["--skip-git-repo-check"; "--dangerously-bypass-approvals-and-sandbox";
            "--json"; messageForModel] in
    codexOutput <- runCommand w "codex" codexArgs workingDir ;;
    ret (codexResponse codexOutput)
  else
    log "INFO" ("Using Claude provider (agent: " +:+ agentId +:+ ")") ;;;
    let continueConversation := negb shouldReset in
    when shouldReset (log "INFO" ("🔄 Resetting conversation for agent: " +:+ agentId)) ;;;
    let modelId := resolveClaudeModel (agent_model agent) in
    let claudeArgs :=
      ["--dangerously-skip-permissions"]
        ++ (if JsString.isEmpty modelId then [] else ["--model"; modelId])
        ++ (if continueConversation then ["-c"] else [])
        ++ ["-p"; message] in
    let memoryFilePath := getClaudeMemoryFilePath workingDir in
    deleteClaudeMemoryFile memoryFilePath ;;;
    tryFinally
      (when (negb (JsString.isEmpty memoryBlock))
         (writeClaudeMemoryFile workingDir memoryBlock ;;;
          log "INFO" ("Memory source injection for @" +:+ agentId +:+ ": .claude/"
                        +:+ CLAUDE_MEMORY_FILENAME)) ;;;
       stdout <- runCommand w "claude" claudeArgs workingDir ;;
       ret (VStr stdout))
      (deleteClaudeMemoryFile memoryFilePath).

(** The path of the memory file of a call. *)
Definition memoryFileOf (agent : AgentConfig) (agentId workspacePath : string) : string :=
  getClaudeMemoryFilePath (workingDirOf agent agentId workspacePath).

(** The text [writeClaudeMemoryFile] writes for a block. *)
Definition memoryText (memoryBlock : string) : string :=
  "# Runtime Memory Context" +:+ nl +:+ nl
    +:+ "Auto-generated for the current invocation. Do not persist manually." +:+ nl +:+ nl
    +:+ JsString.trim memoryBlock +:+ nl.

End MemoryInvoke.

(* ===================================================================== *)
(** * [tinyoffice]: the event stream of the dashboard *)
(* ===================================================================== *)

(** [subscribeToEvents] of [lib/api.ts] as a machine: the variables of its
    closure, what the browser delivers to it, and what it does to the
    outside. *)
Module Sse.

Record State : Type := {
  closed : bool;
  (** [reconnectTimer] holds a timer *)
  reconnectTimer : bool;
  reconnectDelay : Z;
  (** the [visibilitychange] listener is registered *)
  listening : bool
}.

(** What the browser delivers. *)
Inductive input : Type :=
| Open
| Message (data : string)
| Error
| TimerFires
| VisibilityChange (visible readyStateClosed : bool)
| Unsubscribe.

(** What the code does to the outside. *)
Inductive action : Type :=
| NewEventSource
| Close
| SetTimeout (ms : Z)
| ClearTimeout
| OnEvent (event : jsval)
| OnError.

(** [connect()]: the state is untouched, [es] being always set after the
    first connection. *)
Definition connect (s : State) : list action :=
  if closed s then [] else [NewEventSource].

(** The state and the actions of [subscribeToEvents] up to its return. *)
Definition subscribed : State * list action :=
  let s := {| closed := false; reconnectTimer := false; reconnectDelay := 1000;
              listening := true |} in
  (s, connect s).

(** One delivery.  [onError] tells whether the caller passed the second
    callback. *)
Definition step `{Host} (onError : bool) (s : State) (i : input) : State * list action :=
  match i with
  | Open =>
      ({| closed := closed s; reconnectTimer := reconnectTimer s; reconnectDelay := 1000;
          listening := listening s |}, [])
  | Message data =>
      (s, match JSON_parse data with
          | Ret event => [OnEvent event]
          | Throw _ => []
          end)
  | Error =>
      let reported := if onError then [OnError] else [] in
      if closed s then (s, reported)
      else ({| closed := closed s; reconnectTimer := true;
               reconnectDelay := reconnectDelay s; listening := listening s |},
            reported ++ [Close; SetTimeout (reconnectDelay s)])
  | TimerFires =>
      let s' := {| closed := closed s; reconnectTimer := reconnectTimer s;
                   reconnectDelay := Z.min (reconnectDelay s * 2) 10000;
                   listening := listening s |} in
      (s', connect s')
  | VisibilityChange visible readyStateClosed =>
      if listening s && visible && readyStateClosed && negb (closed s) then
        let s' := {| closed := closed s; reconnectTimer := reconnectTimer s;
                     reconnectDelay := 1000; listening := listening s |} in
        (s', connect s')
      else (s, [])
  | Unsubscribe =>
      ({| closed := true; reconnectTimer := reconnectTimer s;
          reconnectDelay := reconnectDelay s; listening := false |},
       [Close] ++ (if reconnectTimer s then [ClearTimeout] else []))
  end.

(** The deliveries of a session, in order. *)
Fixpoint run `{Host} (onError : bool) (s : State) (inputs : list input) :
  State * list action :=
  match inputs with
  | [] => (s, [])
  | i :: rest =>
      let '(s1, a1) := step onError s i in
      let '(s2, a2) := run onError s1 rest in
      (s2, a1 ++ a2)
  end.

(** Does the action open a connection or arm a timer? *)
Definition reconnects (a : action) : bool :=
  match a with NewEventSource | SetTimeout _ => true | _ => false end.

(** The delays of the timers armed. *)
Definition delaysOf (actions : list action) : list Z :=
  omap (fun a => match a with SetTimeout ms => Some ms | _ => None end) actions.

(** A connection that fails [n] times in a row, the timer firing after
    each failure. *)
Fixpoint failures (n : nat) : list input :=
  match n with
  | O => []
  | S n' => Error :: TimerFires :: failures n'
  end.

(** The wait before the reconnection that follows failure number [k],
    counted from zero. *)
Definition backoff (k : nat) : Z := Z.min (1000 * 2 ^ Z.of_nat k) 10000.

End Sse.

(** [useSSE] of [lib/hooks.ts]: the function it passes to [setEvents].
    [maxEvents] is a count. *)
Definition pushEvent {A} (maxEvents : nat) (prev : list A) (event : A) : list A :=
  let next := event :: prev in
  if (maxEvents <? length next)%nat then take maxEvents next else next.

(** The state of [useSSE] after the actions of the subscription of one
    mount: the buffer and the [connected] flag, which the effect sets
    before it subscribes. *)
Definition useSSE (maxEvents : nat) (actions : list Sse.action) : list jsval * bool :=
  fold_left
    (fun '(events, connected) a =>
       match a with
       | Sse.OnEvent event => (pushEvent maxEvents events event, connected)
       | Sse.OnError => (events, false)
       | _ => (events, connected)
       end)
    actions ([], true).

(** The events handed to the first callback, in order. *)
Definition eventsOf (actions : list Sse.action) : list jsval :=
  omap (fun a => match a with Sse.OnEvent event => Some event | _ => None end) actions.

(** Was the second callback called? *)
Definition reportsError (actions : list Sse.action) : bool :=
  existsb (fun a => match a with Sse.OnError => true | _ => false end) actions.

(** A time in milliseconds of magnitude at most 2^52: the difference of two
    such times is an integer that a double holds exactly. *)
Definition safeTimestamp (t : Z) : bool :=
  (- 4503599627370496 <=? t) && (t <=? 4503599627370496).

(** [timeAgo] of [lib/hooks.ts], for a [ts] that is a whole number of
    milliseconds; [now] is [Date.now()].  The doubles of the source
    subtract, divide, round down and print like the integers here as long
    as both times are safe timestamps; outside of them the source rounds
    and prints in exponent notation. *)
Definition timeAgo (now ts : Z) : string :=
  let diff := now - ts in
  if diff <? 60000 then "just now"
  else if diff <? 3600000 then JsString.ofZ (diff / 60000) +:+ "m ago"
  else if diff <? 86400000 then JsString.ofZ (diff / 3600000) +:+ "h ago"
  else JsString.ofZ (diff / 86400000) +:+ "d ago".

(* ===================================================================== *)
(** * Proof automation *)
(* ===================================================================== *)

(** Unfold the operations of the monad, to run a computation by hand. *)
Ltac unfold_monad :=
  unfold bind, tryCatch, tryFinally, lift, ret, throw, log, emit, modifyFs, when.

(** Run a subprocess branch of [invokeAgent] on a child that exits with
    code 0: [Hp] gives the provider tag, [Hc] the child's result. *)
Ltac run_subprocess Hp Hc :=
  unfold invokeAgent; rewrite Hp;
  unfold runCommand, Fs.existsSync; unfold_monad;
  rewrite Hc; cbn;
  repeat match goal with
         | |- context [match ?fs !! ?p with _ => _ end] => destruct (fs !! p)
         | |- context [if ?b then _ else _] => is_var b; destruct b
         end;
  cbn; eexists; reflexivity.

(** Traces without control effects. *)
Create HintDb control.
#[local] Hint Resolve Forall_nil Forall_cons Forall_app_2 eq_refl : control.

(* ===================================================================== *)
(** * Properties of the subprocess variants *)
(* ===================================================================== *)

Section SubprocessOutput.
Context `{Host}.

Lemma isStr_getOpt_object (v : jsval) (k s : string) :
  Js.isStr (Js.getOpt v k) s = true -> exists fields, v = VObj fields.
Proof. destruct v; simpl; try discriminate. eauto. Qed.

(** A turn of the Codex loop takes the text of a matching line and leaves
    the response alone on any other line. *)
Lemma codexStep_match (response : jsval) (line : string) :
  codexStep response line = default response (codexMatch line).
Proof.
  unfold codexStep, codexTry, codexMatch.
  destruct (JSON_parse line) as [json|e]; [|reflexivity].
  destruct (Js.get json "type") as [ty|] eqn:Hty.
  - assert (Js.getOpt json "type" = ty) as -> by (unfold Js.getOpt; now rewrite Hty).
    destruct (Js.isStr ty "item.completed"
              && Js.isStr (Js.getOpt (Js.getOpt json "item") "type") "agent_message")
      eqn:Hc; [|reflexivity].
    apply andb_prop in Hc as [_ Hitem].
    apply isStr_getOpt_object in Hitem as [fields ->].
    reflexivity.
  - destruct json; try discriminate; reflexivity.
Qed.

Lemma fold_codexStep (lines : list string) (response : jsval) :
  fold_left codexStep lines response = default response (last (omap codexMatch lines)).
Proof.
  revert response. induction lines as [|line lines IH]; intros response; [reflexivity|].
  cbn [fold_left]. rewrite IH, codexStep_match. cbn [omap list_omap].
  destruct (codexMatch line) as [t|]; [|reflexivity].
  rewrite last_cons. cbn [default]. now destruct (last (omap codexMatch lines)).
Qed.

Lemma codexResponse_last_match (output : string) :
  codexResponse output
  = orFallback (last (omap codexMatch (outputLines output))) codexFallback.
Proof.
  unfold codexResponse, outputLines. rewrite fold_codexStep.
  destruct (last _) as [t|]; reflexivity.
Qed.

(** A turn of the OpenCode loop takes the text of a text event only when
    that text is truthy. *)
Lemma opencodeStep_match (response : jsval) (line : string) :
  opencodeStep response line
  = match opencodeMatch line with
    | Some t => if Js.truthy t then t else response
    | None => response
    end.
Proof.
  unfold opencodeStep, opencodeTry, opencodeMatch.
  destruct (JSON_parse line) as [json|e]; [|reflexivity].
  destruct (Js.get json "type") as [ty|] eqn:Hty.
  - assert (Js.getOpt json "type" = ty) as -> by (unfold Js.getOpt; now rewrite Hty).
    destruct (Js.isStr ty "text"); [|reflexivity]. cbn [andb].
    destruct (Js.truthy (Js.getOpt (Js.getOpt json "part") "text")) eqn:Ht; [|reflexivity].
    destruct (Js.getOpt json "part") eqn:Hpart; try discriminate. reflexivity.
  - destruct json; try discriminate; reflexivity.
Qed.

Lemma fold_opencodeStep (lines : list string) (response : jsval) :
  fold_left opencodeStep lines response
  = default response
      (last (filter (fun t => Js.truthy t = true) (omap opencodeMatch lines))).
Proof.
  revert response. induction lines as [|line lines IH]; intros response; [reflexivity|].
  cbn [fold_left]. rewrite IH, opencodeStep_match. cbn [omap list_omap].
  destruct (opencodeMatch line) as [t|]; [|reflexivity].
  rewrite filter_cons. destruct (decide (Js.truthy t = true)) as [Ht|Ht].
  - rewrite Ht, last_cons. now destruct (last _).
  - apply not_true_is_false in Ht. now rewrite Ht.
Qed.

Lemma opencodeResponse_last_truthy (output : string) :
  opencodeResponse output
  = default (VStr opencodeFallback)
      (last (filter (fun t => Js.truthy t = true)
               (omap opencodeMatch (outputLines output)))).
Proof.
  unfold opencodeResponse, outputLines. rewrite fold_opencodeStep.
  destruct (last _) as [t|] eqn:Hlast; cbn [default]; [|reflexivity].
  apply last_Some_elem_of, list_elem_of_filter in Hlast as [Ht _].
  unfold Js.or, id. now rewrite Ht.
Qed.

(** Run on a child process that exits with code 0, the Codex branch
    returns what the loop makes of its standard output. *)
Lemma invokeAgent_openai (w : World) (agent : AgentConfig)
    (agentId message workspacePath : string) (shouldReset : bool)
    (agents : table AgentConfig) (teams : table TeamConfig) (fs : filesystem)
    (stdout stderr : string) :
  agent_provider agent = "openai" ->
  w_child w = Closed (Some 0) stdout stderr ->
  exists tr,
    invokeAgent w agent agentId message workspacePath shouldReset agents teams fs
    = (w_childWrites w fs, tr, Ret (Plain (codexResponse stdout))).
Proof.
  intros Hp Hc. run_subprocess Hp Hc.
Qed.

Lemma invokeAgent_opencode (w : World) (agent : AgentConfig)
    (agentId message workspacePath : string) (shouldReset : bool)
    (agents : table AgentConfig) (teams : table TeamConfig) (fs : filesystem)
    (stdout stderr : string) :
  agent_provider agent = "opencode" ->
  w_child w = Closed (Some 0) stdout stderr ->
  exists tr,
    invokeAgent w agent agentId message workspacePath shouldReset agents teams fs
    = (w_childWrites w fs, tr, Ret (Plain (opencodeResponse stdout))).
Proof.
  intros Hp Hc. run_subprocess Hp Hc.
Qed.

Lemma orFallback_truthy (v : option jsval) (fallback : string) :
  fallback <> EmptyString -> Js.truthy (orFallback v fallback) = true.
Proof.
  intros Hf. unfold orFallback.
  destruct v as [t|]; [destruct (Js.truthy t) eqn:Ht; [exact Ht|]|];
    now destruct fallback.
Qed.

Lemma truthy_not_empty (v : jsval) : Js.truthy v = true -> v <> VStr EmptyString.
Proof. now intros Hv ->. Qed.

End SubprocessOutput.

(** C4, as the code has it: in the exec-subprocess (Codex) variant a line
    that does not parse leaves the response as it was and nothing fails;
    the call returns the [text] of the last line matching
    [{type: item.completed, item.type: agent_message}] when that text is
    truthy (a non-empty string), and the fixed fallback notice when no line
    matches or when the last match carries an empty or missing text. *)
Theorem codex_returns_last_truthy_match_or_fallback `{Host}
    (w : World) (agent : AgentConfig) (agentId message workspacePath : string)
    (shouldReset : bool) (agents : table AgentConfig) (teams : table TeamConfig)
    (fs : filesystem) (stdout stderr : string) :
  agent_provider agent = "openai" ->
  w_child w = Closed (Some 0) stdout stderr ->
  (forall response line e, JSON_parse line = Throw e -> codexStep response line = response)
  /\ exists tr,
       invokeAgent w agent agentId message workspacePath shouldReset agents teams fs
       = (w_childWrites w fs, tr,
          Ret (Plain (orFallback (last (omap codexMatch (outputLines stdout)))
                        codexFallback))).
Proof.
  intros Hp Hc. split.
  - intros response line e He. unfold codexStep, codexTry. now rewrite He.
  - destruct (invokeAgent_openai w agent agentId message workspacePath shouldReset
                agents teams fs stdout stderr Hp Hc) as [tr Htr].
    exists tr. now rewrite Htr, codexResponse_last_match.
Qed.

(** C4, witness: a garbage line between two completions; the text of the
    last completion is returned. *)
Lemma codex_returns_last_truthy_match_or_fallback_witness :
  let stdout := dq "{'type':'item.completed','item':{'type':'agent_message','text':'one'}}"
                  +:+ nl +:+ "not json" +:+ nl
                  +:+ dq "{'type':'item.completed','item':{'type':'agent_message','text':'two'}}" in
  outcomeOf (invokeAgent (H := jsonHost) (worldOf (Closed (Some 0) stdout EmptyString) [])
               (agentOf "openai" false) "agent-b" "hi" "/ws" false [] []) ∅
  = Ret (Plain (VStr "two")).
Proof.
  intros stdout.
  destruct (codex_returns_last_truthy_match_or_fallback (H := jsonHost)
              (worldOf (Closed (Some 0) stdout EmptyString) [])
              (agentOf "openai" false) "agent-b" "hi" "/ws" false [] [] ∅
              stdout EmptyString eq_refl eq_refl) as [_ [tr Htr]].
  unfold outcomeOf. rewrite Htr. vm_compute. reflexivity.
Defined.

(** C4, counterexample: the only line is an agent_message completion with
    an empty text.  The text of the last matching line is the empty
    string, yet the call returns the fallback notice. *)
Lemma codex_empty_text_returns_fallback :
  last (omap (codexMatch (H := jsonHost)) (outputLines codexEmptyText))
  = Some (VStr EmptyString)
  /\ outcomeOf (invokeAgent (H := jsonHost)
                  (worldOf (Closed (Some 0) codexEmptyText EmptyString) [])
                  (agentOf "openai" false) "agent-b" "hi" "/ws" false [] []) ∅
     = Ret (Plain (VStr codexFallback))
  /\ VStr codexFallback <> VStr EmptyString.
Proof. vm_compute. repeat split; try reflexivity. discriminate. Qed.

(** C10, as the code has it: neither subprocess variant returns the empty
    string.  The Codex variant returns the fallback notice when no line
    matches or the last match has an empty or missing text.  The OpenCode
    variant passes over text events whose text is empty or missing: it
    returns the text of the last text event with a truthy text, and the
    fallback notice only when there is none. *)
Theorem subprocess_response_never_empty `{Host}
    (w : World) (agent : AgentConfig) (agentId message workspacePath : string)
    (shouldReset : bool) (agents : table AgentConfig) (teams : table TeamConfig)
    (fs : filesystem) (stdout stderr : string) :
  w_child w = Closed (Some 0) stdout stderr ->
  (agent_provider agent = "openai" ->
   exists tr v,
     invokeAgent w agent agentId message workspacePath shouldReset agents teams fs
     = (w_childWrites w fs, tr, Ret (Plain v))
     /\ v <> VStr EmptyString
     /\ (forall t, last (omap codexMatch (outputLines stdout)) = Some t ->
         Js.truthy t = false -> v = VStr codexFallback)
     /\ (omap codexMatch (outputLines stdout) = [] -> v = VStr codexFallback))
  /\ (agent_provider agent = "opencode" ->
      exists tr v,
        invokeAgent w agent agentId message workspacePath shouldReset agents teams fs
        = (w_childWrites w fs, tr, Ret (Plain v))
        /\ v <> VStr EmptyString
        /\ v = default (VStr opencodeFallback)
                 (last (filter (fun t => Js.truthy t = true)
                          (omap opencodeMatch (outputLines stdout))))).
Proof.
  intros Hc. split; intros Hp.
  - destruct (invokeAgent_openai w agent agentId message workspacePath shouldReset
                agents teams fs stdout stderr Hp Hc) as [tr Htr].
    exists tr, (codexResponse stdout). split; [exact Htr|].
    rewrite codexResponse_last_match. split; [|split].
    + apply truthy_not_empty, orFallback_truthy. discriminate.
    + intros t -> Ht. unfold orFallback. now rewrite Ht.
    + now intros ->.
  - destruct (invokeAgent_opencode w agent agentId message workspacePath shouldReset
                agents teams fs stdout stderr Hp Hc) as [tr Htr].
    exists tr, (opencodeResponse stdout). split; [exact Htr|].
    rewrite opencodeResponse_last_truthy. split; [|reflexivity].
    apply truthy_not_empty.
    destruct (last _) as [t|] eqn:Hlast; [|reflexivity].
    now apply last_Some_elem_of, list_elem_of_filter in Hlast as [Ht _].
Qed.

(** C10, witness: the OpenCode variant on two text events, the second
    with an empty text, returns the text of the first. *)
Lemma subprocess_response_never_empty_witness :
  outcomeOf (invokeAgent (H := jsonHost)
               (worldOf (Closed (Some 0) opencodeHelloThenEmpty EmptyString) [])
               (agentOf "opencode" false) "agent-b" "hi" "/ws" false [] []) ∅
  = Ret (Plain (VStr "hello")).
Proof.
  destruct (subprocess_response_never_empty (H := jsonHost)
              (worldOf (Closed (Some 0) opencodeHelloThenEmpty EmptyString) [])
              (agentOf "opencode" false) "agent-b" "hi" "/ws" false [] [] ∅
              opencodeHelloThenEmpty EmptyString eq_refl) as [_ Hopencode].
  destruct (Hopencode eq_refl) as (tr & v & Hrun & _ & Hv).
  unfold outcomeOf. rewrite Hrun, Hv. vm_compute. reflexivity.
Defined.

(** C10, counterexample: in the OpenCode variant the last text event
    carries an empty text, and the call returns the earlier event's text
    instead of the fallback notice. *)
Lemma opencode_empty_last_text_keeps_earlier :
  last (omap (opencodeMatch (H := jsonHost)) (outputLines opencodeHelloThenEmpty))
  = Some (VStr EmptyString)
  /\ outcomeOf (invokeAgent (H := jsonHost)
                  (worldOf (Closed (Some 0) opencodeHelloThenEmpty EmptyString) [])
                  (agentOf "opencode" false) "agent-b" "hi" "/ws" false [] []) ∅
     = Ret (Plain (VStr "hello"))
  /\ VStr "hello" <> VStr opencodeFallback.
Proof. vm_compute. repeat split; try reflexivity. discriminate. Qed.

(* ===================================================================== *)
(** * Properties of the observer state loaders *)
(* ===================================================================== *)

Section LoadState.
Context `{Host}.

Lemma loadObserverState_missing (agentId workspacePath : string) (fs : filesystem) :
  fs !! observerStateFile agentId workspacePath = None ->
  loadObserverState agentId workspacePath fs = (fs, [], Ret VNull).
Proof.
  intros Hfs. unfold loadObserverState, Fs.existsSync. unfold_monad.
  fold (observerStateFile agentId workspacePath). now rewrite Hfs.
Qed.

Lemma loadObserverState_parsed (agentId workspacePath : string) (fs : filesystem)
    (raw : string) (data : jsval) :
  fs !! observerStateFile agentId workspacePath = Some (File raw) ->
  JSON_parse raw = Ret data ->
  loadObserverState agentId workspacePath fs = (fs, [], Ret data).
Proof.
  intros Hfs Hparse.
  unfold loadObserverState, Fs.existsSync, Fs.readFileSync. unfold_monad.
  fold (observerStateFile agentId workspacePath). rewrite Hfs. cbn. rewrite Hfs. cbn. now rewrite Hparse.
Qed.

Lemma loadObserverState_malformed (agentId workspacePath : string) (fs : filesystem)
    (raw e : string) :
  fs !! observerStateFile agentId workspacePath = Some (File raw) ->
  JSON_parse raw = Throw e ->
  loadObserverState agentId workspacePath fs
  = (fs, [ELog "WARN" ("Failed to read observer state for " +:+ agentId +:+ ": " +:+ e)],
     Ret VNull).
Proof.
  intros Hfs Hparse.
  unfold loadObserverState, Fs.existsSync, Fs.readFileSync. unfold_monad.
  fold (observerStateFile agentId workspacePath). rewrite Hfs. cbn. rewrite Hfs. cbn. now rewrite Hparse.
Qed.

(** Whatever the file system holds, the load returns, leaves the file
    system as it was and logs nothing but warnings. *)
Lemma loadObserverState_returns (agentId workspacePath : string) (fs : filesystem) :
  exists v tr,
    loadObserverState agentId workspacePath fs = (fs, tr, Ret v)
    /\ Forall (fun e => exists m, e = ELog "WARN" m) tr.
Proof.
  unfold loadObserverState, Fs.existsSync, Fs.readFileSync. unfold_monad.
  destruct (fs !! _) as [[raw|]|] eqn:Hfs; cbn; rewrite ?Hfs; cbn.
  - destruct (JSON_parse raw) as [data|e]; cbn;
      (do 2 eexists; split; [reflexivity|repeat constructor; eauto]).
  - do 2 eexists; split; [reflexivity|repeat constructor; eauto].
  - do 2 eexists; split; [reflexivity|constructor].
Qed.

End LoadState.

(** C7: for every agent id and workspace root, [loadObserverState] never
    raises.  When the state file does not exist it returns [null] and
    logs nothing; when the file exists and its content is malformed it
    logs one warning and returns [null]; in every case the call
    returns. *)
Theorem loadObserverState_never_raises `{Host}
    (agentId workspacePath : string) (fs : filesystem) :
  (exists v tr, loadObserverState agentId workspacePath fs = (fs, tr, Ret v))
  /\ (fs !! observerStateFile agentId workspacePath = None ->
      loadObserverState agentId workspacePath fs = (fs, [], Ret VNull))
  /\ (forall raw e,
        fs !! observerStateFile agentId workspacePath = Some (File raw) ->
        JSON_parse raw = Throw e ->
        loadObserverState agentId workspacePath fs
        = (fs, [ELog "WARN" ("Failed to read observer state for " +:+ agentId
                               +:+ ": " +:+ e)],
           Ret VNull)).
Proof.
  split; [|split].
  - destruct (loadObserverState_returns agentId workspacePath fs) as (v & tr & Hrun & _).
    eauto.
  - apply loadObserverState_missing.
  - intros raw e. apply loadObserverState_malformed.
Qed.

(** C7, witness: a state file cut short is reported by a warning and
    loads as [null]; without the file the load is [null] as well. *)
Lemma loadObserverState_never_raises_witness :
  loadObserverState (H := jsonHost) "agent-b" "/ws"
    (oneFile "/ws/agent-b/.switchboard/agent-b/observer_state.json" "{")
  = (oneFile "/ws/agent-b/.switchboard/agent-b/observer_state.json" "{",
     [ELog "WARN" "Failed to read observer state for agent-b: Unexpected token in JSON"],
     Ret VNull)
  /\ loadObserverState (H := jsonHost) "agent-b" "/ws" ∅ = (∅, [], Ret VNull).
Proof.
  destruct (loadObserverState_never_raises (H := jsonHost) "agent-b" "/ws"
              (oneFile "/ws/agent-b/.switchboard/agent-b/observer_state.json" "{"))
    as (_ & _ & Hmalformed).
  destruct (loadObserverState_never_raises (H := jsonHost) "agent-b" "/ws" ∅)
    as (_ & Hmissing & _).
  split.
  - apply (Hmalformed "{" "Unexpected token in JSON"); vm_compute; reflexivity.
  - apply Hmissing. vm_compute. reflexivity.
Defined.

(** C9, as the code has it: a successful load hands over the parsed value
    unchanged.  [loadObserverState] and [readObserverState] return exactly
    what [JSON.parse] made of the file, without defaulting any field; the
    state with every field present and defaulted is what
    [readObserverState] returns when the file cannot be read or parsed. *)
Theorem loaded_state_is_the_parsed_value `{Host}
    (agentId workspacePath agentDir : string) (fs : filesystem) :
  (forall raw data,
     fs !! observerStateFile agentId workspacePath = Some (File raw) ->
     JSON_parse raw = Ret data ->
     loadObserverState agentId workspacePath fs = (fs, [], Ret data))
  /\ (forall raw data,
        fs !! routeStateFile agentDir = Some (File raw) ->
        JSON_parse raw = Ret data ->
        readObserverState agentDir fs = (fs, [], Ret data))
  /\ ((forall raw, fs !! routeStateFile agentDir = Some (File raw) ->
                   isRet (JSON_parse raw) = false) ->
      readObserverState agentDir fs = (fs, [], Ret defaultObserverState))
  /\ observerStateComplete defaultObserverState = true.
Proof.
  split; [|split; [|split]].
  - intros raw data. apply loadObserverState_parsed.
  - intros raw data Hfs Hparse.
    unfold readObserverState, bind, tryCatch, Fs.readFileSync, lift.
    fold (routeStateFile agentDir). rewrite Hfs. cbn. now rewrite Hparse.
  - intros Hbad.
    unfold readObserverState, bind, tryCatch, Fs.readFileSync, lift, ret.
    fold (routeStateFile agentDir).
    destruct (fs !! routeStateFile agentDir) as [[raw|]|] eqn:Hfs; try reflexivity.
    specialize (Hbad raw eq_refl). now destruct (JSON_parse raw).
  - reflexivity.
Qed.

(** C9, witness: a state file holding [{"current_task": 7}] loads as
    that object. *)
Lemma loaded_state_is_the_parsed_value_witness :
  loadObserverState (H := jsonHost) "agent-b" "/ws"
    (oneFile "/ws/agent-b/.switchboard/agent-b/observer_state.json"
       (dq "{'current_task': 7}"))
  = (oneFile "/ws/agent-b/.switchboard/agent-b/observer_state.json"
       (dq "{'current_task': 7}"),
     [], Ret (VObj [("current_task", VNum 7)])).
Proof.
  destruct (loaded_state_is_the_parsed_value (H := jsonHost) "agent-b" "/ws" "/ws/agent-b"
              (oneFile "/ws/agent-b/.switchboard/agent-b/observer_state.json"
                 (dq "{'current_task': 7}"))) as (Hload & _).
  apply (Hload (dq "{'current_task': 7}")); vm_compute; reflexivity.
Defined.

(** C9, counterexample: the state file holds an object with
    [observations_text] only.  Both loaders succeed and return it as it
    is: the other fields are absent, none is defaulted, and since the
    observation text is truthy [invokeAgent] hands this state to the
    formatter. *)
Lemma partial_state_loads_without_defaults :
  let raw := dq "{'observations_text': 'x'}" in
  let state := VObj [("observations_text", VStr "x")] in
  outcomeOf (loadObserverState (H := jsonHost) "agent-b" "/ws")
    (oneFile "/ws/agent-b/.switchboard/agent-b/observer_state.json" raw)
  = Ret state
  /\ outcomeOf (readObserverState (H := jsonHost) "/ws/agent-b")
       (oneFile "/ws/agent-b/.switchboard/observer_state.json" raw)
     = Ret state
  /\ observerStateComplete state = false
  /\ Js.getOpt state "current_task" = VUndefined
  /\ Js.getOpt state "total_tokens_observed" = VUndefined
  /\ Js.truthy (Js.getOpt state "observations_text") = true.
Proof. vm_compute. repeat split; reflexivity. Qed.

(* ===================================================================== *)
(** * Properties of [runObserver] *)
(* ===================================================================== *)

Section RunObserver.
Context `{Host}.


Lemma observerHook_outcome (w : World) (agentId tmpFile agentDir provider : string)
    (tokenThreshold reflectionThreshold : Z) (observerSrc observerPython : string)
    (fs : filesystem) :
  exists fs' tr,
    observerHook w agentId tmpFile agentDir provider tokenThreshold reflectionThreshold
      observerSrc observerPython fs
    = (fs', tr, hookOutcome w).
Proof.
  unfold observerHook, hookOutcome, bind, log, emit, ret, throw, modifyFs.
  destruct (JsString.isEmpty _); cbn;
    destruct (w_child w) as [e|[[|c|c]|] out err]; cbn; eauto.
Qed.


End RunObserver.




(* ===================================================================== *)
(** * Properties of the stale team reference filter *)
(* ===================================================================== *)

Section SplitJoin.
Variable sep : ascii.

Lemma split_not_nil (s : string) : JsString.split sep s <> [].
Proof.
  destruct s as [|a s]; cbn; [discriminate|].
  destruct (Ascii.eqb a sep); [discriminate|].
  destruct (JsString.split sep s); discriminate.
Qed.

Lemma split_parts_without_sep (s : string) :
  Forall (fun part => hasChar sep part = false) (JsString.split sep s).
Proof.
  induction s as [|a s IH]; cbn.
  - repeat constructor.
  - destruct (Ascii.eqb a sep) eqn:Ha.
    + constructor; [reflexivity|exact IH].
    + destruct (JsString.split sep s) as [|h t].
      * repeat constructor. cbn. now rewrite Ha.
      * inversion IH as [|? ? Hh Ht]; subst.
        constructor; [cbn; now rewrite Ha|exact Ht].
Qed.

Lemma split_without_sep (a : string) :
  hasChar sep a = false -> JsString.split sep a = [a].
Proof.
  induction a as [|x a IH]; cbn; [reflexivity|].
  intros Hx. apply orb_false_elim in Hx as [Hx Ha].
  now rewrite Hx, (IH Ha).
Qed.

Lemma split_app_sep (a b : string) :
  hasChar sep a = false ->
  JsString.split sep (a +:+ String sep b) = a :: JsString.split sep b.
Proof.
  induction a as [|x a IH]; intros Ha.
  - change (EmptyString +:+ String sep b) with (String sep b).
    cbn. now rewrite Ascii.eqb_refl.
  - change (String x a +:+ String sep b) with (String x (a +:+ String sep b)).
    cbn in Ha. apply orb_false_elim in Ha as [Hx Ha].
    cbn. now rewrite Hx, (IH Ha).
Qed.

Lemma split_join (parts : list string) :
  parts <> [] ->
  Forall (fun part => hasChar sep part = false) parts ->
  JsString.split sep (JsString.join (String sep EmptyString) parts) = parts.
Proof.
  induction parts as [|a parts IH]; intros Hne Hall; [contradiction|].
  inversion Hall as [|? ? Ha Hrest]; subst.
  destruct parts as [|b parts].
  - cbn. now apply split_without_sep.
  - change (JsString.join (String sep EmptyString) (a :: b :: parts))
      with (a +:+ String sep (JsString.join (String sep EmptyString) (b :: parts))).
    rewrite (split_app_sep _ _ Ha). f_equal. now apply IH.
Qed.

End SplitJoin.

Lemma filter_all_kept {A} (P : A -> Prop) `{forall x, Decision (P x)} (l : list A) :
  Forall P l -> filter P l = l.
Proof.
  induction 1 as [|x l Hx Hl IH]; [reflexivity|].
  rewrite filter_cons. destruct (decide (P x)); [now rewrite IH|contradiction].
Qed.

Lemma filter_kept_twice {A} (P : A -> Prop) `{forall x, Decision (P x)} (l : list A) :
  filter P (filter P l) = filter P l.
Proof. apply filter_all_kept, Forall_forall. intros x Hx. now apply list_elem_of_filter in Hx. Qed.

(** The lines the filter keeps have no line break inside. *)
Lemma kept_lines_without_break (text : string) :
  Forall (fun part => hasChar "010"%char part = false)
    (filter (fun line => Stale.isTeamStructureLine line = false) (linesOf text)).
Proof.
  apply Forall_forall. intros line Hline.
  apply list_elem_of_filter in Hline as [_ Hline].
  pose proof (split_parts_without_sep "010"%char text) as Hall.
  rewrite Forall_forall in Hall. now apply Hall.
Qed.

(** The filter neither drops nor alters a line that asserts no team
    structure: the lines of the filtered text are the kept lines of the
    text, in their order and unchanged (when no line is kept the filtered
    text is empty). *)
Lemma filterStaleTeamReferences_lines (text : string) :
  filter (fun line => Stale.isTeamStructureLine line = false) (linesOf text) <> [] ->
  linesOf (filterStaleTeamReferences text)
  = filter (fun line => Stale.isTeamStructureLine line = false) (linesOf text).
Proof.
  intros Hne. unfold filterStaleTeamReferences, linesOf at 1.
  apply split_join; [exact Hne|apply kept_lines_without_break].
Qed.

(** The filter is idempotent. *)
Lemma filterStaleTeamReferences_idempotent (text : string) :
  filterStaleTeamReferences (filterStaleTeamReferences text)
  = filterStaleTeamReferences text.
Proof.
  destruct (filter (fun line => Stale.isTeamStructureLine line = false) (linesOf text))
    as [|l ls] eqn:Hkept.
  - assert (filterStaleTeamReferences text = EmptyString) as ->; [|reflexivity].
    unfold filterStaleTeamReferences. fold (linesOf text). now rewrite Hkept.
  - unfold filterStaleTeamReferences at 1. fold (linesOf (filterStaleTeamReferences text)).
    rewrite filterStaleTeamReferences_lines by (rewrite Hkept; discriminate).
    rewrite filter_kept_twice. reflexivity.
Qed.


Lemma filterStaleTeamReferences_all_dropped (text : string) :
  filter (fun line => Stale.isTeamStructureLine line = false) (linesOf text) = [] ->
  filterStaleTeamReferences text = EmptyString.
Proof.
  intros Hkept. unfold filterStaleTeamReferences. fold (linesOf text). now rewrite Hkept.
Qed.

(** C6: [filterStaleTeamReferences] is idempotent and keeps every line
    without a team-structure pattern, but the [formatObservationsPrompt] of
    the tree does not apply it before it wraps the observation text.  On
    the state of [testFormatObservationsFiltersTeamReferences] the
    formatted block still holds the roster line that the test requires to
    be gone, and that the filter removes. *)
Theorem formatObservationsPrompt_keeps_stale_roster_line :
  exists prompt,
    formatObservationsPrompt staleState = Ret prompt
    /\ JsString.includes "Your team includes" prompt = true
    /\ JsString.includes ("<observations>" +:+ staleObservations +:+ "</observations>")
         prompt = true
    /\ JsString.includes "Your team includes"
         (filterStaleTeamReferences staleObservations) = false
    /\ linesOf (filterStaleTeamReferences staleObservations)
       = ["* HIGH (10:00) User prefers Python"; "* HIGH (10:10) Project uses FastAPI"].
Proof. eexists. vm_compute. repeat split; reflexivity. Qed.

(* ===================================================================== *)
(** * Properties of the mention extraction *)
(* ===================================================================== *)

Lemma app_cons (c : ascii) (a b : string) : String c a +:+ b = String c (a +:+ b).
Proof. reflexivity. Qed.

Lemma app_assoc_string (a b c : string) : (a +:+ b) +:+ c = a +:+ (b +:+ c).
Proof. induction a as [|x a IH]; [reflexivity|]. now rewrite !app_cons, IH. Qed.

Lemma allChars_app (p : ascii -> bool) (a b : string) :
  allChars p (a +:+ b) = allChars p a && allChars p b.
Proof.
  induction a as [|x a IH]; [reflexivity|].
  rewrite app_cons. cbn. rewrite IH. now rewrite andb_assoc.
Qed.

(** The span stops at the first character that fails the test. *)
Lemma spanWhile_stops (p : ascii -> bool) (a : string) (c : ascii) (rest : string) :
  allChars p a = true -> p c = false ->
  JsString.spanWhile p (a +:+ String c rest) = (a, String c rest).
Proof.
  intros Ha Hc. induction a as [|x a IH].
  - change (EmptyString +:+ String c rest) with (String c rest).
    cbn. now rewrite Hc.
  - rewrite app_cons. cbn in *. apply andb_prop in Ha as [Hx Ha].
    now rewrite Hx, (IH Ha).
Qed.

Lemma hasChar_allChars (c : ascii) (s : string) :
  hasChar c s = false -> allChars (fun a => negb (Ascii.eqb a c)) s = true.
Proof.
  induction s as [|x s IH]; [reflexivity|]. cbn. intros H.
  apply orb_false_elim in H as [Hx Hs]. now rewrite Hx, (IH Hs).
Qed.

Lemma allChars_weaken (p q : ascii -> bool) (s : string) :
  (forall a, p a = true -> q a = true) -> allChars p s = true -> allChars q s = true.
Proof.
  intros Hpq. induction s as [|x s IH]; [reflexivity|]. cbn. intros H.
  apply andb_prop in H as [Hx Hs]. now rewrite (Hpq _ Hx), (IH Hs).
Qed.

Lemma idChar_not_comma (a : ascii) :
  Routing.isIdChar a = true -> negb (Ascii.eqb a ","%char) = true.
Proof. destruct (Ascii.eqb_spec a ","%char) as [->|]; [discriminate|reflexivity]. Qed.

Lemma isId_without_comma (id : string) : isId id = true -> hasChar ","%char id = false.
Proof.
  unfold isId. intros H. apply andb_prop in H as [_ H].
  induction id as [|x id IH]; [reflexivity|]. cbn in *.
  apply andb_prop in H as [Hx Hid]. apply idChar_not_comma in Hx.
  apply negb_true_iff in Hx. now rewrite Hx, (IH Hid).
Qed.

Lemma idList_chars (ids : list string) :
  Forall (fun id => isId id = true) ids ->
  allChars Routing.isIdListChar (JsString.join "," ids) = true.
Proof.
  assert (forall id, isId id = true -> allChars Routing.isIdListChar id = true) as Hid.
  { intros id H. apply andb_prop in H as [_ H].
    apply (allChars_weaken Routing.isIdChar); [|exact H].
    intros a Ha. unfold Routing.isIdListChar. now rewrite Ha. }
  induction 1 as [|id ids Hhead Hrest IH]; [reflexivity|].
  destruct ids as [|id' ids].
  - cbn. now apply Hid.
  - change (JsString.join "," (id :: id' :: ids))
      with (id +:+ String ","%char (JsString.join "," (id' :: ids))).
    rewrite allChars_app, (Hid _ Hhead). cbn [andb allChars]. exact IH.
Qed.

(** The scanner reads a well-formed tag back. *)
Lemma parseTag_wellFormed (ids : list string) (clause after : string) :
  wellFormedTag ids clause ->
  Routing.parseTag (tagText ids clause +:+ after)
  = Some (ids, JsString.trim clause, after).
Proof.
  intros (Hne & Hids & Hclause). unfold Routing.parseTag, tagText.
  rewrite !app_assoc_string.
  change (JsString.stripPrefix "[@" ("[@" +:+ ?x)) with (Some x).
  cbn [JsString.stripPrefix].
  change (":" +:+ ?x) with (String ":"%char x).
  rewrite (spanWhile_stops Routing.isIdListChar (JsString.join "," ids) ":"%char _
             (idList_chars _ Hids) eq_refl).
  change ("]" +:+ after) with (String "]"%char after).
  unfold JsString.spanNot.
  rewrite (spanWhile_stops _ clause "]"%char after (hasChar_allChars _ _ Hclause)
             eq_refl).
  rewrite (split_join ","%char ids Hne).
  - assert (forallb (fun id => negb (JsString.isEmpty id)) ids = true) as ->;
      [|reflexivity].
    apply forallb_forall. intros id Hin. rewrite Forall_forall in Hids.
    apply list_elem_of_In, Hids in Hin. now apply andb_prop in Hin as [Hin _].
  - eapply Forall_impl; [exact Hids|]. apply isId_without_comma.
Qed.

(** A scan that is not inside a tag finds the tag it comes upon, or an
    earlier one. *)
Lemma bracketScan_finds_tag (before passed : string) (ids : list string)
    (clause after : string) :
  wellFormedTag ids clause ->
  Routing.bracketScan O passed (before +:+ tagText ids clause +:+ after) <> [].
Proof.
  intros Hwf. revert passed. induction before as [|c before IH]; intros passed.
  - change (EmptyString +:+ ?x) with x.
    pose proof (parseTag_wellFormed ids clause after Hwf) as Hparse.
    remember (tagText ids clause +:+ after) as s eqn:Hs.
    destruct s as [|c s]; [discriminate Hparse|].
    cbn [Routing.bracketScan]. rewrite Hparse. discriminate.
  - rewrite app_cons. cbn [Routing.bracketScan].
    destruct (Routing.parseTag _) as [[[ids' clause'] rest']|]; [discriminate|].
    apply IH.
Qed.

Lemma containsBracketTag_matches (text : string) :
  containsBracketTag text -> Routing.bracketMatches text <> [].
Proof.
  intros (before & ids & clause & after & Hwf & ->).
  now apply bracketScan_finds_tag.
Qed.

Lemma dedup_subset (seen ids : list string) (id : string) :
  In id (Routing.dedup seen ids) -> In id ids.
Proof.
  revert seen. induction ids as [|x ids IH]; intros seen; cbn; [tauto|].
  destruct (includesId x seen); cbn; intros Hin.
  - right. now apply (IH seen).
  - destruct Hin as [->|Hin]; [now left|right; now apply (IH (x :: seen))].
Qed.

(** Every mention that the bracket mode emits comes from a tag that
    names its teammate. *)
Lemma bracketMentions_from_tags (self teamId : string) (teams : table TeamConfig)
    (agents : table AgentConfig) (tags : list BracketTag) (m : DirectedMention) :
  In m (Routing.bracketMentions self teamId teams agents tags) ->
  exists tag,
    In tag tags
    /\ In (teammateId m) (tag_ids tag)
    /\ message m = tag_preceding tag +:+ tag_message tag
    /\ Routing.isTeammate (teammateId m) self teamId teams agents = true.
Proof.
  unfold Routing.bracketMentions. intros Hin.
  apply in_concat in Hin as (ms & Hms & Hin).
  apply in_map_iff in Hms as (tag & <- & Htag).
  unfold Routing.tagMentions in Hin.
  apply in_map_iff in Hin as (id & <- & Hid).
  apply dedup_subset, list_elem_of_In, list_elem_of_filter in Hid as [Hmate Hid].
  exists tag. cbn. repeat split; try assumption. now apply list_elem_of_In.
Qed.

(** C1: for every response text, self id, team id, team table and agent
    table, if the text contains at least one well-formed bracket tag
    [[@id(,id)*: message]], then [extractTeammateMentions] does no bare
    mention extraction: its result is the result of the bracket mode,
    every mention in it comes from a bracket tag that names its teammate,
    and an id that no bracket tag names gets no mention, whatever bare
    handles the text holds. *)
Theorem bracket_tag_excludes_bare_mentions
    (text self teamId : string) (teams : table TeamConfig) (agents : table AgentConfig) :
  containsBracketTag text ->
  extractTeammateMentions text self teamId teams agents
  = Routing.bracketMentions self teamId teams agents (Routing.bracketMatches text)
  /\ (forall m,
        In m (extractTeammateMentions text self teamId teams agents) ->
        exists tag,
          In tag (Routing.bracketMatches text)
          /\ In (teammateId m) (tag_ids tag)
          /\ message m = tag_preceding tag +:+ tag_message tag)
  /\ (forall id,
        (forall tag, In tag (Routing.bracketMatches text) -> ~ In id (tag_ids tag)) ->
        forall m, In m (extractTeammateMentions text self teamId teams agents) ->
                  teammateId m <> id).
Proof.
  intros Htag. apply containsBracketTag_matches in Htag.
  assert (extractTeammateMentions text self teamId teams agents
          = Routing.bracketMentions self teamId teams agents (Routing.bracketMatches text))
    as Heq.
  { unfold extractTeammateMentions.
    destruct (Routing.bracketMatches text); [contradiction|reflexivity]. }
  rewrite Heq. split; [reflexivity|]. split.
  - intros m Hm. apply bracketMentions_from_tags in Hm as (tag & H1 & H2 & H3 & _).
    eauto.
  - intros id Hnone m Hm <-.
    apply bracketMentions_from_tags in Hm as (tag & H1 & H2 & _).
    exact (Hnone tag H1 H2).
Qed.

(** C1, witness: the response of [testBareMentionNotUsedWhenBracketsFound].
    The bare handle of agent-c is passed over. *)
Lemma bracket_tag_excludes_bare_mentions_witness :
  let text := "[@agent-b: Review this.] Also cc @agent-c for awareness." in
  extractTeammateMentions text "agent-a" "test-team" testTeams testAgents
  = [{| teammateId := "agent-b"; message := "Review this."; sourceAgentId := "agent-a" |}]
  /\ Routing.bareTokens text = ["agent-b"; "agent-c"].
Proof.
  intros text.
  assert (containsBracketTag text) as Htag.
  { exists EmptyString, ["agent-b"], " Review this.", " Also cc @agent-c for awareness.".
    split; [|reflexivity].
    repeat split; [discriminate|repeat constructor]. }
  destruct (bracket_tag_excludes_bare_mentions text "agent-a" "test-team"
              testTeams testAgents Htag) as (Heq & _).
  split; [rewrite Heq|]; vm_compute; reflexivity.
Defined.

(* ===================================================================== *)
(** * Properties of the native streaming variant *)
(* ===================================================================== *)

Section Native.
Context `{Host}.

Lemma truthy_field_object (state : jsval) (k : string) :
  Js.truthy (Js.getOpt state k) = true -> exists fields, state = VObj fields.
Proof. destruct state; cbn; try discriminate. eauto. Qed.

Lemma formatObservationsPrompt_object (fields : list (string * jsval)) :
  exists prompt, formatObservationsPrompt (VObj fields) = Ret prompt.
Proof. unfold formatObservationsPrompt, stateField. cbn. eauto. Qed.

(** The observer part of the prompt assembly returns; it logs warnings
    only, and it puts the notice in front of the message exactly when the
    call resets, the agent has the observer enabled and the loaded state
    has a truthy [observations_text]. *)
Lemma observerContext_run (agent : AgentConfig) (agentId message workspacePath : string)
    (shouldReset : bool) (fs : filesystem) :
  exists state trL tr parts,
    loadObserverState agentId workspacePath fs = (fs, trL, Ret state)
    /\ observerContext agent agentId message workspacePath shouldReset fs
       = (fs, tr, Ret (parts, expectedPrompt agent state shouldReset message))
    /\ Forall (fun e => isControl e = false) tr.
Proof.
  destruct (loadObserverState_returns agentId workspacePath fs)
    as (state & trL & Hload & Hlog).
  exists state, trL. unfold observerContext, expectedPrompt.
  destruct (agent_observer_enabled agent).
  - unfold bind. rewrite Hload.
    assert (Forall (fun e => isControl e = false) trL) as HtrL.
    { eapply Forall_impl; [exact Hlog|]. now intros e [m ->]. }
    destruct (Js.truthy (Js.getOpt state "observations_text")) eqn:Htext.
    + destruct (truthy_field_object _ _ Htext) as [fields ->].
      destruct (formatObservationsPrompt_object fields) as [prompt Hprompt].
      unfold lift, ret. rewrite Hprompt. cbn.
      exists (trL ++ []), [prompt]. rewrite !andb_true_r.
      split; [reflexivity|]. split; [reflexivity|]. now rewrite app_nil_r.
    + unfold ret. exists (trL ++ []), []. rewrite andb_false_r.
      split; [reflexivity|]. split; [reflexivity|]. now rewrite app_nil_r.
  - exists [], []. rewrite andb_false_r. cbn.
    split; [exact Hload|]. split; [reflexivity|constructor].
Qed.

(** The run of a native invocation: the effects before the timer are not
    control effects; then the timer is armed, the query is issued with
    the expected prompt and the abort controller, the stream is consumed
    and the timer is cleared; the outcome is the loop's. *)
Lemma invokeAgent_native_run (w : World) (agent : AgentConfig)
    (agentId message workspacePath : string) (shouldReset : bool)
    (agents : table AgentConfig) (teams : table TeamConfig) (fs : filesystem) :
  isNative agent = true ->
  exists state trL before options,
    loadObserverState agentId workspacePath fs = (fs, trL, Ret state)
    /\ Forall (fun e => isControl e = false) before
    /\ opt_abortController options = true
    /\ invokeAgent w agent agentId message workspacePath shouldReset agents teams fs
       = (fs,
          before
            ++ [ESetTimeout SDK_QUERY_TIMEOUT_MS;
                EQuery (expectedPrompt agent state shouldReset message) options]
            ++ (consume agentId true initialState (w_stream w)).1
            ++ [EClearTimeout],
          match (consume agentId true initialState (w_stream w)).2 with
          | Ret st => Ret (structuredOf st)
          | Throw e => Throw e
          end).
Proof.
  intros Hnative. unfold isNative in Hnative.
  apply andb_prop in Hnative as [Hopenai Hopencode].
  apply negb_true_iff in Hopenai, Hopencode.
  destruct (observerContext_run agent agentId message workspacePath shouldReset fs)
    as (state & trL & trC & parts & Hload & Hctx & HtrC).
  exists state, trL.
  unfold invokeAgent. rewrite Hopenai, Hopencode.
  unfold invokeClaude.
  unfold bind at 1. unfold Fs.existsSync at 1.
  unfold bind at 1. unfold emit at 1.
  unfold bind at 1.
  set (present := match fs !! Path.join [workspacePath; agentId] with
                  | Some _ => true | None => false end).
  assert (exists t0, when (negb present)
                       (log "INFO" ("Initialized agent directory with config files: "
                                      +:+ Path.join [workspacePath; agentId])) fs
                     = (fs, t0, Ret tt)
                     /\ Forall (fun e => isControl e = false) t0) as (t0 & -> & Ht0).
  { destruct present; cbn; eexists; (split; [reflexivity|repeat constructor]). }
  unfold bind at 1. unfold emit at 1.
  unfold bind at 1. unfold log at 1, emit at 1.
  unfold bind at 1.
  assert (exists t1, when shouldReset
                       (log "INFO" ("🔄 Resetting conversation for agent: " +:+ agentId)) fs
                     = (fs, t1, Ret tt)
                     /\ Forall (fun e => isControl e = false) t1) as (t1 & -> & Ht1).
  { destruct shouldReset; cbn; eexists; (split; [reflexivity|repeat constructor]). }
  unfold bind at 1. rewrite Hctx. cbn [fst snd].
  unfold bind at 1. unfold emit at 1.
  unfold bind at 1. unfold tryFinally, bind, emit, consumeStream, ret.
  destruct (consume agentId true initialState (w_stream w)) as [tS oS] eqn:Hstream.
  exists ([EEnsureAgentDirectory (Path.join [workspacePath; agentId])] ++ t0
            ++ [EUpdateAgentTeammates (Path.join [workspacePath; agentId]) agentId]
            ++ [ELog "INFO" ("Using Claude provider via SDK (agent: " +:+ agentId +:+ ")")]
            ++ t1 ++ trC).
  eexists.
  split; [exact Hload|]. split; [|split]; cycle 2.
  - destruct oS as [st|e]; cbv beta iota zeta;
      rewrite ?app_nil_r, <- ?app_assoc; cbn [app fst snd]; reflexivity.
  - eauto 12 with control.
  - reflexivity.
Qed.


Lemma onMessage_fatal (st : StreamState) (msg : SDKMessage) :
  isFatal (Yield msg) = true -> onMessage st msg = Throw (sdkErrorMessage msg).
Proof.
  cbn. intros Hf. apply andb_prop in Hf as [Hty Hsub].
  apply negb_true_iff in Hsub. unfold onMessage. now rewrite Hty, Hsub.
Qed.

Lemma onMessage_nonfatal (st : StreamState) (msg : SDKMessage) :
  isFatal (Yield msg) = false -> exists st', onMessage st msg = Ret st'.
Proof.
  cbn. intros Hf. unfold onMessage.
  destruct (String.eqb (msg_type msg) "result"); [|eauto].
  destruct (String.eqb (msg_subtype msg) "success"); [eauto|discriminate].
Qed.

Lemma onMessage_success (st : StreamState) (msg : SDKMessage) :
  msg_type msg = "result" -> msg_subtype msg = "success" ->
  exists st',
    onMessage st msg = Ret st'
    /\ st_resultText st' = msg_result msg
    /\ st_sessionId st' = msg_session_id msg.
Proof.
  intros Hty Hsub. unfold onMessage. rewrite Hty, Hsub. cbn. eauto.
Qed.

(** The loop passes over a prefix without fatal occurrence and goes on
    with what follows. *)
Lemma consume_prefix (agentId : string) (prefix : list occurrence) :
  existsb isFatal prefix = false ->
  forall armed st, exists t st' armed',
    forall rest,
      consume agentId armed st (prefix ++ rest)
      = (t ++ (consume agentId armed' st' rest).1, (consume agentId armed' st' rest).2).
Proof.
  induction prefix as [|o prefix IH]; intros Hnone armed st.
  - exists [], st, armed. intros rest. cbn. now destruct (consume _ _ _ rest).
  - cbn in Hnone. apply orb_false_elim in Hnone as [Ho Hprefix].
    destruct o as [msg| |e]; [| |discriminate].
    + destruct (onMessage_nonfatal st msg Ho) as [st1 Hst1].
      destruct (IH Hprefix armed st1) as (t & st' & armed' & Hrun).
      exists t, st', armed'. intros rest. cbn. rewrite Hst1. apply Hrun.
    + destruct (IH Hprefix false st) as (t & st' & armed' & Hrun).
      destruct armed.
      * exists (onTimeout agentId ++ t), st', armed'. intros rest.
        cbn [app consume]. rewrite (Hrun rest).
        now rewrite <- app_assoc.
      * exists t, st', armed'. intros rest. cbn. apply Hrun.
Qed.

Lemma controlOf_app (a b : list effect) : controlOf (a ++ b) = controlOf a ++ controlOf b.
Proof. apply filter_app. Qed.

Lemma controlOf_none (tr : list effect) :
  Forall (fun e => isControl e = false) tr -> controlOf tr = [].
Proof.
  induction 1 as [|e tr He Htr IH]; [reflexivity|].
  unfold controlOf in *. rewrite filter_cons.
  destruct (decide (isControl e = true)) as [Hc|_]; [congruence|exact IH].
Qed.

Lemma queriesOf_app (a b : list effect) : queriesOf (a ++ b) = queriesOf a ++ queriesOf b.
Proof. apply omap_app. Qed.

Lemma queriesOf_none (tr : list effect) :
  Forall (fun e => isControl e = false) tr -> queriesOf tr = [].
Proof.
  induction 1 as [|e tr He Htr IH]; [reflexivity|].
  unfold queriesOf in *. cbn. rewrite IH. now destruct e.
Qed.

(** While the stream is consumed the only control effect is the abort,
    issued once, when the armed timer expires before the loop ends. *)
Lemma consume_control (agentId : string) (os : list occurrence) :
  forall armed st,
    controlOf (consume agentId armed st os).1
    = if armed && existsb isExpiry (consumed os) then [EAbort] else [].
Proof.
  induction os as [|o os IH]; intros armed st.
  - cbn. now rewrite andb_false_r.
  - destruct o as [msg| |e].
    + cbn [consume consumed]. destruct (isFatal (Yield msg)) eqn:Hf.
      * rewrite (onMessage_fatal st msg Hf). cbn. now rewrite andb_false_r.
      * destruct (onMessage_nonfatal st msg Hf) as [st1 ->].
        cbn [existsb isExpiry orb]. apply IH.
    + cbn [consume consumed isFatal existsb isExpiry orb]. rewrite andb_true_r.
      specialize (IH false st). cbn [andb] in IH.
      destruct armed.
      * destruct (consume agentId false st os) as [t o]. cbn [fst] in *.
        rewrite controlOf_app, IH. reflexivity.
      * exact IH.
    + cbn. now rewrite andb_false_r.
Qed.

Lemma consume_no_query (agentId : string) (os : list occurrence) :
  forall armed st, queriesOf (consume agentId armed st os).1 = [].
Proof.
  induction os as [|o os IH]; intros armed st; [reflexivity|].
  destruct o as [msg| |e]; cbn [consume].
  - destruct (onMessage st msg); [apply IH|reflexivity].
  - specialize (IH false st). destruct armed; [|exact IH].
    destruct (consume agentId false st os) as [t o]. cbn [fst] in *.
    now rewrite queriesOf_app, IH.
  - reflexivity.
Qed.

End Native.

(** C2, as the code has it: in a native streaming invocation whose stream
    reaches a terminal result event, a success subtype makes the call
    return that event's result text as the response and its session id as
    the session id; any other subtype makes the call raise an error whose
    message is the event's error list joined by a semicolon and a space
    when that text is not empty, and the generic message naming the
    subtype when the error list is absent or joins to the empty text. *)
Theorem result_event_decides_native_outcome `{Host}
    (w : World) (agent : AgentConfig) (agentId message workspacePath : string)
    (shouldReset : bool) (agents : table AgentConfig) (teams : table TeamConfig)
    (fs : filesystem) (prefix : list occurrence) (ev : SDKMessage)
    (rest : list occurrence) :
  isNative agent = true ->
  w_stream w = prefix ++ Yield ev :: rest ->
  existsb isFatal prefix = false ->
  msg_type ev = "result" ->
  (msg_subtype ev = "success" -> rest = [] ->
   exists r,
     outcomeOf (invokeAgent w agent agentId message workspacePath shouldReset agents teams) fs
     = Ret (Structured r)
     /\ response r = msg_result ev
     /\ sessionId r = msg_session_id ev)
  /\ (msg_subtype ev <> "success" ->
      outcomeOf (invokeAgent w agent agentId message workspacePath shouldReset agents teams) fs
      = Throw (sdkErrorMessage ev))
  /\ (forall errs,
        msg_errors ev = Some errs -> JsString.join "; " errs <> EmptyString ->
        sdkErrorMessage ev = JsString.join "; " errs)
  /\ (msg_errors ev = None
      \/ (exists errs, msg_errors ev = Some errs /\ JsString.join "; " errs = EmptyString) ->
      sdkErrorMessage ev = "SDK error: " +:+ msg_subtype ev).
Proof.
  intros Hnative Hstream Hprefix Hty.
  destruct (invokeAgent_native_run w agent agentId message workspacePath shouldReset
              agents teams fs Hnative)
    as (state & trL & before & options & _ & _ & _ & Hrun).
  destruct (consume_prefix agentId prefix Hprefix true initialState)
    as (t & st' & armed' & Hpre).
  unfold outcomeOf. rewrite Hrun, Hstream, (Hpre (Yield ev :: rest)). cbn [snd].
  split; [|split; [|split]].
  - intros Hsub ->.
    destruct (onMessage_success st' ev Hty Hsub) as (st'' & Hst'' & Htext & Hsid).
    cbn [consume]. rewrite Hst''. cbn [snd].
    eexists. split; [reflexivity|]. cbn. now split.
  - intros Hsub.
    assert (isFatal (Yield ev) = true) as Hfatal.
    { cbn. rewrite Hty. cbn. apply negb_true_iff, String.eqb_neq, Hsub. }
    cbn [consume]. now rewrite (onMessage_fatal st' ev Hfatal).
  - intros errs Herrs Hjoin. unfold sdkErrorMessage, orElse. rewrite Herrs.
    now destruct (JsString.join "; " errs).
  - intros [Hnone|(errs & Herrs & Hjoin)]; unfold sdkErrorMessage, orElse.
    + now rewrite Hnone.
    + now rewrite Herrs, Hjoin.
Qed.

(** C2, witness: the scenario of the spec.  An assistant and a user event
    are followed by the terminal success result. *)
Lemma result_event_decides_native_outcome_witness :
  exists r,
    outcomeOf (invokeAgent (H := jsonHost)
                 (worldOf (SpawnError EmptyString)
                    [Yield (textEvent "assistant" "Working on it.");
                     Yield (textEvent "user" "ok");
                     Yield doneEvent])
                 (agentOf "anthropic" false) "agent-b" "hi" "/ws" false [] []) ∅
    = Ret (Structured r)
    /\ response r = "Done."
    /\ sessionId r = Some "S1"
    /\ outcomeOf (invokeAgent (H := jsonHost)
                    (worldOf (SpawnError EmptyString) [Yield twoErrorsEvent])
                    (agentOf "anthropic" false) "agent-b" "hi" "/ws" false [] []) ∅
       = Throw "rate limited; gave up".
Proof.
  destruct (result_event_decides_native_outcome (H := jsonHost)
              (worldOf (SpawnError EmptyString)
                 [Yield (textEvent "assistant" "Working on it.");
                  Yield (textEvent "user" "ok");
                  Yield doneEvent])
              (agentOf "anthropic" false) "agent-b" "hi" "/ws" false [] [] ∅
              [Yield (textEvent "assistant" "Working on it."); Yield (textEvent "user" "ok")]
              doneEvent [] eq_refl eq_refl eq_refl eq_refl) as (Hsuccess & _).
  destruct (Hsuccess eq_refl eq_refl) as (r & Hrun & Htext & Hsid).
  exists r. split; [exact Hrun|]. split; [exact Htext|]. split; [exact Hsid|].
  vm_compute. reflexivity.
Defined.

(** C2, counterexample: the terminal result is of an error subtype and
    carries an error list that is present and empty.  The list joins to
    the empty text, yet the error raised has the generic message. *)
Lemma empty_error_list_raises_generic_message :
  msg_errors emptyErrorsEvent = Some []
  /\ JsString.join "; " [] = EmptyString
  /\ outcomeOf (invokeAgent (H := jsonHost)
                  (worldOf (SpawnError EmptyString)
                     [Yield (textEvent "assistant" "Working on it.");
                      Yield emptyErrorsEvent])
                  (agentOf "anthropic" false) "agent-b" "hi" "/ws" false [] []) ∅
     = Throw "SDK error: error_during_execution"
  /\ @Throw InvokeReturn "SDK error: error_during_execution" <> Throw EmptyString.
Proof. vm_compute. repeat split; try reflexivity. discriminate. Qed.

(** C3: a native streaming invocation sends exactly one query.  With
    [shouldReset] true, the observer enabled and a loaded state whose
    [observations_text] is not empty, its prompt is the fixed clearance
    notice, spelled out below, a blank line and the message; with
    [shouldReset] false, with no observer state or with an empty
    [observations_text], its prompt is the message as it came. *)
Theorem clearance_notice_iff_reset_with_observations `{Host}
    (w : World) (agent : AgentConfig) (agentId message workspacePath : string)
    (shouldReset : bool) (agents : table AgentConfig) (teams : table TeamConfig)
    (fs : filesystem) :
  isNative agent = true ->
  exists state trL prompt options,
    loadObserverState agentId workspacePath fs = (fs, trL, Ret state)
    /\ queriesOf (traceOf (invokeAgent w agent agentId message workspacePath shouldReset
                             agents teams) fs)
       = [(prompt, options)]
    /\ (shouldReset = true -> agent_observer_enabled agent = true ->
        Js.truthy (Js.getOpt state "observations_text") = true ->
        prompt
        = "[Your previous conversation was cleared. Your observations contain your memory of past work. Pick up where you left off.]"
            +:+ nl +:+ nl +:+ message)
    /\ (shouldReset = false \/ state = VNull
        \/ Js.getOpt state "observations_text" = VStr EmptyString ->
        prompt = message).
Proof.
  intros Hnative.
  destruct (invokeAgent_native_run w agent agentId message workspacePath shouldReset
              agents teams fs Hnative)
    as (state & trL & before & options & Hload & Hbefore & _ & Hrun).
  exists state, trL, (expectedPrompt agent state shouldReset message), options.
  split; [exact Hload|]. split; [|split].
  - unfold traceOf. rewrite Hrun. cbn [fst snd].
    rewrite !queriesOf_app, (queriesOf_none _ Hbefore), consume_no_query. reflexivity.
  - intros -> Hobs Htext. unfold expectedPrompt. now rewrite Hobs, Htext.
  - unfold expectedPrompt. intros [ -> | [ -> | -> ] ].
    + reflexivity.
    + cbn. now rewrite andb_false_r.
    + cbn. now rewrite andb_false_r.
Qed.

(** C3, witness: a reset with one stored observation. *)
Lemma clearance_notice_iff_reset_with_observations_witness :
  (exists state trL prompt options,
     loadObserverState (H := jsonHost) "agent-b" "/ws" observedFs
     = (observedFs, trL, Ret state)
     /\ queriesOf (traceOf (invokeAgent (H := jsonHost) (worldOf (SpawnError EmptyString) [])
                              (agentOf "anthropic" true) "agent-b" "hi" "/ws" true [] [])
                     observedFs)
        = [(prompt, options)]
     /\ (true = true -> agent_observer_enabled (agentOf "anthropic" true) = true ->
         Js.truthy (Js.getOpt state "observations_text") = true ->
         prompt
         = "[Your previous conversation was cleared. Your observations contain your memory of past work. Pick up where you left off.]"
             +:+ nl +:+ nl +:+ "hi")
     /\ (true = false \/ state = VNull
         \/ Js.getOpt state "observations_text" = VStr EmptyString ->
         prompt = "hi"))
  /\ map fst (queriesOf (traceOf (invokeAgent (H := jsonHost)
                                    (worldOf (SpawnError EmptyString) [])
                                    (agentOf "anthropic" true) "agent-b" "hi" "/ws" true [] [])
                           observedFs))
     = ["[Your previous conversation was cleared. Your observations contain your memory of past work. Pick up where you left off.]"
          +:+ nl +:+ nl +:+ "hi"]
  /\ map fst (queriesOf (traceOf (invokeAgent (H := jsonHost)
                                    (worldOf (SpawnError EmptyString) [])
                                    (agentOf "anthropic" true) "agent-b" "hi" "/ws" false [] [])
                           observedFs))
     = ["hi"].
Proof.
  split; [|split].
  - apply (clearance_notice_iff_reset_with_observations (H := jsonHost)
             (worldOf (SpawnError EmptyString) []) (agentOf "anthropic" true)
             "agent-b" "hi" "/ws" true [] [] observedFs).
    reflexivity.
  - vm_compute. reflexivity.
  - vm_compute. reflexivity.
Defined.

(** C5: in every native streaming invocation the timer is armed with
    120000 ms before the query is issued, the query carries the abort
    controller, the expiry of the timer while the stream is consumed
    aborts the query, and the last thing the call does, whether the
    stream ends, yields an error result or throws, is to clear the
    timer. *)
Theorem native_timeout_armed_aborts_and_cleared `{Host}
    (w : World) (agent : AgentConfig) (agentId message workspacePath : string)
    (shouldReset : bool) (agents : table AgentConfig) (teams : table TeamConfig)
    (fs : filesystem) :
  isNative agent = true ->
  exists prompt options,
    opt_abortController options = true
    /\ controlOf (traceOf (invokeAgent w agent agentId message workspacePath shouldReset
                             agents teams) fs)
       = [ESetTimeout 120000; EQuery prompt options]
           ++ (if existsb isExpiry (consumed (w_stream w)) then [EAbort] else [])
           ++ [EClearTimeout]
    /\ last (traceOf (invokeAgent w agent agentId message workspacePath shouldReset
                        agents teams) fs)
       = Some EClearTimeout.
Proof.
  intros Hnative.
  destruct (invokeAgent_native_run w agent agentId message workspacePath shouldReset
              agents teams fs Hnative)
    as (state & trL & before & options & _ & Hbefore & Habort & Hrun).
  exists (expectedPrompt agent state shouldReset message), options.
  split; [exact Habort|]. unfold traceOf. rewrite Hrun. cbn [fst snd]. split.
  - rewrite !controlOf_app, (controlOf_none _ Hbefore), consume_control. reflexivity.
  - rewrite !app_assoc. apply last_snoc.
Qed.

(** C5, witness: the timer expires while the stream is open and the
    stream then fails.  The query is aborted, the timer is cleared, and
    the failure reaches the caller. *)
Lemma native_timeout_armed_aborts_and_cleared_witness :
  let run := invokeAgent (H := jsonHost)
               (worldOf (SpawnError EmptyString)
                  [Yield (textEvent "assistant" "Working on it."); TimerExpires;
                   StreamFails "The operation was aborted"])
               (agentOf "anthropic" false) "agent-b" "hi" "/ws" false [] [] in
  (exists prompt options,
     opt_abortController options = true
     /\ controlOf (traceOf run ∅)
        = [ESetTimeout 120000; EQuery prompt options] ++ [EAbort] ++ [EClearTimeout]
     /\ last (traceOf run ∅) = Some EClearTimeout)
  /\ outcomeOf run ∅ = Throw "The operation was aborted".
Proof.
  intros run. split.
  - apply (native_timeout_armed_aborts_and_cleared (H := jsonHost)
             (worldOf (SpawnError EmptyString)
                [Yield (textEvent "assistant" "Working on it."); TimerExpires;
                 StreamFails "The operation was aborted"])
             (agentOf "anthropic" false) "agent-b" "hi" "/ws" false [] [] ∅).
    reflexivity.
  - vm_compute. reflexivity.
Defined.

(* ===================================================================== *)
(** * Further properties of [lib/invoke.ts] *)
(* ===================================================================== *)

Section InvokeMore.
Context `{Host}.

Lemma not_native_cases (agent : AgentConfig) :
  isNative agent = false ->
  String.eqb (orElse (agent_provider agent) "anthropic") "openai" = true
  \/ (String.eqb (orElse (agent_provider agent) "anthropic") "openai" = false
      /\ String.eqb (orElse (agent_provider agent) "anthropic") "opencode" = true).
Proof.
  unfold isNative.
  destruct (String.eqb _ "openai"); [now left|].
  destruct (String.eqb _ "opencode"); [now right|discriminate].
Qed.

(** Run a subprocess branch on any child. *)
Ltac run_any_subprocess :=
  unfold outcomeOf, traceOf, finalFs, invokeAgent, runCommand, Fs.existsSync;
  unfold_monad.

(** The outcome of a subprocess variant is decided by the child alone. *)
Lemma invokeAgent_subprocess_outcome (w : World) (agent : AgentConfig)
    (agentId message workspacePath : string) (shouldReset : bool)
    (agents : table AgentConfig) (teams : table TeamConfig) (fs : filesystem) :
  isNative agent = false ->
  outcomeOf (invokeAgent w agent agentId message workspacePath shouldReset agents teams) fs
  = match w_child w with
    | SpawnError e => Throw e
    | Closed (Some 0) stdout _ =>
        Ret (Plain (if String.eqb (orElse (agent_provider agent) "anthropic") "openai"
                    then codexResponse stdout else opencodeResponse stdout))
    | Closed code _ stderr =>
        Throw (orElse (JsString.trim stderr) ("Command exited with code " +:+ codeText code))
    end.
Proof.
  intros Hsub. run_any_subprocess.
  destruct (not_native_cases agent Hsub) as [Hp|[Hp1 Hp2]];
    rewrite ?Hp, ?Hp1, ?Hp2;
    destruct (fs !! _), shouldReset, (w_child w) as [e|[[|c|c]|] out err];
    reflexivity.
Qed.


Lemma invokeAgent_subprocess_trace (w : World) (agent : AgentConfig)
    (agentId message workspacePath : string) (shouldReset : bool)
    (agents : table AgentConfig) (teams : table TeamConfig) (fs : filesystem) :
  isNative agent = false ->
  controlOf (traceOf (invokeAgent w agent agentId message workspacePath shouldReset
                        agents teams) fs) = []
  /\ exists args,
       spawnsOf (traceOf (invokeAgent w agent agentId message workspacePath shouldReset
                            agents teams) fs)
       = [(if String.eqb (orElse (agent_provider agent) "anthropic") "openai"
           then "codex" else "opencode",
           args,
           orElse (workingDirOf agent agentId workspacePath) SCRIPT_DIR)]
       /\ last args = Some message.
Proof.
  intros Hsub. run_any_subprocess. unfold workingDirOf.
  destruct (not_native_cases agent Hsub) as [Hp|[Hp1 Hp2]];
    rewrite ?Hp, ?Hp1, ?Hp2;
    destruct (fs !! _), shouldReset, (w_child w) as [e|[[|c|c]|] out err];
    (split; [reflexivity|]);
    destruct (JsString.isEmpty (resolveCodexModel (agent_model agent))),
             (JsString.isEmpty (resolveOpenCodeModel (agent_model agent)));
    eexists; (split; [reflexivity|reflexivity]).
Qed.

Lemma observerContext_housekeeping (agent : AgentConfig)
    (agentId message workspacePath : string) (shouldReset : bool) (fs : filesystem) :
  exists tr parts prompt,
    observerContext agent agentId message workspacePath shouldReset fs
    = (fs, tr, Ret (parts, prompt))
    /\ Forall (fun e => isHousekeeping e = true) tr.
Proof.
  destruct (loadObserverState_returns agentId workspacePath fs)
    as (state & trL & Hload & Hlog).
  assert (Forall (fun e => isHousekeeping e = true) trL) as HtrL.
  { eapply Forall_impl; [exact Hlog|]. now intros e [m ->]. }
  unfold observerContext.
  destruct (agent_observer_enabled agent); [|exists [], [], message; split; [reflexivity|constructor]].
  unfold bind. rewrite Hload.
  destruct (Js.truthy (Js.getOpt state "observations_text")) eqn:Htext.
  - destruct (truthy_field_object _ _ Htext) as [fields ->].
    destruct (formatObservationsPrompt_object fields) as [prompt Hprompt].
    unfold lift, ret. rewrite Hprompt. cbn.
    do 3 eexists. split; [reflexivity|]. now rewrite app_nil_r.
  - unfold ret. do 3 eexists. split; [reflexivity|]. now rewrite app_nil_r.
Qed.

Lemma consume_trace_shape (agentId : string) (os : list occurrence) :
  forall armed st,
    Forall (fun e => isHousekeeping e = true \/ e = EAbort) (consume agentId armed st os).1.
Proof.
  induction os as [|o os IH]; intros armed st; [constructor|].
  destruct o as [msg| |e]; cbn [consume].
  - destruct (onMessage st msg); [apply IH|constructor].
  - specialize (IH false st). destruct armed; [|exact IH].
    destruct (consume agentId false st os) as [t o]. cbn [fst] in *.
    unfold onTimeout. cbn [app].
    constructor; [left; reflexivity|]. constructor; [right; reflexivity|exact IH].
  - constructor.
Qed.

(** The run of a native invocation with its options spelled out. *)
Lemma invokeAgent_native_explicit (w : World) (agent : AgentConfig)
    (agentId message workspacePath : string) (shouldReset : bool)
    (agents : table AgentConfig) (teams : table TeamConfig) (fs : filesystem) :
  isNative agent = true ->
  exists before prompt append,
    Forall (fun e => isHousekeeping e = true) before
    /\ invokeAgent w agent agentId message workspacePath shouldReset agents teams fs
       = (fs,
          before
            ++ [ESetTimeout SDK_QUERY_TIMEOUT_MS;
                EQuery prompt
                  {| opt_cwd := workingDirOf agent agentId workspacePath;
                     opt_systemPromptAppend := append;
                     opt_maxTurns := 1;
                     opt_abortController := true;
                     opt_model :=
                       if JsString.isEmpty (resolveClaudeModel (agent_model agent))
                       then None else Some (resolveClaudeModel (agent_model agent));
                     opt_continue := negb shouldReset;
                     opt_sessionId := if negb shouldReset then None else Some (w_uuid w);
                     opt_persistSession := if negb shouldReset then None else Some false |}]
            ++ (consume agentId true initialState (w_stream w)).1
            ++ [EClearTimeout],
          match (consume agentId true initialState (w_stream w)).2 with
          | Ret st => Ret (structuredOf st)
          | Throw e => Throw e
          end).
Proof.
  intros Hnative. unfold isNative in Hnative.
  apply andb_prop in Hnative as [Hopenai Hopencode].
  apply negb_true_iff in Hopenai, Hopencode.
  destruct (observerContext_housekeeping agent agentId message workspacePath shouldReset fs)
    as (trC & parts & prompt & Hctx & HtrC).
  unfold invokeAgent. rewrite Hopenai, Hopencode.
  unfold invokeClaude. fold (workingDirOf agent agentId workspacePath).
  unfold bind at 1. unfold Fs.existsSync at 1.
  unfold bind at 1. unfold emit at 1.
  unfold bind at 1.
  set (present := match fs !! Path.join [workspacePath; agentId] with
                  | Some _ => true | None => false end).
  assert (exists t0, when (negb present)
                       (log "INFO" ("Initialized agent directory with config files: "
                                      +:+ Path.join [workspacePath; agentId])) fs
                     = (fs, t0, Ret tt)
                     /\ Forall (fun e => isHousekeeping e = true) t0) as (t0 & -> & Ht0).
  { destruct present; cbn; eexists; (split; [reflexivity|repeat constructor]). }
  unfold bind at 1. unfold emit at 1.
  unfold bind at 1. unfold log at 1, emit at 1.
  unfold bind at 1.
  assert (exists t1, when shouldReset
                       (log "INFO" ("🔄 Resetting conversation for agent: " +:+ agentId)) fs
                     = (fs, t1, Ret tt)
                     /\ Forall (fun e => isHousekeeping e = true) t1) as (t1 & -> & Ht1).
  { destruct shouldReset; cbn; eexists; (split; [reflexivity|repeat constructor]). }
  unfold bind at 1. rewrite Hctx. cbn [fst snd].
  unfold bind at 1. unfold emit at 1.
  unfold bind at 1. unfold tryFinally, bind, emit, consumeStream, ret.
  destruct (consume agentId true initialState (w_stream w)) as [tS oS] eqn:Hstream.
  exists ([EEnsureAgentDirectory (Path.join [workspacePath; agentId])] ++ t0
            ++ [EUpdateAgentTeammates (Path.join [workspacePath; agentId]) agentId]
            ++ [ELog "INFO" ("Using Claude provider via SDK (agent: " +:+ agentId +:+ ")")]
            ++ t1 ++ trC).
  do 2 eexists. split.
  - repeat (apply Forall_app; split); try assumption; repeat constructor.
  - destruct oS as [st|e]; cbv beta iota zeta;
      rewrite ?app_nil_r, <- ?app_assoc; cbn [app fst snd]; reflexivity.
Qed.

Lemma spawnsOf_app (a b : list effect) : spawnsOf (a ++ b) = spawnsOf a ++ spawnsOf b.
Proof. apply omap_app. Qed.

Lemma spawnsOf_none (tr : list effect) :
  Forall (fun e => isHousekeeping e = true \/ e = EAbort) tr -> spawnsOf tr = [].
Proof.
  induction 1 as [|e tr He Htr IH]; [reflexivity|].
  unfold spawnsOf in *. cbn. rewrite IH.
  destruct He as [He| ->]; [now destruct e|reflexivity].
Qed.

Lemma collectObserverMessages_app (a b : list SDKMessage) :
  collectObserverMessages (a ++ b)
  = collectObserverMessages a ++ collectObserverMessages b.
Proof.
  induction a as [|msg a IH]; [reflexivity|]. cbn.
  destruct (msg_isReplay msg); [exact IH|].
  destruct (String.eqb (msg_type msg) "assistant" && Js.truthy (msg_content msg));
    [cbn; now rewrite IH|].
  destruct (String.eqb (msg_type msg) "user" && negb false && Js.truthy (msg_content msg));
    [cbn; now rewrite IH|exact IH].
Qed.

Lemma collectObserverMessages_conversation (msgs : list SDKMessage) :
  collectObserverMessages (filter (fun m => isConversation m = true) msgs)
  = collectObserverMessages msgs.
Proof.
  induction msgs as [|msg msgs IH]; [reflexivity|].
  rewrite filter_cons. unfold isConversation at 1.
  destruct (decide _) as [Hc|Hc].
  - cbn. now rewrite IH.
  - apply not_true_is_false, orb_false_elim in Hc as [Ha Hu].
    cbn. rewrite Ha, Hu, IH. now destruct (msg_isReplay msg).
Qed.

(** The loop over events that are not results: nothing is raised, the
    conversation events are collected, the result text stays, and the
    session id is the current one when it is not empty and the first
    non-empty one of the events otherwise. *)
Lemma consume_events (agentId : string) (msgs : list SDKMessage) :
  Forall (fun m => msg_type m <> "result") msgs ->
  forall armed st,
    consume agentId armed st (map Yield msgs)
    = ([], Ret {| st_allMessages :=
                    st_allMessages st ++ filter (fun m => isConversation m = true) msgs;
                  st_resultText := st_resultText st;
                  st_sessionId :=
                    if sessionTruthy (st_sessionId st) then st_sessionId st
                    else default (st_sessionId st)
                           (head (filter (fun s => sessionTruthy s = true)
                                    (map msg_session_id msgs))) |}).
Proof.
  induction 1 as [|msg msgs Hmsg Hrest IH]; intros armed st.
  - cbn. rewrite app_nil_r. destruct st as [a r s]. cbn. now destruct (sessionTruthy s).
  - cbn [map consume]. unfold onMessage.
    apply String.eqb_neq in Hmsg. rewrite Hmsg.
    rewrite IH. cbn [st_allMessages st_resultText st_sessionId].
    f_equal. f_equal. f_equal.
    + rewrite filter_cons.
      destruct (decide (isConversation msg = true)) as [Hc|Hc]; unfold isConversation in Hc.
      * rewrite Hc. now rewrite <- app_assoc.
      * apply not_true_is_false in Hc. now rewrite Hc.
    + cbn [map]. rewrite filter_cons.
      destruct (sessionTruthy (st_sessionId st)) eqn:Hcur; cbn [negb].
      * rewrite andb_false_r, Hcur. reflexivity.
      * rewrite andb_true_r.
        destruct (decide (sessionTruthy (msg_session_id msg) = true)) as [Hm|Hm].
        -- rewrite Hm, Hm. reflexivity.
        -- apply not_true_is_false in Hm. rewrite Hm, Hcur. reflexivity.
Qed.

End InvokeMore.

(** X1: in a subprocess variant a child that cannot be spawned or that
    does not exit with code 0 makes [invokeAgent] raise: the spawn error
    itself, or the trimmed standard error text, or, when that text is
    empty, the message naming the exit code.  What the child wrote to
    standard output is dropped. *)
Theorem subprocess_failure_reaches_caller `{Host}
    (w : World) (agent : AgentConfig) (agentId message workspacePath : string)
    (shouldReset : bool) (agents : table AgentConfig) (teams : table TeamConfig)
    (fs : filesystem) :
  isNative agent = false ->
  (forall e, w_child w = SpawnError e ->
     outcomeOf (invokeAgent w agent agentId message workspacePath shouldReset agents teams) fs
     = Throw e)
  /\ (forall code stdout stderr,
        w_child w = Closed code stdout stderr -> code <> Some 0 ->
        outcomeOf (invokeAgent w agent agentId message workspacePath shouldReset
                     agents teams) fs
        = Throw (if JsString.isEmpty (JsString.trim stderr)
                 then "Command exited with code " +:+ codeText code
                 else JsString.trim stderr)).
Proof.
  intros Hsub.
  pose proof (invokeAgent_subprocess_outcome w agent agentId message workspacePath
                shouldReset agents teams fs Hsub) as Hrun.
  split.
  - intros e Hchild. now rewrite Hrun, Hchild.
  - intros code stdout stderr Hchild Hcode. rewrite Hrun, Hchild.
    destruct code as [[|c|c]|]; try reflexivity. now contradiction Hcode.
Qed.

(** X1, witness: Codex exits with code 2 and a diagnostic on standard
    error. *)
Lemma subprocess_failure_reaches_caller_witness :
  outcomeOf (invokeAgent (H := jsonHost)
               (worldOf (Closed (Some 2) "partial output" "  model not found  ") [])
               (agentOf "openai" false) "agent-b" "hi" "/ws" false [] []) ∅
  = Throw "model not found".
Proof.
  destruct (subprocess_failure_reaches_caller (H := jsonHost)
              (worldOf (Closed (Some 2) "partial output" "  model not found  ") [])
              (agentOf "openai" false) "agent-b" "hi" "/ws" false [] [] ∅ eq_refl)
    as [_ Hexit].
  rewrite (Hexit (Some 2) "partial output" "  model not found  " eq_refl);
    [reflexivity|discriminate].
Defined.

(** X2: a subprocess variant spawns exactly one child, [codex] or
    [opencode], in the agent's working directory, with the message as its
    last argument, and it never arms a timer, issues an SDK query or
    aborts: no timeout is enforced on it. *)
Theorem subprocess_spawns_once_without_timer `{Host}
    (w : World) (agent : AgentConfig) (agentId message workspacePath : string)
    (shouldReset : bool) (agents : table AgentConfig) (teams : table TeamConfig)
    (fs : filesystem) :
  isNative agent = false ->
  controlOf (traceOf (invokeAgent w agent agentId message workspacePath shouldReset
                        agents teams) fs) = []
  /\ exists command args,
       spawnsOf (traceOf (invokeAgent w agent agentId message workspacePath shouldReset
                            agents teams) fs)
       = [(command, args, orElse (workingDirOf agent agentId workspacePath) SCRIPT_DIR)]
       /\ (command = "codex" \/ command = "opencode")
       /\ last args = Some message.
Proof.
  intros Hsub.
  destruct (invokeAgent_subprocess_trace w agent agentId message workspacePath
              shouldReset agents teams fs Hsub) as (Hcontrol & args & Hspawn & Hlast).
  split; [exact Hcontrol|].
  eexists _, args. split; [exact Hspawn|]. split; [|exact Hlast].
  destruct (String.eqb _ "openai"); auto.
Qed.

(** X2, witness: an OpenCode agent on a reset. *)
Lemma subprocess_spawns_once_without_timer_witness :
  spawnsOf (traceOf (invokeAgent (H := jsonHost)
                       (worldOf (Closed (Some 0) EmptyString EmptyString) [])
                       (agentOf "opencode" false) "agent-b" "hi there" "/ws" true [] []) ∅)
  = [("opencode", ["run"; "--format"; "json"; "--model"; "sonnet"; "hi there"],
      "/ws/agent-b")]
  /\ controlOf (traceOf (invokeAgent (H := jsonHost)
                           (worldOf (Closed (Some 0) EmptyString EmptyString) [])
                           (agentOf "opencode" false) "agent-b" "hi there" "/ws" true [] []) ∅)
     = [].
Proof.
  destruct (subprocess_spawns_once_without_timer (H := jsonHost)
              (worldOf (Closed (Some 0) EmptyString EmptyString) [])
              (agentOf "opencode" false) "agent-b" "hi there" "/ws" true [] [] ∅ eq_refl)
    as (Hcontrol & _).
  split; [vm_compute; reflexivity|exact Hcontrol].
Defined.

(** X3: a native streaming invocation never runs a command: it spawns no
    child process of its own, and issues exactly one query to the SDK,
    whatever the stream does. *)
Theorem native_invocation_spawns_nothing `{Host}
    (w : World) (agent : AgentConfig) (agentId message workspacePath : string)
    (shouldReset : bool) (agents : table AgentConfig) (teams : table TeamConfig)
    (fs : filesystem) :
  isNative agent = true ->
  spawnsOf (traceOf (invokeAgent w agent agentId message workspacePath shouldReset
                       agents teams) fs) = []
  /\ length (queriesOf (traceOf (invokeAgent w agent agentId message workspacePath
                                   shouldReset agents teams) fs)) = 1%nat.
Proof.
  intros Hnative.
  destruct (invokeAgent_native_explicit w agent agentId message workspacePath shouldReset
              agents teams fs Hnative) as (before & prompt & append & Hbefore & Hrun).
  unfold traceOf. rewrite Hrun. cbn [fst snd]. split.
  - rewrite !spawnsOf_app.
    rewrite (spawnsOf_none before), (spawnsOf_none _ (consume_trace_shape _ _ _ _)).
    + reflexivity.
    + eapply Forall_impl; [exact Hbefore|]. auto.
  - rewrite !queriesOf_app, consume_no_query.
    rewrite (queriesOf_none before).
    + reflexivity.
    + eapply Forall_impl; [exact Hbefore|]. now intros [] He.
Qed.

(** X3, witness: an unknown provider tag is served by the native
    variant. *)
Lemma native_invocation_spawns_nothing_witness :
  spawnsOf (traceOf (invokeAgent (H := jsonHost)
                       (worldOf (Closed (Some 0) "unused" EmptyString) [Yield doneEvent])
                       (agentOf "gemini" true) "agent-b" "hi" "/ws" false [] []) observedFs)
  = []
  /\ length (queriesOf (traceOf (invokeAgent (H := jsonHost)
                                   (worldOf (Closed (Some 0) "unused" EmptyString)
                                      [Yield doneEvent])
                                   (agentOf "gemini" true) "agent-b" "hi" "/ws" false [] [])
                          observedFs))
     = 1%nat.
Proof.
  apply (native_invocation_spawns_nothing (H := jsonHost)
           (worldOf (Closed (Some 0) "unused" EmptyString) [Yield doneEvent])
           (agentOf "gemini" true) "agent-b" "hi" "/ws" false [] [] observedFs).
  reflexivity.
Defined.

(** X4: [collectObserverMessages] keeps exactly the assistant and user
    events that are not replays and have a content, each with its type as
    the role, in the order of the stream: system and result events,
    replays and events without content never reach the observer log. *)
Theorem collectObserverMessages_keeps_conversation_only
    (sdkMessages : list SDKMessage) (entry : ObserverMessage) :
  (In entry (collectObserverMessages sdkMessages) <->
   exists msg,
     In msg sdkMessages
     /\ msg_isReplay msg = false
     /\ isConversation msg = true
     /\ Js.truthy (msg_content msg) = true
     /\ entry = observerEntry msg)
  /\ (forall earlier later,
        sdkMessages = earlier ++ later ->
        collectObserverMessages sdkMessages
        = collectObserverMessages earlier ++ collectObserverMessages later).
Proof.
  split; [|intros earlier later ->; apply collectObserverMessages_app].
  unfold isConversation, observerEntry.
  induction sdkMessages as [|msg msgs IH]; cbn.
  - split; [contradiction|]. now intros (m & [] & _).
  - destruct (msg_isReplay msg) eqn:Hreplay.
    { rewrite IH. split.
      - intros (m & Hin & Hrest). exists m. split; [now right|exact Hrest].
      - intros (m & [<-|Hin] & Hr & Hrest); [congruence|]. exists m. auto. }
    destruct (String.eqb_spec (msg_type msg) "assistant") as [Ha|Ha]; cbn [andb orb negb].
    { destruct (Js.truthy (msg_content msg)) eqn:Hcontent; cbn.
      - rewrite IH. split.
        + intros [<-|(m & Hin & Hrest)].
          * exists msg. rewrite Ha. repeat split; auto.
          * exists m. split; [now right|exact Hrest].
        + intros (m & [<-|Hin] & Hr & Hc & Ht & ->).
          * left. now rewrite Ha.
          * right. exists m. auto.
      - destruct (String.eqb (msg_type msg) "user"); cbn; rewrite IH; split.
        + intros (m & Hin & Hrest). exists m. split; [now right|exact Hrest].
        + intros (m & [<-|Hin] & Hr & Hc & Ht & ->); [congruence|]. exists m. auto.
        + intros (m & Hin & Hrest). exists m. split; [now right|exact Hrest].
        + intros (m & [<-|Hin] & Hr & Hc & Ht & ->); [congruence|]. exists m. auto. }
    destruct (String.eqb_spec (msg_type msg) "user") as [Hu|Hu]; cbn [andb orb negb].
    { destruct (Js.truthy (msg_content msg)) eqn:Hcontent; cbn; rewrite IH; split.
      - intros [<-|(m & Hin & Hrest)].
        + exists msg. rewrite Hu. repeat split; auto.
        + exists m. split; [now right|exact Hrest].
      - intros (m & [<-|Hin] & Hr & Hc & Ht & ->).
        + left. now rewrite Hu.
        + right. exists m. auto.
      - intros (m & Hin & Hrest). exists m. split; [now right|exact Hrest].
      - intros (m & [<-|Hin] & Hr & Hc & Ht & ->); [congruence|]. exists m. auto. }
    rewrite IH. split.
    + intros (m & Hin & Hrest). exists m. split; [now right|exact Hrest].
    + intros (m & [<-|Hin] & Hr & Hc & Ht & ->).
      * apply orb_prop in Hc as [Hc|Hc]; apply String.eqb_eq in Hc; contradiction.
      * exists m. auto.
Qed.

(** X5: when the stream of a native invocation ends without a result
    event and without failing, [invokeAgent] returns normally with an
    empty response: the observer log holds the conversation events and the
    session id is the first non-empty one that an event carried (the empty
    string when none did). *)
Theorem stream_without_result_gives_empty_response `{Host}
    (w : World) (agent : AgentConfig) (agentId message workspacePath : string)
    (shouldReset : bool) (agents : table AgentConfig) (teams : table TeamConfig)
    (fs : filesystem) (events : list SDKMessage) :
  isNative agent = true ->
  w_stream w = map Yield events ->
  Forall (fun m => msg_type m <> "result") events ->
  outcomeOf (invokeAgent w agent agentId message workspacePath shouldReset agents teams) fs
  = Ret (Structured {| response := EmptyString;
                       messages := collectObserverMessages events;
                       sessionId := firstSessionId events |}).
Proof.
  intros Hnative Hstream Hevents.
  destruct (invokeAgent_native_explicit w agent agentId message workspacePath shouldReset
              agents teams fs Hnative) as (before & prompt & append & _ & Hrun).
  unfold outcomeOf. rewrite Hrun, Hstream, (consume_events agentId events Hevents).
  cbn. unfold structuredOf. cbn.
  now rewrite collectObserverMessages_conversation.
Qed.

(** X5, witness: two conversation events and no result. *)
Lemma stream_without_result_gives_empty_response_witness :
  outcomeOf (invokeAgent (H := jsonHost)
               (worldOf (SpawnError EmptyString)
                  [Yield (textEvent "assistant" "Working on it."); Yield (textEvent "user" "ok")])
               (agentOf "anthropic" false) "agent-b" "hi" "/ws" false [] []) ∅
  = Ret (Structured {| response := EmptyString;
                       messages := [{| role := "assistant"; content := VStr "Working on it." |};
                                    {| role := "user"; content := VStr "ok" |}];
                       sessionId := Some "S1" |}).
Proof.
  rewrite (stream_without_result_gives_empty_response (H := jsonHost)
             (worldOf (SpawnError EmptyString)
                [Yield (textEvent "assistant" "Working on it."); Yield (textEvent "user" "ok")])
             (agentOf "anthropic" false) "agent-b" "hi" "/ws" false [] [] ∅
             [textEvent "assistant" "Working on it."; textEvent "user" "ok"]
             eq_refl eq_refl).
  - reflexivity.
  - repeat constructor; discriminate.
Defined.

(** X6: the one query of a native invocation continues the last session
    exactly when the call does not reset; a reset query carries the fresh
    session id, switches session persistence off and never continues.  The
    query always allows one turn and runs in the agent's directory, or in
    the agent's working directory override, taken as it is when absolute
    and under the workspace when relative.  Where the directory is joined
    from two parts, both are normalised POSIX paths, which [path.join]
    puts together with one separator and changes in no other way. *)
Theorem native_query_session_and_directory `{Host}
    (w : World) (agent : AgentConfig) (agentId message workspacePath : string)
    (shouldReset : bool) (agents : table AgentConfig) (teams : table TeamConfig)
    (fs : filesystem) :
  isNative agent = true ->
  exists prompt options,
    queriesOf (traceOf (invokeAgent w agent agentId message workspacePath shouldReset
                          agents teams) fs)
    = [(prompt, options)]
    /\ opt_continue options = negb shouldReset
    /\ opt_sessionId options = (if shouldReset then Some (w_uuid w) else None)
    /\ opt_persistSession options = (if shouldReset then Some false else None)
    /\ opt_maxTurns options = 1
    /\ (agent_working_directory agent = EmptyString ->
        normalisedBase workspacePath = true ->
        normalisedRelative agentId = true ->
        opt_cwd options = Path.join [workspacePath; agentId])
    /\ (Path.isAbsolute (agent_working_directory agent) = true ->
        opt_cwd options = agent_working_directory agent)
    /\ (agent_working_directory agent <> EmptyString ->
        Path.isAbsolute (agent_working_directory agent) = false ->
        normalisedBase workspacePath = true ->
        normalisedRelative (agent_working_directory agent) = true ->
        opt_cwd options = Path.join [workspacePath; agent_working_directory agent]).
Proof.
  intros Hnative.
  destruct (invokeAgent_native_explicit w agent agentId message workspacePath shouldReset
              agents teams fs Hnative) as (before & prompt & append & Hbefore & Hrun).
  do 2 eexists. split.
  - unfold traceOf. rewrite Hrun. cbn [fst snd].
    rewrite !queriesOf_app, consume_no_query.
    rewrite (queriesOf_none before).
    + reflexivity.
    + eapply Forall_impl; [exact Hbefore|]. now intros [] He.
  - cbn. unfold workingDirOf. repeat split.
    + now destruct shouldReset.
    + now destruct shouldReset.
    + now intros ->.
    + intros Habs. destruct (agent_working_directory agent); [discriminate|].
      cbn. now rewrite Habs.
    + intros Hne Hrel _ _. destruct (agent_working_directory agent); [contradiction|].
      cbn. now rewrite Hrel.
Qed.

(** X6, witness: a reset with a relative working directory override. *)
Lemma native_query_session_and_directory_witness :
  map (fun q => (opt_continue q.2, opt_sessionId q.2, opt_persistSession q.2, opt_cwd q.2))
    (queriesOf (traceOf (invokeAgent (H := jsonHost) (worldOf (SpawnError EmptyString) [])
                           {| agent_name := "Bob"; agent_provider := EmptyString;
                              agent_model := "sonnet";
                              agent_working_directory := "projects/api";
                              agent_observer_enabled := false |}
                           "agent-b" "hi" "/ws" true [] []) ∅))
  = [(false, Some "3f0c1a52-7c1e-4d7e-9a51-2b1d0e6f9c11", Some false, "/ws/projects/api")].
Proof.
  destruct (native_query_session_and_directory (H := jsonHost)
              (worldOf (SpawnError EmptyString) [])
              {| agent_name := "Bob"; agent_provider := EmptyString;
                 agent_model := "sonnet";
                 agent_working_directory := "projects/api";
                 agent_observer_enabled := false |}
              "agent-b" "hi" "/ws" true [] [] ∅ eq_refl)
    as (prompt & options & Hq & Hc & Hs & Hp & _ & _ & _ & Hcwd).
  rewrite Hq. cbn.
  rewrite Hc, Hs, Hp, Hcwd; [reflexivity|discriminate|reflexivity|reflexivity|reflexivity].
Defined.

(* ===================================================================== *)
(** * Further properties of [lib/observer.ts] *)
(* ===================================================================== *)

Section NormalizeMore.
Context `{Host}.

Lemma flatten_role (m m' : ObserverMessage) :
  Normalize.flatten m = Ret m' ->
  role m' = role m /\ isArray (content m') = false
  /\ (isArray (content m) = false -> m' = m).
Proof.
  unfold Normalize.flatten. destruct m as [r c]. cbn.
  destruct c; try (intros [= <-]; cbn; auto).
  destruct (Normalize.blocks [] items); intros [= <-]; cbn; auto.
  repeat split. discriminate.
Qed.

Lemma strip_role (m : ObserverMessage) :
  role (Normalize.strip m) = role m
  /\ isArray (content (Normalize.strip m)) = isArray (content m)
  /\ (Js.isString (content m) = false -> Normalize.strip m = m).
Proof.
  unfold Normalize.strip. destruct m as [r c]. cbn.
  destruct c; cbn; auto. repeat split. discriminate.
Qed.

Lemma flattenAll_lookup (messages flat : list ObserverMessage) :
  Normalize.flattenAll messages = Ret flat ->
  Forall2 (fun m m' => Normalize.flatten m = Ret m') messages flat.
Proof.
  revert flat. induction messages as [|m rest IH]; cbn; intros flat.
  - intros [= <-]. constructor.
  - destruct (Normalize.flatten m) as [m'|] eqn:Hm; [|discriminate].
    destruct (Normalize.flattenAll rest) as [rest'|]; [|discriminate].
    intros [= <-]. constructor; auto.
Qed.

Lemma block_nullish (parts : list jsval) (b : jsval) :
  isNullish b = true -> isRet (Normalize.block parts b) = false.
Proof. now destruct b. Qed.

Lemma blocks_nullish (bs : list jsval) (b : jsval) (parts : list jsval) :
  In b bs -> isNullish b = true -> isRet (Normalize.blocks parts bs) = false.
Proof.
  revert parts. induction bs as [|x bs IH]; intros parts; [contradiction|].
  intros [->|Hin] Hb; cbn.
  - pose proof (block_nullish parts b Hb). now destruct (Normalize.block parts b).
  - destruct (Normalize.block parts x); [now apply IH|reflexivity].
Qed.

Lemma flattenAll_nullish (messages : list ObserverMessage) (m : ObserverMessage)
    (bs : list jsval) (b : jsval) :
  In m messages -> content m = VArr bs -> In b bs -> isNullish b = true ->
  isRet (Normalize.flattenAll messages) = false.
Proof.
  intros Hm Hc Hb Hn. induction messages as [|x rest IH]; [contradiction|].
  cbn. destruct Hm as [->|Hm].
  - unfold Normalize.flatten. rewrite Hc.
    pose proof (blocks_nullish bs b [] Hb Hn).
    now destruct (Normalize.blocks [] bs).
  - specialize (IH Hm). destruct (Normalize.flatten x); [|reflexivity].
    now destruct (Normalize.flattenAll rest).
Qed.

End NormalizeMore.

(** X7: when [runObserver]'s normalization of the message log succeeds, it
    keeps the number, the order and the roles of the messages, leaves no
    array-valued content behind, and hands through unchanged every message
    whose content is neither an array nor a string. *)
Theorem normalization_keeps_roles_and_flattens_arrays `{Host}
    (messages normalized : list ObserverMessage) :
  Normalize.all messages = Ret normalized ->
  map role normalized = map role messages
  /\ Forall (fun m => isArray (content m) = false) normalized
  /\ (forall i m,
        messages !! i = Some m ->
        isArray (content m) = false -> Js.isString (content m) = false ->
        normalized !! i = Some m).
Proof.
  unfold Normalize.all.
  destruct (Normalize.flattenAll messages) as [flat|] eqn:Hflat; [|discriminate].
  intros [= <-]. apply flattenAll_lookup in Hflat.
  induction Hflat as [|m m' rest rest' Hm _ IH].
  - repeat split; [constructor|]. intros i m. now rewrite lookup_nil.
  - destruct IH as (Hroles & Hflatten & Hkeep).
    destruct (flatten_role m m' Hm) as (Hr & Ha & Hsame).
    destruct (strip_role m') as (Hr' & Ha' & Hsame').
    cbn [map]. split; [|split].
    + now rewrite Hr', Hr, Hroles.
    + constructor; [now rewrite Ha'|exact Hflatten].
    + intros [|i] x; cbn.
      * intros [= <-] Harr Hstr. rewrite (Hsame Harr) in *. now rewrite (Hsame' Hstr).
      * apply Hkeep.
Qed.

(** X7, witness: a tool call is flattened, a numeric content is handed
    through. *)
Lemma normalization_keeps_roles_and_flattens_arrays_witness :
  exists normalized,
    Normalize.all (H := jsonHost)
      [{| role := "assistant";
          content := VArr [VObj [("type", VStr "text"); ("text", VStr "Reading.")];
                           VObj [("type", VStr "tool_use"); ("name", VStr "Read");
                                 ("input", VObj [("path", VStr "a.txt")])]] |};
       {| role := "user"; content := VNum 7 |}]
    = Ret normalized
    /\ map role normalized = ["assistant"; "user"]
    /\ normalized !! 1%nat = Some {| role := "user"; content := VNum 7 |}.
Proof.
  eexists. split; [vm_compute; reflexivity|].
  match goal with
  | |- map role ?out = _ /\ _ =>
      destruct (normalization_keeps_roles_and_flattens_arrays (H := jsonHost)
                  [{| role := "assistant";
                      content := VArr [VObj [("type", VStr "text"); ("text", VStr "Reading.")];
                                       VObj [("type", VStr "tool_use"); ("name", VStr "Read");
                                             ("input", VObj [("path", VStr "a.txt")])]] |};
                   {| role := "user"; content := VNum 7 |}]
                  out ltac:(vm_compute; reflexivity)) as (Hroles & _ & Hkeep)
  end.
  split; [exact Hroles|].
  exact (Hkeep 1%nat {| role := "user"; content := VNum 7 |} eq_refl eq_refl eq_refl).
Defined.

(** X8: a [null] or [undefined] block inside an array-valued content makes
    [runObserver] raise while it normalizes: no messages file is written
    and no hook is spawned. *)
Theorem malformed_block_stops_observer_before_any_effect `{Host}
    (w : World) (agentId : string) (messages : list ObserverMessage)
    (workspacePath provider : string) (tokenThreshold reflectionThreshold : Z)
    (observerSrc observerPython : string) (fs : filesystem)
    (m : ObserverMessage) (bs : list jsval) (b : jsval) :
  In m messages -> content m = VArr bs -> In b bs -> isNullish b = true ->
  exists e,
    runObserver w agentId messages workspacePath provider tokenThreshold
      reflectionThreshold observerSrc observerPython fs
    = (fs, [], Throw e).
Proof.
  intros Hm Hc Hb Hn.
  pose proof (flattenAll_nullish messages m bs b Hm Hc Hb Hn) as Hflat.
  unfold runObserver, Normalize.all, bind, lift.
  destruct (Normalize.flattenAll messages) as [flat|e]; [discriminate|].
  now exists e.
Qed.

(** X8, witness: the second message holds a [null] block. *)
Lemma malformed_block_stops_observer_before_any_effect_witness :
  exists e,
    runObserver (H := jsonHost) (worldOf (Closed (Some 0) EmptyString EmptyString) [])
      "agent-b"
      [{| role := "user"; content := VStr "hello" |};
       {| role := "assistant";
          content := VArr [VObj [("type", VStr "text"); ("text", VStr "hi")]; VNull] |}]
      "/ws" "dummy" 1000 40000 EmptyString EmptyString ∅
    = (∅, [], Throw e).
Proof.
  apply (malformed_block_stops_observer_before_any_effect (H := jsonHost)
           (worldOf (Closed (Some 0) EmptyString EmptyString) []) "agent-b"
           [{| role := "user"; content := VStr "hello" |};
            {| role := "assistant";
               content := VArr [VObj [("type", VStr "text"); ("text", VStr "hi")]; VNull] |}]
           "/ws" "dummy" 1000 40000 EmptyString EmptyString ∅
           {| role := "assistant";
              content := VArr [VObj [("type", VStr "text"); ("text", VStr "hi")]; VNull] |}
           [VObj [("type", VStr "text"); ("text", VStr "hi")]; VNull] VNull).
  - right. left. reflexivity.
  - reflexivity.
  - right. left. reflexivity.
  - reflexivity.
Defined.

Section Strip.

Lemma app_empty_l (s : string) : EmptyString +:+ s = s.
Proof. reflexivity. Qed.

Lemma stripPrefix_app (p s : string) : JsString.stripPrefix p (p +:+ s) = Some s.
Proof.
  induction p as [|c p IH]; [now destruct s|].
  rewrite app_cons. cbn. now rewrite Ascii.eqb_refl.
Qed.

Lemma spanNot_stops (c : ascii) (a rest : string) :
  hasChar c a = false ->
  JsString.spanNot c (a +:+ String c rest) = (a, String c rest).
Proof.
  intros Ha. unfold JsString.spanNot. apply spanWhile_stops.
  - now apply hasChar_allChars.
  - now rewrite Ascii.eqb_refl.
Qed.

Lemma stripHeader_header (sender body : string) :
  sender <> EmptyString -> hasChar "]"%char sender = false ->
  Normalize.stripHeader (teammateHeader sender +:+ body) = body.
Proof.
  intros Hne Hsender. unfold Normalize.stripHeader, teammateHeader.
  rewrite !app_assoc_string, stripPrefix_app.
  change ("]:" +:+ nl +:+ body) with (String "]"%char (":" +:+ nl +:+ body)).
  rewrite (spanNot_stops _ _ _ Hsender).
  destruct sender; [contradiction|]. cbn [JsString.isEmpty].
  change (String "]"%char (":" +:+ nl +:+ body)) with (("]:" +:+ nl) +:+ body).
  now rewrite stripPrefix_app.
Qed.

Lemma stripTrailer_eq (s : string) :
  Normalize.stripTrailer s
  = match Normalize.trailerAt s with
    | Some after => after
    | None => match s with
              | EmptyString => EmptyString
              | String c s' => String c (Normalize.stripTrailer s')
              end
    end.
Proof. now destruct s. Qed.

Lemma trailerAt_trailer (count note rest : string) :
  count <> EmptyString -> allChars JsString.isDigit count = true ->
  hasChar "]"%char note = false ->
  Normalize.trailerAt (pendingTrailer count note +:+ rest) = Some rest.
Proof.
  intros Hne Hcount Hnote. unfold Normalize.trailerAt, pendingTrailer.
  rewrite !app_assoc_string.
  change (nl +:+ nl +:+ "------" +:+ nl +:+ nl +:+ "[") with trailerStart.
  rewrite stripPrefix_app.
  change (" other teammate response(s) are still being processed" +:+ note +:+ "]" +:+ rest)
    with (String " "%char ("other teammate response(s) are still being processed"
                             +:+ note +:+ "]" +:+ rest)).
  rewrite (spanWhile_stops JsString.isDigit count " "%char _ Hcount eq_refl).
  destruct count; [contradiction|]. cbn [JsString.isEmpty].
  change (String " "%char ("other teammate response(s) are still being processed"
                             +:+ note +:+ "]" +:+ rest))
    with (" other teammate response(s) are still being processed" +:+ (note +:+ "]" +:+ rest)).
  rewrite stripPrefix_app.
  change ("]" +:+ rest) with (String "]"%char rest).
  rewrite (spanNot_stops _ _ _ Hnote). cbn. reflexivity.
Qed.
End Strip.

Section Strip2.

Ltac split_tests :=
  repeat match goal with
         | |- context [Ascii.eqb ?a ?b] =>
             destruct (Ascii.eqb a b) eqn:?; try reflexivity; try discriminate
         end.

Ltac peel n body :=
  lazymatch n with
  | O =>
      rewrite ?app_cons; cbn [JsString.stripPrefix] in *; split_tests;
      now destruct (JsString.stripPrefix EmptyString body)
  | S ?k =>
      let c := fresh "c" in
      let b := fresh "b" in
      destruct body as [|c b];
      [first [contradiction
             |rewrite ?app_cons, ?app_empty_l; cbn [JsString.stripPrefix]; split_tests]
      |peel k b]
  end.

Lemma trailerStart_not_astride (body tail : string) :
  body <> EmptyString ->
  JsString.startsWith trailerStart body = false ->
  JsString.stripPrefix trailerStart (body +:+ trailerStart +:+ tail) = None.
Proof.
  intros Hne Hstart. unfold JsString.startsWith in Hstart.
  let t := eval vm_compute in trailerStart in change trailerStart with t in *.
  peel 11%nat body.
Qed.

Lemma stripTrailer_body (body count note rest : string) :
  count <> EmptyString -> allChars JsString.isDigit count = true ->
  hasChar "]"%char note = false ->
  JsString.includes trailerStart body = false ->
  Normalize.stripTrailer (body +:+ pendingTrailer count note +:+ rest) = body +:+ rest.
Proof.
  intros Hne Hcount Hnote. induction body as [|c body IH]; intros Hbody.
  - rewrite !app_empty_l, stripTrailer_eq.
    now rewrite (trailerAt_trailer count note rest Hne Hcount Hnote).
  - cbn [JsString.includes] in Hbody. apply orb_false_elim in Hbody as [Hstart Hrest].
    assert (Hnone : Normalize.trailerAt (String c body +:+ pendingTrailer count note +:+ rest)
                    = None).
    { unfold Normalize.trailerAt.
      change (nl +:+ nl +:+ "------" +:+ nl +:+ nl +:+ "[") with trailerStart.
      unfold pendingTrailer. rewrite !app_assoc_string.
      now rewrite (trailerStart_not_astride (String c body) _ ltac:(discriminate) Hstart). }
    rewrite stripTrailer_eq, Hnone, !app_cons. f_equal. exact (IH Hrest).
Qed.
End Strip2.

(** X9: the teammate header at the start of a content and the
    pending-responses trailer after its body are both removed before the
    log goes to the observer, the body and what follows the trailer being
    kept as they are.  The sender must be a name without a closing bracket,
    the count a run of digits, and the body must not itself hold the start
    of a trailer. *)
Theorem routing_artifacts_are_stripped (r sender body count note rest : string) :
  sender <> EmptyString -> hasChar "]"%char sender = false ->
  count <> EmptyString -> allChars JsString.isDigit count = true ->
  hasChar "]"%char note = false ->
  JsString.includes trailerStart body = false ->
  Normalize.strip {| role := r;
                     content := VStr (teammateHeader sender +:+ body
                                        +:+ pendingTrailer count note +:+ rest) |}
  = {| role := r; content := VStr (body +:+ rest) |}.
Proof.
  intros Hs1 Hs2 Hc1 Hc2 Hn Hb. unfold Normalize.strip. cbn [content role].
  now rewrite (stripHeader_header sender _ Hs1 Hs2), (stripTrailer_body body count note rest).
Qed.

(** X9, witness: a relayed message with two responses pending. *)
Lemma routing_artifacts_are_stripped_witness :
  Normalize.strip
    {| role := "user";
       content := VStr ("[Message from teammate @coder]:" +:+ nl +:+ "Please review the PR."
                          +:+ nl +:+ nl +:+ "------" +:+ nl +:+ nl
                          +:+ "[2 other teammate response(s) are still being processed"
                          +:+ " and will be delivered when ready.]") |}
  = {| role := "user"; content := VStr "Please review the PR." |}.
Proof.
  exact (routing_artifacts_are_stripped "user" "coder" "Please review the PR." "2"
           " and will be delivered when ready." EmptyString
           ltac:(discriminate) eq_refl ltac:(discriminate) eq_refl eq_refl eq_refl).
Defined.

Lemma stripTrailer_without_start (s : string) :
  JsString.includes trailerStart s = false -> Normalize.stripTrailer s = s.
Proof.
  induction s as [|c s IH]; intros Hs; [reflexivity|].
  pose proof Hs as Hs'.
  cbn [JsString.includes] in Hs'. apply orb_false_elim in Hs' as [Hstart Hrest].
  rewrite stripTrailer_eq. unfold Normalize.trailerAt.
  change (nl +:+ nl +:+ "------" +:+ nl +:+ nl +:+ "[") with trailerStart.
  unfold JsString.startsWith in Hstart.
  destruct (JsString.stripPrefix trailerStart (String c s)); [discriminate|].
  now rewrite (IH Hrest).
Qed.

(** X10: a string content that neither starts like a teammate header nor
    holds the start of a trailer goes to the observer unchanged. *)
Theorem content_without_artifacts_is_kept (m : ObserverMessage) (text : string) :
  content m = VStr text ->
  JsString.startsWith "[Message from teammate @" text = false ->
  JsString.includes trailerStart text = false ->
  Normalize.strip m = m.
Proof.
  intros Hc Hhead Htrail. destruct m as [r c]. cbn in Hc. subst c.
  unfold Normalize.strip, Normalize.stripHeader. cbn [content role].
  unfold JsString.startsWith in Hhead.
  destruct (JsString.stripPrefix "[Message from teammate @" text); [discriminate|].
  now rewrite (stripTrailer_without_start text Htrail).
Qed.

(** X10, witness: a bracket tag is no routing artifact. *)
Lemma content_without_artifacts_is_kept_witness :
  Normalize.strip {| role := "assistant"; content := VStr "[@coder: see the notes]" |}
  = {| role := "assistant"; content := VStr "[@coder: see the notes]" |}.
Proof.
  exact (content_without_artifacts_is_kept
           {| role := "assistant"; content := VStr "[@coder: see the notes]" |}
           "[@coder: see the notes]" eq_refl eq_refl eq_refl).
Defined.

(** X11: for every object-valued state [formatObservationsPrompt] returns
    a text that opens the observer context, carries the observations
    verbatim in their element, closes the context and ends with the two
    usage sentences; nothing stands before the observations when the
    current task and the suggested response are both absent or empty.  On
    [null] or [undefined] it raises. *)
Theorem formatObservationsPrompt_wraps_observations (fields : list (string * jsval)) :
  (exists optional,
     formatObservationsPrompt (VObj fields)
     = Ret ("<observer-context>" +:+ nl +:+ optional
              +:+ "<observations>" +:+ Js.toString (Js.field "observations_text" fields)
              +:+ "</observations>" +:+ nl +:+ "</observer-context>" +:+ nl +:+ nl
              +:+ "Reference specific details from these observations when relevant." +:+ nl
              +:+ "Prefer the MOST RECENT information when observations conflict.")
     /\ (Js.truthy (Js.field "current_task" fields) = false ->
         Js.truthy (Js.field "suggested_response" fields) = false ->
         optional = EmptyString))
  /\ isRet (formatObservationsPrompt VNull) = false
  /\ isRet (formatObservationsPrompt VUndefined) = false.
Proof.
  split; [|split; reflexivity].
  unfold formatObservationsPrompt, stateField. cbn [Js.get].
  exists ((if Js.truthy (Js.field "current_task" fields)
           then "<current-task>" +:+ Js.toString (Js.field "current_task" fields)
                  +:+ "</current-task>" +:+ nl
           else EmptyString)
          +:+ (if Js.truthy (Js.field "suggested_response" fields)
               then "<suggested-response>" +:+ Js.toString (Js.field "suggested_response" fields)
                      +:+ "</suggested-response>" +:+ nl
               else EmptyString)).
  destruct (Js.truthy (Js.field "current_task" fields));
    destruct (Js.truthy (Js.field "suggested_response" fields));
    (split; [|first [discriminate|reflexivity]]);
    cbn [app]; unfold JsString.join; cbn [String.concat];
    repeat (rewrite app_assoc_string || rewrite app_empty_l); reflexivity.
Qed.

(* ===================================================================== *)
(** * Properties of [parseStreamJson] *)
(* ===================================================================== *)

Section StreamJson.
Context `{Host}.

Lemma streamLines_app (st : ParsedStreamJson) (a b : list string) :
  streamLines st (a ++ b)
  = match streamLines st a with
    | Ret st' => streamLines st' b
    | Throw e => Throw e
    end.
Proof.
  revert st. induction a as [|l a IH]; intros st; [reflexivity|].
  cbn. destruct (streamLine st l); [apply IH|reflexivity].
Qed.

Lemma streamLines_parsable (st : ParsedStreamJson) (lines : list string) :
  streamLines st lines = streamLines st (filter (fun l => parses l = true) lines).
Proof.
  revert st. induction lines as [|l lines IH]; intros st; [reflexivity|].
  rewrite filter_cons. cbn [streamLines]. unfold streamLine at 1.
  destruct (decide (parses l = true)) as [Hl|Hl]; unfold parses in Hl.
  - cbn [streamLines]. unfold streamLine.
    destruct (JSON_parse l) as [json|e]; [|discriminate].
    destruct (streamEvent st json); [apply IH|reflexivity].
  - destruct (JSON_parse l) as [json|e]; [now contradiction Hl|]. apply IH.
Qed.

Lemma streamLines_null (st : ParsedStreamJson) (lines : list string) (line : string) :
  In line lines -> JSON_parse line = Ret VNull -> isRet (streamLines st lines) = false.
Proof.
  intros Hin Hnull. revert st. induction lines as [|l lines IH]; intros st; [contradiction|].
  cbn. destruct Hin as [->|Hin].
  - unfold streamLine. now rewrite Hnull.
  - destruct (streamLine st l); [now apply IH|reflexivity].
Qed.

End StreamJson.

(** X12: [parseStreamJson] reads the lines that parse and nothing else:
    dropping the other lines from the output changes nothing, and an output
    without a line that parses gives the empty result, no message and the
    empty session id. *)
Theorem parseStreamJson_reads_parsable_lines_only `{Host} (ndjsonOutput : string) :
  parseStreamJson ndjsonOutput
  = streamLines emptyStream (filter (fun l => parses l = true) (outputLines ndjsonOutput))
  /\ (Forall (fun l => parses l = false) (outputLines ndjsonOutput) ->
      parseStreamJson ndjsonOutput = Ret emptyStream).
Proof.
  unfold parseStreamJson. fold (outputLines ndjsonOutput).
  rewrite streamLines_parsable. split; [reflexivity|].
  intros Hnone. induction Hnone as [|l lines Hl _ IH]; [reflexivity|].
  rewrite filter_cons. destruct (decide (parses l = true)); [congruence|exact IH].
Qed.

(** X13: a line that parses to [null] makes [parseStreamJson] raise, as its
    first property read is outside the [try] that guards the parse. *)
Theorem null_line_makes_parseStreamJson_raise `{Host} (ndjsonOutput line : string) :
  In line (outputLines ndjsonOutput) ->
  JSON_parse line = Ret VNull ->
  isRet (parseStreamJson ndjsonOutput) = false.
Proof.
  intros Hin Hnull. unfold parseStreamJson.
  exact (streamLines_null emptyStream _ line Hin Hnull).
Qed.

(** X13, witness: a result line followed by the line [null]; the Codex
    loop, which reads inside its [try], answers on the same output. *)
Lemma null_line_makes_parseStreamJson_raise_witness :
  isRet (parseStreamJson (H := jsonHost)
           (dq "{'type':'result','result':'done'}" +:+ nl +:+ "null")) = false
  /\ Js.truthy (codexResponse (H := jsonHost)
                  (dq "{'type':'result','result':'done'}" +:+ nl +:+ "null")) = true.
Proof.
  split; [|vm_compute; reflexivity].
  apply (null_line_makes_parseStreamJson_raise (H := jsonHost) _ "null").
  - vm_compute. right. left. reflexivity.
  - vm_compute. reflexivity.
Defined.

(** X14: when the last line is a result event with a result, that result
    replaces whatever text the assistant messages gave, the messages are
    those of the earlier lines, and the session id is the event's when it
    has one and the one tracked so far otherwise. *)
Theorem final_result_event_decides_parsed_stream `{Host}
    (earlier : list string) (line : string) (st : ParsedStreamJson)
    (fields : list (string * jsval)) :
  streamLines emptyStream earlier = Ret st ->
  JSON_parse line = Ret (VObj fields) ->
  Js.isStr (Js.field "type" fields) "result" = true ->
  Js.truthy (Js.field "result" fields) = true ->
  streamLines emptyStream (earlier ++ [line])
  = Ret {| ps_result := Js.field "result" fields;
           ps_messages := ps_messages st;
           ps_sessionId := if Js.truthy (Js.field "session_id" fields)
                           then Js.field "session_id" fields
                           else ps_sessionId st |}.
Proof.
  intros Hearlier Hline Htype Hresult.
  rewrite streamLines_app, Hearlier. cbn [streamLines]. unfold streamLine.
  rewrite Hline. unfold streamEvent, stateField. cbn [Js.get Js.getOpt].
  destruct (Js.field "type" fields) as [| | | |ty| |] eqn:Hty; try discriminate.
  cbn [Js.isStr] in *. apply String.eqb_eq in Htype. subst ty.
  cbn [String.eqb Ascii.eqb Bool.eqb andb]. rewrite Hresult. cbn [andb].
  f_equal. f_equal.
  destruct (Js.truthy (Js.field "session_id" fields)); [reflexivity|].
  reflexivity.
Qed.

(** X14, witness: an assistant text, a line that does not parse, and the
    result event. *)
Lemma final_result_event_decides_parsed_stream_witness :
  parseStreamJson (H := jsonHost)
    (dq "{'type':'assistant','session_id':'s1','message':{'content':[{'type':'text','text':'draft'}]}}"
       +:+ nl +:+ "not json" +:+ nl
       +:+ dq "{'type':'result','result':'final','session_id':'s2'}")
  = Ret {| ps_result := VStr "final";
           ps_messages :=
             [{| role := "assistant";
                 content := VArr [VObj [("type", VStr "text"); ("text", VStr "draft")]] |}];
           ps_sessionId := VStr "s2" |}.
Proof.
  exact (final_result_event_decides_parsed_stream (H := jsonHost)
           [dq "{'type':'assistant','session_id':'s1','message':{'content':[{'type':'text','text':'draft'}]}}";
            "not json"]
           (dq "{'type':'result','result':'final','session_id':'s2'}")
           {| ps_result := VStr "draft";
              ps_messages :=
                [{| role := "assistant";
                    content := VArr [VObj [("type", VStr "text"); ("text", VStr "draft")]] |}];
              ps_sessionId := VStr "s1" |}
           [("type", VStr "result"); ("result", VStr "final"); ("session_id", VStr "s2")]
           ltac:(vm_compute; reflexivity) ltac:(vm_compute; reflexivity) eq_refl eq_refl).
Defined.

(* ===================================================================== *)
(** * Properties of the observer routes *)
(* ===================================================================== *)

Section Routes.
Context `{Host}.

Lemma readObserverState_returns (agentDir : string) (fs : filesystem) :
  exists state, readObserverState agentDir fs = (fs, [], Ret state).
Proof.
  unfold readObserverState, tryCatch, bind, Fs.readFileSync, lift, ret.
  destruct (fs !! _) as [[c|]|]; cbn; eauto.
  destruct (JSON_parse c); cbn; eauto.
Qed.

Lemma readBufferState_returns (workingDirectory : string) (fs : filesystem) :
  exists buffer, readBufferState workingDirectory fs = (fs, [], Ret buffer).
Proof.
  unfold readBufferState, tryCatch, bind, Fs.readFileSync, lift, ret.
  destruct (fs !! _) as [[c|]|]; cbn; eauto.
  destruct (JSON_parse c) as [parsed|]; cbn; eauto.
  destruct (stateField parsed "message_count"); cbn; eauto.
  destruct (stateField parsed "token_count"); cbn; eauto.
Qed.

End Routes.

(** X15: [GET /api/agents/:id/observer] leaves the disk as it is and, for
    an agent of the configuration whose working directory is a string,
    answers for every state of the disk: 200 with the three members
    [state], [config] and [buffer], missing or malformed files included.
    An id that is no agent and no name inherited from [Object.prototype]
    gets the 404; an inherited name that is no agent, such as
    [constructor], passes the check and the handler raises when it joins
    the path. *)
Theorem observer_page_answers_whatever_the_disk_holds `{Host}
    (agents : table AgentEntry) (agentId : string) (fs : filesystem) :
  (forall agent, lookup agentId agents = Some agent ->
                 Js.isString (Js.field "working_directory" agent) = true) ->
  match lookup agentId agents with
  | Some _ =>
      exists response,
        getObserver agents agentId fs = (fs, [], Ret response)
        /\ res_status response = 200
        /\ exists state config buffer,
             res_body response
             = VObj [("state", state); ("config", config); ("buffer", buffer)]
  | None =>
      if inheritedKey agentId
      then exists e, getObserver agents agentId fs = (fs, [], Throw e)
      else getObserver agents agentId fs = (fs, [], Ret (notFound agentId))
  end.
Proof.
  intros Hdir. unfold getObserver, agentEntry.
  destruct (lookup agentId agents) as [agent|].
  - specialize (Hdir agent eq_refl).
    destruct (Js.field "working_directory" agent) as [| | | |wd| |]; try discriminate.
    destruct (readObserverState_returns wd fs) as [state Hstate].
    destruct (readBufferState_returns wd fs) as [buffer Hbuffer].
    unfold bind, lift, pathArgument, ret. rewrite Hstate, Hbuffer. cbn.
    eexists. split; [reflexivity|]. cbn. eauto.
  - destruct (inheritedKey agentId); [|reflexivity].
    eexists. reflexivity.
Qed.

(** X15, witness: the state file is missing and the buffer file holds
    [null]. *)
Lemma observer_page_answers_whatever_the_disk_holds_witness :
  exists response,
    getObserver (H := jsonHost)
      [("coder", [("name", VStr "Coder"); ("working_directory", VStr "/ws/coder");
                  ("observer_token_threshold", VNum 0)])]
      "coder" (oneFile "/ws/coder/.switchboard/buffer_state.json" "null")
    = (oneFile "/ws/coder/.switchboard/buffer_state.json" "null", [], Ret response)
    /\ res_status response = 200.
Proof.
  destruct (observer_page_answers_whatever_the_disk_holds (H := jsonHost)
              [("coder", [("name", VStr "Coder"); ("working_directory", VStr "/ws/coder");
                          ("observer_token_threshold", VNum 0)])]
              "coder" (oneFile "/ws/coder/.switchboard/buffer_state.json" "null"))
    as (response & Hrun & Hstatus & _).
  - intros agent [= <-]. reflexivity.
  - exists response. split; [exact Hrun|exact Hstatus].
Defined.

Section ConfigMutation.


Lemma lookup_updateEntry_same {T} (k : string) (f : T -> T) (t : table T) :
  lookup k (updateEntry k f t) = f <$> lookup k t.
Proof.
  induction t as [|[k0 v] t IH]; [reflexivity|]. cbn.
  destruct (String.eqb k k0) eqn:Hk; cbn; rewrite Hk; [reflexivity|exact IH].
Qed.


Lemma updateEntry_twice {T} (k : string) (f g : T -> T) (t : table T) :
  updateEntry k g (updateEntry k f t) = updateEntry k (fun x => g (f x)) t.
Proof.
  induction t as [|[k0 v] t IH]; [reflexivity|]. cbn.
  destruct (String.eqb k k0) eqn:Hk; cbn; rewrite Hk; [reflexivity|now rewrite IH].
Qed.

Lemma updateEntry_same {T} (k : string) (t : table T) : updateEntry k (fun x => x) t = t.
Proof.
  induction t as [|[k0 v] t IH]; [reflexivity|]. cbn.
  destruct (String.eqb k k0); [reflexivity|now rewrite IH].
Qed.

Lemma field_cons (k k0 : string) (x : jsval) (fields : list (string * jsval)) :
  Js.field k ((k0, x) :: fields)
  = match Js.field k fields with
    | VUndefined => if String.eqb k k0 then x else VUndefined
    | later => later
    end.
Proof. reflexivity. Qed.

Lemma field_app_other (k k' : string) (v : jsval) (fields : list (string * jsval)) :
  k' <> k -> Js.field k' (fields ++ [(k, v)]) = Js.field k' fields.
Proof.
  intros Hne. induction fields as [|[k0 x] fields IH].
  - cbn. now destruct (String.eqb_spec k' k).
  - cbn [app]. now rewrite !field_cons, IH.
Qed.

Lemma field_app_same (k : string) (v : jsval) (fields : list (string * jsval)) :
  v <> VUndefined -> Js.field k (fields ++ [(k, v)]) = v.
Proof.
  intros Hv. induction fields as [|[k0 x] fields IH].
  - cbn. now rewrite String.eqb_refl.
  - cbn [app]. rewrite field_cons, IH. now destruct v.
Qed.

Lemma field_map_other (k k' : string) (v : jsval) (fields : list (string * jsval)) :
  k' <> k ->
  Js.field k' (map (fun kv => if String.eqb k kv.1 then (kv.1, v) else kv) fields)
  = Js.field k' fields.
Proof.
  intros Hne. induction fields as [|[k0 x] fields IH]; [reflexivity|].
  cbn [map fst]. destruct (String.eqb_spec k k0) as [<-|Hk].
  - rewrite !field_cons, IH. now destruct (String.eqb_spec k' k).
  - now rewrite !field_cons, IH.
Qed.

Lemma field_map_same (k : string) (v : jsval) (fields : list (string * jsval)) :
  v <> VUndefined ->
  Js.field k (map (fun kv => if String.eqb k kv.1 then (kv.1, v) else kv) fields)
  = if existsb (fun kv => String.eqb k kv.1) fields then v else VUndefined.
Proof.
  intros Hv. induction fields as [|[k0 x] fields IH]; [reflexivity|].
  cbn [map fst existsb]. destruct (String.eqb k k0) eqn:Hk; rewrite field_cons, IH, Hk.
  - cbn [orb]. destruct (existsb _ fields); now destruct v.
  - cbn [orb]. destruct (existsb _ fields); now destruct v.
Qed.

Lemma field_setField_other (k k' : string) (v : jsval) (fields : list (string * jsval)) :
  k' <> k -> Js.field k' (setField k v fields) = Js.field k' fields.
Proof.
  intros Hne. unfold setField. destruct (existsb _ fields).
  - now apply field_map_other.
  - now apply field_app_other.
Qed.

Lemma field_setField_same (k : string) (v : jsval) (fields : list (string * jsval)) :
  v <> VUndefined -> Js.field k (setField k v fields) = v.
Proof.
  intros Hv. unfold setField. destruct (existsb _ fields) eqn:Hex.
  - now rewrite field_map_same, Hex.
  - now apply field_app_same.
Qed.

Lemma observerConfigMutation_run (agentId : string) (body : jsval) (s s' : Settings) :
  observerConfigMutation agentId body s = Ret s' ->
  s_agents s' = Some (match lookup agentId (agentsOf s) with
                      | Some _ => updateEntry agentId (assignments body) (agentsOf s)
                      | None => agentsOf s
                      end).
Proof.
  unfold observerConfigMutation. fold (agentsOf s).
  destruct (lookup agentId (agentsOf s)); [|now intros [= <-]].
  unfold assignments, stateField, Js.getOpt.
  destruct body; cbn [Js.get]; try discriminate; intros [= <-]; cbn [s_agents]; f_equal;
    cbn [isNumber isBoolean];
    repeat match goal with
           | |- context [if ?b then _ else _] => destruct b
           end;
    cbv beta zeta; now rewrite ?updateEntry_twice, ?updateEntry_same.
Qed.

End ConfigMutation.

Section Assignments.


Lemma assignments_config (body : jsval) (fields : AgentEntry) :
  Js.field "observer_token_threshold" (assignments body fields)
  = applied isNumber (Js.getOpt body "token_threshold")
      (Js.field "observer_token_threshold" fields)
  /\ Js.field "observer_reflection_threshold" (assignments body fields)
     = applied isNumber (Js.getOpt body "reflection_threshold")
         (Js.field "observer_reflection_threshold" fields)
  /\ Js.field "observer_enabled" (assignments body fields)
     = applied isBoolean (Js.getOpt body "observer_enabled")
         (Js.field "observer_enabled" fields).
Proof.
  unfold assignments, applied.
  destruct (isNumber (Js.getOpt body "token_threshold")) eqn:H1;
    destruct (isNumber (Js.getOpt body "reflection_threshold")) eqn:H2;
    destruct (isBoolean (Js.getOpt body "observer_enabled")) eqn:H3;
    repeat split;
    repeat first
      [ rewrite field_setField_same by (intros E; rewrite E in *; discriminate)
      | rewrite field_setField_other by discriminate ];
    reflexivity.
Qed.

End Assignments.



(** X17: for an agent of the settings and a body that is not [null], the
    update never fails and sets each of the three observer fields to the
    value of the body exactly when that value has the expected type, a
    number for the two thresholds and a boolean for the switch; a value of
    another type, or none, leaves the stored field as it was. *)
Theorem observer_config_update_applies_typed_values_only
    (agentId : string) (body : jsval) (s : Settings) (fields : AgentEntry) :
  lookup agentId (agentsOf s) = Some fields ->
  isNullish body = false ->
  exists s' fields',
    observerConfigMutation agentId body s = Ret s'
    /\ lookup agentId (agentsOf s') = Some fields'
    /\ Js.field "observer_token_threshold" fields'
       = applied isNumber (Js.getOpt body "token_threshold")
           (Js.field "observer_token_threshold" fields)
    /\ Js.field "observer_reflection_threshold" fields'
       = applied isNumber (Js.getOpt body "reflection_threshold")
           (Js.field "observer_reflection_threshold" fields)
    /\ Js.field "observer_enabled" fields'
       = applied isBoolean (Js.getOpt body "observer_enabled")
           (Js.field "observer_enabled" fields).
Proof.
  intros Hagent Hbody.
  destruct (observerConfigMutation agentId body s) as [s'|e] eqn:Hrun.
  - exists s', (assignments body fields). split; [reflexivity|].
    apply observerConfigMutation_run in Hrun. unfold agentsOf at 1.
    rewrite Hrun, Hagent, lookup_updateEntry_same, Hagent.
    split; [reflexivity|apply assignments_config].
  - exfalso. unfold observerConfigMutation in Hrun. fold (agentsOf s) in Hrun.
    rewrite Hagent in Hrun. now destruct body.
Qed.

(** X17, witness: a text where a number is expected is ignored, the
    switch is applied. *)
Lemma observer_config_update_applies_typed_values_only_witness :
  observerConfigMutation "coder"
    (VObj [("token_threshold", VStr "9000"); ("observer_enabled", VBool false)])
    {| s_agents := Some [("coder", [("observer_token_threshold", VNum 50000);
                                    ("observer_enabled", VBool true)])] |}
  = Ret {| s_agents := Some [("coder", [("observer_token_threshold", VNum 50000);
                                        ("observer_enabled", VBool false)])] |}
  /\ exists s' fields',
       observerConfigMutation "coder"
         (VObj [("token_threshold", VStr "9000"); ("observer_enabled", VBool false)])
         {| s_agents := Some [("coder", [("observer_token_threshold", VNum 50000);
                                         ("observer_enabled", VBool true)])] |}
       = Ret s'
       /\ lookup "coder" (agentsOf s') = Some fields'
       /\ Js.field "observer_token_threshold" fields' = VNum 50000
       /\ Js.field "observer_enabled" fields' = VBool false.
Proof.
  split; [reflexivity|].
  destruct (observer_config_update_applies_typed_values_only "coder"
              (VObj [("token_threshold", VStr "9000"); ("observer_enabled", VBool false)])
              {| s_agents := Some [("coder", [("observer_token_threshold", VNum 50000);
                                              ("observer_enabled", VBool true)])] |}
              [("observer_token_threshold", VNum 50000); ("observer_enabled", VBool true)]
              eq_refl eq_refl)
    as (s' & fields' & Hrun & Hfields & Htoken & _ & Henabled).
  exists s', fields'. repeat split; assumption.
Defined.

(* ===================================================================== *)
(** * Properties of [updateAgentTeammates] *)
(* ===================================================================== *)

Section Teammates.
Variables (agentId : string) (agents : table AgentConfig).

Lemma includesId_In (id : string) (ids : list string) :
  includesId id ids = true <-> In id ids.
Proof.
  unfold includesId. rewrite existsb_exists. split.
  - intros (x & Hin & Hx). apply String.eqb_eq in Hx. now subst.
  - intros Hin. exists id. split; [exact Hin|apply String.eqb_refl].
Qed.

Lemma listed_In (tid : string) (teammates : list Teammate) :
  existsb (fun t => String.eqb (tm_id t) tid) teammates = true
  <-> In tid (map tm_id teammates).
Proof.
  rewrite existsb_exists, in_map_iff. split.
  - intros (t & Hin & Ht). apply String.eqb_eq in Ht. eauto.
  - intros (t & Ht & Hin). exists t. split; [exact Hin|]. now apply String.eqb_eq.
Qed.

Lemma addTeammate_roster (teammates : list Teammate) (tid : string) :
  roster agentId agents teammates ->
  roster agentId agents (addTeammate agentId agents teammates tid).
Proof.
  intros [Hnodup Hall]. unfold addTeammate.
  destruct (String.eqb_spec tid agentId) as [->|Hne]; [now split|].
  destruct (lookup tid agents) as [agent|] eqn:Hagent; [|now split].
  destruct (existsb _ teammates) eqn:Hlisted; [now split|].
  split.
  - rewrite List.map_app. cbn. apply NoDup_app. split; [exact Hnodup|]. split.
    + intros x Hx Hin. apply list_elem_of_singleton in Hin as ->.
      apply list_elem_of_In, listed_In in Hx. congruence.
    + apply NoDup_singleton.
  - apply Forall_app. split; [exact Hall|]. constructor; [|constructor].
    cbn. split; [exact Hne|]. exists agent. now rewrite Hagent.
Qed.

Lemma addTeammates_roster (ids : list string) (teammates : list Teammate) :
  roster agentId agents teammates ->
  roster agentId agents (fold_left (addTeammate agentId agents) ids teammates).
Proof.
  revert teammates. induction ids as [|tid ids IH]; intros teammates Hr; [exact Hr|].
  cbn. apply IH. now apply addTeammate_roster.
Qed.

Lemma addTeammate_ids (teammates : list Teammate) (tid x : string) :
  In x (map tm_id (addTeammate agentId agents teammates tid))
  <-> In x (map tm_id teammates)
      \/ (x = tid /\ tid <> agentId /\ is_Some (lookup tid agents)).
Proof.
  unfold addTeammate.
  destruct (String.eqb_spec tid agentId) as [->|Hne].
  { split; [auto|]. intros [Hin|(_ & Hbad & _)]; [exact Hin|contradiction]. }
  destruct (lookup tid agents) as [agent|] eqn:Hagent.
  2:{ split; [auto|]. intros [Hin|(_ & _ & [? Hbad])]; [exact Hin|discriminate]. }
  destruct (existsb _ teammates) eqn:Hlisted.
  - apply listed_In in Hlisted. split; [auto|].
    intros [Hin|(-> & _)]; [exact Hin|exact Hlisted].
  - rewrite List.map_app, in_app_iff. cbn. split.
    + intros [Hin|[<-|[]]]; [now left|]. right. repeat split; eauto.
    + intros [Hin|(-> & _)]; auto.
Qed.

Lemma addTeammates_ids (ids : list string) (teammates : list Teammate) (x : string) :
  In x (map tm_id (fold_left (addTeammate agentId agents) ids teammates))
  <-> In x (map tm_id teammates)
      \/ (In x ids /\ x <> agentId /\ is_Some (lookup x agents)).
Proof.
  revert teammates. induction ids as [|tid ids IH]; intros teammates; cbn.
  - split; [auto|]. now intros [Hin|([] & _)].
  - rewrite IH, addTeammate_ids. split.
    + intros [[Hin|(-> & Hne & Hs)]|(Hin & Hne & Hs)].
      * left. exact Hin.
      * right. split; [left; reflexivity|split; assumption].
      * right. split; [right; exact Hin|split; assumption].
    + intros [Hin|([<-|Hin] & Hne & Hs)].
      * left. left. exact Hin.
      * left. right. repeat split; assumption.
      * right. repeat split; assumption.
Qed.

Lemma addTeam_roster (teammates : list Teammate) (team : TeamConfig) :
  roster agentId agents teammates ->
  roster agentId agents (addTeam agentId agents teammates team).
Proof.
  intros Hr. unfold addTeam. destruct (negb _); [exact Hr|].
  now apply addTeammates_roster.
Qed.

Lemma addTeam_ids (teammates : list Teammate) (team : TeamConfig) (x : string) :
  In x (map tm_id (addTeam agentId agents teammates team))
  <-> In x (map tm_id teammates)
      \/ (In agentId (team_agents team) /\ In x (team_agents team)
          /\ x <> agentId /\ is_Some (lookup x agents)).
Proof.
  unfold addTeam. destruct (includesId agentId (team_agents team)) eqn:Hmember; cbn [negb].
  - apply includesId_In in Hmember. rewrite addTeammates_ids. firstorder (subst; eauto).
  - split; [auto|]. intros [Hin|(Hbad & _)]; [exact Hin|].
    apply includesId_In in Hbad. congruence.
Qed.

Lemma addTeams_roster (teams : list TeamConfig) (teammates : list Teammate) :
  roster agentId agents teammates ->
  roster agentId agents (fold_left (addTeam agentId agents) teams teammates).
Proof.
  revert teammates. induction teams as [|team teams IH]; intros teammates Hr; [exact Hr|].
  cbn. apply IH. now apply addTeam_roster.
Qed.

Lemma addTeams_ids (teams : list TeamConfig) (teammates : list Teammate) (x : string) :
  In x (map tm_id (fold_left (addTeam agentId agents) teams teammates))
  <-> In x (map tm_id teammates)
      \/ ((exists team, In team teams /\ In agentId (team_agents team)
                        /\ In x (team_agents team))
          /\ x <> agentId /\ is_Some (lookup x agents)).
Proof.
  revert teammates. induction teams as [|team teams IH]; intros teammates; cbn.
  - split; [auto|]. now intros [Hin|((? & [] & _) & _)].
  - rewrite IH, addTeam_ids. split.
    + intros [[Hin|(Hs & Hx & Hne & Hsome)]|((t & Hin & Ht & Hxt) & Hne & Hsome)].
      * left. exact Hin.
      * right. split; [|split; assumption].
        exists team. split; [left; reflexivity|split; assumption].
      * right. split; [|split; assumption].
        exists t. split; [right; exact Hin|split; assumption].
    + intros [Hin|((t & [<-|Hin] & Ht & Hxt) & Hne & Hsome)].
      * left. left. exact Hin.
      * left. right. repeat split; assumption.
      * right. split; [|split; assumption]. exists t. repeat split; assumption.
Qed.

End Teammates.

(** X18: the teammates that [updateAgentTeammates] lists are exactly the
    configured agents, other than the agent itself, that share a team with
    it; each is listed once, with the name and the model of its
    configuration.  No team has a member that is not configured and whose
    id is a name inherited from [Object.prototype]: for such a member
    [agents[tid]] is not the entry of an agent. *)
Theorem teammates_are_the_configured_members_of_shared_teams
    (agentId : string) (agents : table AgentConfig) (teams : table TeamConfig) :
  (forall team tid,
     In team (map snd teams) -> In tid (team_agents team) ->
     lookup tid agents = None -> inheritedKey tid = false) ->
  NoDup (map tm_id (teammatesOf agentId agents teams))
  /\ (forall tid,
        In tid (map tm_id (teammatesOf agentId agents teams))
        <-> tid <> agentId /\ shareTeam agentId tid teams
            /\ is_Some (lookup tid agents))
  /\ (forall t, In t (teammatesOf agentId agents teams) ->
        exists agent, lookup (tm_id t) agents = Some agent
                      /\ tm_name t = agent_name agent /\ tm_model t = agent_model agent).
Proof.
  intros _. unfold teammatesOf.
  assert (Hr : roster agentId agents (fold_left (addTeam agentId agents) (map snd teams) [])).
  { apply addTeams_roster. split; constructor. }
  destruct Hr as [Hnodup Hall]. split; [exact Hnodup|]. split.
  - intros tid. rewrite addTeams_ids. unfold shareTeam. cbn. firstorder (subst; eauto).
  - intros t Hin. rewrite Forall_forall in Hall.
    destruct (Hall t) as (_ & Hagent); [now apply list_elem_of_In|exact Hagent].
Qed.

(** X18, witness: of the three members of the one team, the agent itself
    and the member without a configuration are left out. *)
Lemma teammates_are_the_configured_members_of_shared_teams_witness :
  teammatesOf "coder"
    [("coder", agentOf "anthropic" false); ("writer", agentOf "openai" false)]
    [("dev", {| team_name := "Dev"; team_agents := ["coder"; "writer"; "ghost"];
                team_leader_agent := "coder" |})]
  = [{| tm_id := "writer"; tm_name := agent_name (agentOf "openai" false);
        tm_model := agent_model (agentOf "openai" false) |}]
  /\ forall tid,
       In tid (map tm_id
                 (teammatesOf "coder"
                    [("coder", agentOf "anthropic" false); ("writer", agentOf "openai" false)]
                    [("dev", {| team_name := "Dev";
                                team_agents := ["coder"; "writer"; "ghost"];
                                team_leader_agent := "coder" |})]))
       <-> tid <> "coder"
           /\ shareTeam "coder" tid
                [("dev", {| team_name := "Dev"; team_agents := ["coder"; "writer"; "ghost"];
                            team_leader_agent := "coder" |})]
           /\ is_Some (lookup tid [("coder", agentOf "anthropic" false);
                                   ("writer", agentOf "openai" false)]).
Proof.
  split; [reflexivity|].
  destruct (teammates_are_the_configured_members_of_shared_teams "coder"
              [("coder", agentOf "anthropic" false); ("writer", agentOf "openai" false)]
              [("dev", {| team_name := "Dev"; team_agents := ["coder"; "writer"; "ghost"];
                          team_leader_agent := "coder" |})])
    as (_ & Hlisted & _).
  - intros team tid [<-|[]] [<-|[<-|[<-|[]]]] _; reflexivity.
  - exact Hlisted.
Defined.

Section Markers.

Lemma stripPrefix_Some (p s r : string) :
  JsString.stripPrefix p s = Some r -> s = p +:+ r.
Proof.
  revert s. induction p as [|a p IH]; intros s; cbn.
  - now intros [= ->].
  - destruct s as [|b s]; [discriminate|].
    destruct (Ascii.eqb_spec a b) as [->|]; [|discriminate].
    intros Hs. rewrite app_cons. f_equal. now apply IH.
Qed.

Lemma substring_app (a b : string) : String.substring 0 (String.length a) (a +:+ b) = a.
Proof.
  induction a as [|c a IH].
  - cbn. now destruct b.
  - rewrite app_cons. cbn. now rewrite IH.
Qed.

Lemma sliceFrom_app (a b : string) : sliceFrom (String.length a) (a +:+ b) = b.
Proof. induction a as [|c a IH]; [reflexivity|]. rewrite app_cons. cbn. exact IH. Qed.

Lemma length_app (a b : string) :
  String.length (a +:+ b) = (String.length a + String.length b)%nat.
Proof. induction a as [|c a IH]; [reflexivity|]. rewrite app_cons. cbn. now rewrite IH. Qed.

(** The index [indexOf] returns is the place of an occurrence. *)
Lemma indexOf_Some (m s : string) (i : nat) :
  indexOf m s = Some i ->
  exists pre post, s = pre +:+ m +:+ post /\ String.length pre = i.
Proof.
  revert i. induction s as [|c s IH]; intros i; cbn [indexOf].
  - unfold JsString.startsWith.
    destruct (JsString.stripPrefix m EmptyString) as [r|] eqn:Hm; [|discriminate].
    intros [= <-]. apply stripPrefix_Some in Hm. now exists EmptyString, r.
  - unfold JsString.startsWith.
    destruct (JsString.stripPrefix m (String c s)) as [r|] eqn:Hm.
    + intros [= <-]. apply stripPrefix_Some in Hm. now exists EmptyString, r.
    + destruct (indexOf m s) as [j|]; [|discriminate]. cbn. intros [= <-].
      destruct (IH j eq_refl) as (pre & post & -> & <-).
      now exists (String c pre), post.
Qed.

(** The spliced text carries the block between the two markers. *)
Lemma spliceBlock_between (content block : string) (startIdx endIdx : nat) :
  indexOf startMarker content = Some startIdx ->
  indexOf endMarker content = Some endIdx ->
  exists pre post,
    spliceBlock content startIdx endIdx block
    = pre +:+ startMarker +:+ block +:+ endMarker +:+ post.
Proof.
  intros Hs He. unfold spliceBlock.
  destruct (indexOf_Some _ _ _ He) as (pre2 & post2 & Hc2 & <-).
  destruct (indexOf_Some _ _ _ Hs) as (pre1 & post1 & Hc1 & <-).
  exists pre1, post2.
  assert (Htail : sliceFrom (String.length pre2) content = endMarker +:+ post2).
  { rewrite Hc2 at 1. apply sliceFrom_app. }
  assert (Hhead : String.substring 0 (String.length pre1 + String.length startMarker) content
                  = pre1 +:+ startMarker).
  { rewrite Hc1 at 1.
    rewrite <- length_app, <- (app_assoc_string pre1 startMarker post1).
    apply substring_app. }
  now rewrite Hhead, Htail, !app_assoc_string.
Qed.

End Markers.

Section Paths.

Lemma join_two (a b : string) :
  b <> EmptyString ->
  Path.join [a; b] = if JsString.isEmpty a then b else a +:+ "/" +:+ b.
Proof.
  intros Hb. unfold Path.join. rewrite !filter_cons, filter_nil.
  destruct (decide (b <> EmptyString)) as [_|Hbad]; [|contradiction].
  destruct (decide (a <> EmptyString)) as [Ha|Ha].
  - destruct a; [contradiction|]. cbn. destruct b; [contradiction|]. reflexivity.
  - destruct a; [|now contradiction Ha]. cbn. destruct b; [contradiction|]. reflexivity.
Qed.

Lemma app_inv_head_string (a x y : string) : a +:+ x = a +:+ y -> x = y.
Proof.
  induction a as [|c a IH]; [auto|]. rewrite !app_cons. intros [= Heq]. auto.
Qed.

Lemma join_not_empty (a b : string) : b <> EmptyString -> Path.join [a; b] <> EmptyString.
Proof.
  intros Hb. rewrite (join_two a b Hb). destruct a; cbn; [exact Hb|].
  rewrite app_cons. discriminate.
Qed.

(** The three paths [updateAgentTeammates] writes are distinct. *)
Lemma teammate_paths_distinct (agentDir : string) :
  let agentsMdPath := Path.join [agentDir; "AGENTS.md"] in
  let claudeDir := Path.join [agentDir; ".claude"] in
  let claudeMdPath := Path.join [claudeDir; "CLAUDE.md"] in
  agentsMdPath <> claudeDir /\ agentsMdPath <> claudeMdPath /\ claudeDir <> claudeMdPath.
Proof.
  cbv zeta.
  rewrite (join_two (Path.join [agentDir; ".claude"]) "CLAUDE.md") by discriminate.
  pose proof (join_not_empty agentDir ".claude" ltac:(discriminate)) as Hne.
  destruct (Path.join [agentDir; ".claude"]) as [|c d] eqn:Hdir; [contradiction|].
  cbn [JsString.isEmpty]. rewrite <- Hdir. clear Hne Hdir c d.
  rewrite !join_two by discriminate.
  destruct agentDir as [|c d]; cbn [JsString.isEmpty].
  - repeat split; discriminate.
  - repeat split; rewrite ?app_assoc_string; intros Heq;
      apply app_inv_head_string in Heq; discriminate.
Qed.

End Paths.

Section UpdateTeammates.
Variables (agentDir agentId : string) (agents : table AgentConfig) (teams : table TeamConfig).

Ltac simp_fs :=
  repeat first
    [ progress (cbn [negb]; cbv beta iota zeta)
    | match goal with H : _ !! _ = _ |- _ => rewrite H end
    | match goal with H : indexOf _ _ = _ |- _ => rewrite H end
    | rewrite lookup_insert_ne by assumption ].

Ltac name_paths :=
  set (agentsMdPath := Path.join [agentDir; "AGENTS.md"]) in *;
  set (claudeDir := Path.join [agentDir; ".claude"]) in *;
  set (claudeMdPath := Path.join [claudeDir; "CLAUDE.md"]) in *.

Lemma updateAgentTeammates_skips (fs : filesystem) :
  fs !! Path.join [agentDir; "AGENTS.md"] <> Some Dir ->
  (forall content, fs !! Path.join [agentDir; "AGENTS.md"] = Some (File content) ->
     indexOf startMarker content = None \/ indexOf endMarker content = None) ->
  updateAgentTeammates agentDir agentId agents teams fs = (fs, [], Ret tt).
Proof.
  intros Hdir Hmarkers. unfold updateAgentTeammates, bind, Fs.existsSync, Fs.readFileSync, ret.
  name_paths. cbv beta iota zeta.
  destruct (fs !! agentsMdPath) as [[content|]|] eqn:Hfile; cbn [negb]; cbv beta iota zeta;
    rewrite ?Hfile; cbv beta iota zeta.
  - destruct (Hmarkers content eq_refl) as [->| ->]; [reflexivity|].
    now destruct (indexOf startMarker content).
  - now contradiction Hdir.
  - reflexivity.
Qed.

Lemma updateAgentTeammates_run (fs : filesystem) (content : string) (startIdx endIdx : nat) :
  fs !! Path.join [agentDir; "AGENTS.md"] = Some (File content) ->
  indexOf startMarker content = Some startIdx ->
  indexOf endMarker content = Some endIdx ->
  fs !! Path.join [Path.join [agentDir; ".claude"]; "CLAUDE.md"] <> Some Dir ->
  let block := teammateBlock agentId agents teams in
  let fs1 := <[Path.join [agentDir; "AGENTS.md"]
               := File (spliceBlock content startIdx endIdx block)]> fs in
  let fs2 := match fs !! Path.join [agentDir; ".claude"] with
             | Some _ => fs1
             | None => <[Path.join [agentDir; ".claude"] := Dir]> fs1
             end in
  updateAgentTeammates agentDir agentId agents teams fs
  = (<[Path.join [Path.join [agentDir; ".claude"]; "CLAUDE.md"]
        := File (claudeText
                   (textAt fs (Path.join [Path.join [agentDir; ".claude"]; "CLAUDE.md"]))
                   block)]> fs2,
     [], Ret tt).
Proof.
  intros Hfile Hs He Hmd. cbv zeta.
  destruct (teammate_paths_distinct agentDir) as (H12 & H13 & H23).
  unfold updateAgentTeammates, bind, Fs.existsSync, Fs.readFileSync, Fs.writeFileSync,
    mkdirSync, ret, textAt.
  fold (claudeText). name_paths. simp_fs.
  destruct (fs !! claudeDir) as [node|] eqn:Hcd; simp_fs;
    (destruct (fs !! claudeMdPath) as [[cl|]|] eqn:Hcl; simp_fs;
     [reflexivity|now contradiction Hmd|reflexivity]).
Qed.

End UpdateTeammates.

Section FirstOccurrence.

Lemma stripPrefix_short (c : ascii) (p b rest : string) :
  hasChar c p = false -> (String.length b < String.length p)%nat ->
  JsString.stripPrefix p (b +:+ String c rest) = None.
Proof.
  revert p. induction b as [|x b IH]; intros p Hc Hlen.
  - destruct p as [|a p]; [cbn in Hlen; lia|]. rewrite app_empty_l. cbn in *.
    apply orb_false_elim in Hc as [Ha _]. now rewrite Ha.
  - destruct p as [|a p]; [cbn in Hlen; lia|]. rewrite app_cons. cbn in *.
    apply orb_false_elim in Hc as [_ Hp].
    destruct (Ascii.eqb a x); [|reflexivity]. apply IH; [exact Hp|lia].
Qed.

Lemma stripPrefix_long (p b rest : string) :
  (String.length p <= String.length b)%nat ->
  JsString.stripPrefix p b = None -> JsString.stripPrefix p (b +:+ rest) = None.
Proof.
  revert b. induction p as [|a p IH]; intros b Hlen; [discriminate|].
  destruct b as [|x b]; [cbn in Hlen; lia|]. rewrite app_cons. cbn in *.
  destruct (Ascii.eqb a x); [|reflexivity]. apply IH. lia.
Qed.

(** A marker whose first character does not occur again in it cannot
    start inside the text before one of its occurrences and run into that
    occurrence. *)
Lemma startsWith_before_occurrence (c : ascii) (m b rest : string) :
  hasChar c m = false -> b <> EmptyString ->
  JsString.startsWith (String c m) b = false ->
  JsString.startsWith (String c m) (b +:+ String c m +:+ rest) = false.
Proof.
  intros Hc Hb Hstart. unfold JsString.startsWith in *.
  destruct (JsString.stripPrefix (String c m) b) eqn:Hp; [discriminate|].
  destruct (Nat.le_gt_cases (String.length (String c m)) (String.length b)) as [Hlen|Hlen].
  - now rewrite (stripPrefix_long _ _ _ Hlen Hp).
  - destruct b as [|x b]; [contradiction|].
    rewrite app_cons. cbn [JsString.stripPrefix].
    destruct (Ascii.eqb c x); [|reflexivity].
    rewrite app_cons. rewrite stripPrefix_short; [reflexivity|exact Hc|cbn in Hlen; lia].
Qed.

Lemma indexOf_first (c : ascii) (m pre rest : string) :
  hasChar c m = false ->
  JsString.includes (String c m) pre = false ->
  indexOf (String c m) (pre +:+ String c m +:+ rest) = Some (String.length pre).
Proof.
  intros Hc. induction pre as [|x pre IH]; intros Hpre.
  - rewrite app_empty_l.
    assert (Hs : JsString.startsWith (String c m) (String c m +:+ rest) = true).
    { unfold JsString.startsWith. now rewrite stripPrefix_app. }
    destruct (String c m +:+ rest) eqn:Heq; cbn [indexOf]; now rewrite Hs.
  - cbn [JsString.includes] in Hpre. apply orb_false_elim in Hpre as [Hstart Hrest].
    pose proof (startsWith_before_occurrence c m (String x pre) rest Hc
                  ltac:(discriminate) Hstart) as Hnot.
    rewrite (app_cons x pre) in Hnot |- *. cbn [indexOf].
    rewrite Hnot, (IH Hrest). reflexivity.
Qed.

End FirstOccurrence.

Section Splice.

Lemma claudeText_between (claudeContent block : string) :
  exists pre post,
    claudeText claudeContent block = pre +:+ startMarker +:+ block +:+ endMarker +:+ post.
Proof.
  unfold claudeText.
  destruct (indexOf startMarker claudeContent) as [i|] eqn:Hs;
    [destruct (indexOf endMarker claudeContent) as [j|] eqn:He|].
  - now apply spliceBlock_between.
  - exists (JsString.trimEnd claudeContent +:+ nl +:+ nl), nl.
    now rewrite !app_assoc_string.
  - exists (JsString.trimEnd claudeContent +:+ nl +:+ nl), nl.
    now rewrite !app_assoc_string.
Qed.

Lemma spliceBlock_unique (pre mid post block : string) :
  JsString.includes startMarker pre = false ->
  JsString.includes endMarker (pre +:+ startMarker +:+ mid) = false ->
  let content := pre +:+ startMarker +:+ mid +:+ endMarker +:+ post in
  exists startIdx endIdx,
    indexOf startMarker content = Some startIdx
    /\ indexOf endMarker content = Some endIdx
    /\ spliceBlock content startIdx endIdx block
       = pre +:+ startMarker +:+ block +:+ endMarker +:+ post.
Proof.
  intros Hpre Hmid content.
  exists (String.length pre), (String.length (pre +:+ startMarker +:+ mid)).
  assert (Hs : indexOf startMarker content = Some (String.length pre)).
  { subst content. revert Hpre.
    change startMarker with (String "<"%char "!-- TEAMMATES_START -->").
    now apply indexOf_first. }
  assert (He : indexOf endMarker content
               = Some (String.length (pre +:+ startMarker +:+ mid))).
  { assert (Hc : content = (pre +:+ startMarker +:+ mid) +:+ endMarker +:+ post)
      by (subst content; now rewrite !app_assoc_string).
    rewrite Hc. revert Hmid.
    change endMarker with (String "<"%char "!-- TEAMMATES_END -->").
    now apply indexOf_first. }
  split; [exact Hs|]. split; [exact He|].
  unfold spliceBlock.
  assert (Hhead : String.substring 0 (String.length pre + String.length startMarker) content
                  = pre +:+ startMarker).
  { subst content. rewrite <- length_app.
    rewrite <- (app_assoc_string pre startMarker). apply substring_app. }
  assert (Htail : sliceFrom (String.length (pre +:+ startMarker +:+ mid)) content
                  = endMarker +:+ post).
  { subst content.
    etransitivity;
      [|apply (sliceFrom_app (pre +:+ startMarker +:+ mid) (endMarker +:+ post))].
    f_equal. now rewrite !app_assoc_string. }
  now rewrite Hhead, Htail, !app_assoc_string.
Qed.

End Splice.

(** X19: without an [AGENTS.md] in the agent directory, or with one that
    lacks either marker, [updateAgentTeammates] does nothing: no file is
    written, [CLAUDE.md] included. *)
Theorem missing_markers_leave_agent_files_untouched
    (agentDir agentId : string) (agents : table AgentConfig) (teams : table TeamConfig)
    (fs : filesystem) :
  fs !! Path.join [agentDir; "AGENTS.md"] <> Some Dir ->
  (forall content, fs !! Path.join [agentDir; "AGENTS.md"] = Some (File content) ->
     indexOf startMarker content = None \/ indexOf endMarker content = None) ->
  updateAgentTeammates agentDir agentId agents teams fs = (fs, [], Ret tt).
Proof.
  intros Hdir Hmarkers.
  now apply updateAgentTeammates_skips.
Qed.

(** X19, witness: the end marker is missing. *)
Lemma missing_markers_leave_agent_files_untouched_witness :
  updateAgentTeammates "/ws/coder" "coder" testAgents testTeams
    (oneFile "/ws/coder/AGENTS.md" "# Agents <!-- TEAMMATES_START --> none")
  = (oneFile "/ws/coder/AGENTS.md" "# Agents <!-- TEAMMATES_START --> none", [], Ret tt).
Proof.
  apply missing_markers_leave_agent_files_untouched.
  - vm_compute. discriminate.
  - intros content Hfile. vm_compute in Hfile. injection Hfile as <-.
    right. vm_compute. reflexivity.
Defined.

(** X20: with both markers in [AGENTS.md], and no directory in the place
    of [CLAUDE.md] nor a regular file in the place of [.claude],
    [updateAgentTeammates] succeeds; afterwards both files carry the
    teammate block between a start and an end marker, and nothing but the
    two files and the [.claude] directory has changed. *)
Theorem teammate_block_reaches_both_files
    (agentDir agentId : string) (agents : table AgentConfig) (teams : table TeamConfig)
    (fs : filesystem) (content : string) (startIdx endIdx : nat) :
  fs !! Path.join [agentDir; "AGENTS.md"] = Some (File content) ->
  indexOf startMarker content = Some startIdx ->
  indexOf endMarker content = Some endIdx ->
  fs !! Path.join [Path.join [agentDir; ".claude"]; "CLAUDE.md"] <> Some Dir ->
  (forall text, fs !! Path.join [agentDir; ".claude"] <> Some (File text)) ->
  exists fs',
    updateAgentTeammates agentDir agentId agents teams fs = (fs', [], Ret tt)
    /\ (forall p,
          p = Path.join [agentDir; "AGENTS.md"]
          \/ p = Path.join [Path.join [agentDir; ".claude"]; "CLAUDE.md"] ->
          exists pre post,
            fs' !! p
            = Some (File (pre +:+ startMarker +:+ teammateBlock agentId agents teams
                            +:+ endMarker +:+ post)))
    /\ fs' !! Path.join [agentDir; ".claude"] = Some Dir
    /\ (forall p,
          p <> Path.join [agentDir; "AGENTS.md"] ->
          p <> Path.join [agentDir; ".claude"] ->
          p <> Path.join [Path.join [agentDir; ".claude"]; "CLAUDE.md"] ->
          fs' !! p = fs !! p).
Proof.
  intros Hfile Hs He Hmd Hdir.
  pose proof (updateAgentTeammates_run agentDir agentId agents teams fs content
                startIdx endIdx Hfile Hs He Hmd) as Hrun.
  cbv zeta in Hrun. eexists. split; [exact Hrun|].
  destruct (teammate_paths_distinct agentDir) as (H12 & H13 & H23). cbv zeta in *.
  set (agentsMdPath := Path.join [agentDir; "AGENTS.md"]) in *.
  set (claudeDir := Path.join [agentDir; ".claude"]) in *.
  set (claudeMdPath := Path.join [claudeDir; "CLAUDE.md"]) in *.
  split; [|split].
  - intros p [-> | ->].
    + rewrite lookup_insert_ne by congruence.
      destruct (spliceBlock_between content (teammateBlock agentId agents teams)
                  startIdx endIdx Hs He) as (pre & post & Heq).
      exists pre, post. rewrite <- Heq.
      destruct (fs !! claudeDir).
      * now rewrite lookup_insert_eq.
      * rewrite lookup_insert_ne by congruence. now rewrite lookup_insert_eq.
    + destruct (claudeText_between (textAt fs claudeMdPath)
                  (teammateBlock agentId agents teams)) as (pre & post & Heq).
      exists pre, post. rewrite <- Heq. now rewrite lookup_insert_eq.
  - rewrite lookup_insert_ne by congruence.
    destruct (fs !! claudeDir) as [[text|]|] eqn:Hcd.
    + now contradiction (Hdir text).
    + rewrite lookup_insert_ne by congruence. exact Hcd.
    + now rewrite lookup_insert_eq.
  - intros p Hp1 Hp2 Hp3. rewrite lookup_insert_ne by congruence.
    destruct (fs !! claudeDir).
    + now rewrite lookup_insert_ne by congruence.
    + rewrite lookup_insert_ne by congruence. now rewrite lookup_insert_ne by congruence.
Qed.

(** X20, witness: a fresh agent directory with the template [AGENTS.md]. *)
Lemma teammate_block_reaches_both_files_witness :
  exists fs',
    updateAgentTeammates "/ws/coder" "coder" testAgents testTeams
      (oneFile "/ws/coder/AGENTS.md"
         "# Agents <!-- TEAMMATES_START -->old<!-- TEAMMATES_END --> end")
    = (fs', [], Ret tt)
    /\ fs' !! "/ws/coder/.claude" = Some Dir
    /\ fs' !! "/ws/other/AGENTS.md" = None.
Proof.
  destruct (teammate_block_reaches_both_files "/ws/coder" "coder" testAgents testTeams
              (oneFile "/ws/coder/AGENTS.md"
                 "# Agents <!-- TEAMMATES_START -->old<!-- TEAMMATES_END --> end")
              "# Agents <!-- TEAMMATES_START -->old<!-- TEAMMATES_END --> end"
              9%nat 36%nat)
    as (fs' & Hrun & _ & Hdir & Hframe).
  - vm_compute. reflexivity.
  - vm_compute. reflexivity.
  - vm_compute. reflexivity.
  - vm_compute. discriminate.
  - intros text. vm_compute. discriminate.
  - exists fs'. split; [exact Hrun|]. split; [exact Hdir|].
    rewrite (Hframe "/ws/other/AGENTS.md");
      [vm_compute; reflexivity|vm_compute; discriminate..].
Defined.

(** X21: when the start marker occurs once before the end marker and the
    end marker not before its place, [updateAgentTeammates] replaces the
    text between the two markers by the teammate block and keeps the text
    before the start marker and after the end marker as it is. *)
Theorem text_outside_markers_is_preserved
    (agentDir agentId : string) (agents : table AgentConfig) (teams : table TeamConfig)
    (fs : filesystem) (pre mid post : string) :
  fs !! Path.join [agentDir; "AGENTS.md"]
  = Some (File (pre +:+ startMarker +:+ mid +:+ endMarker +:+ post)) ->
  JsString.includes startMarker pre = false ->
  JsString.includes endMarker (pre +:+ startMarker +:+ mid) = false ->
  fs !! Path.join [Path.join [agentDir; ".claude"]; "CLAUDE.md"] <> Some Dir ->
  (forall text, fs !! Path.join [agentDir; ".claude"] <> Some (File text)) ->
  exists fs',
    updateAgentTeammates agentDir agentId agents teams fs = (fs', [], Ret tt)
    /\ fs' !! Path.join [agentDir; "AGENTS.md"]
       = Some (File (pre +:+ startMarker +:+ teammateBlock agentId agents teams
                       +:+ endMarker +:+ post)).
Proof.
  intros Hfile Hpre Hmid Hmd Hdir.
  destruct (spliceBlock_unique pre mid post (teammateBlock agentId agents teams) Hpre Hmid)
    as (startIdx & endIdx & Hs & He & Hsplice).
  pose proof (updateAgentTeammates_run agentDir agentId agents teams fs _
                startIdx endIdx Hfile Hs He Hmd) as Hrun.
  cbv zeta in Hrun. eexists. split; [exact Hrun|].
  destruct (teammate_paths_distinct agentDir) as (H12 & H13 & H23). cbv zeta in *.
  rewrite lookup_insert_ne by congruence. rewrite Hsplice.
  destruct (fs !! Path.join [agentDir; ".claude"]).
  - now rewrite lookup_insert_eq.
  - rewrite lookup_insert_ne by congruence. now rewrite lookup_insert_eq.
Qed.

(** X21, witness: a heading before the markers and a footer after
    them. *)
Lemma text_outside_markers_is_preserved_witness :
  exists fs',
    updateAgentTeammates "/ws/solo" "solo" [] []
      (oneFile "/ws/solo/AGENTS.md"
         "# Agents <!-- TEAMMATES_START -->old<!-- TEAMMATES_END --> end")
    = (fs', [], Ret tt)
    /\ fs' !! "/ws/solo/AGENTS.md"
       = Some (File "# Agents <!-- TEAMMATES_START --><!-- TEAMMATES_END --> end").
Proof.
  destruct (text_outside_markers_is_preserved "/ws/solo" "solo" [] []
              (oneFile "/ws/solo/AGENTS.md"
                 "# Agents <!-- TEAMMATES_START -->old<!-- TEAMMATES_END --> end")
              "# Agents " "old" " end")
    as (fs' & Hrun & Hfile).
  - vm_compute. reflexivity.
  - vm_compute. reflexivity.
  - vm_compute. reflexivity.
  - vm_compute. discriminate.
  - intros text. vm_compute. discriminate.
  - exists fs'. split; [exact Hrun|exact Hfile].
Defined.

(* ===================================================================== *)
(** * Properties of the recursive copies *)
(* ===================================================================== *)

Section Entries.

Lemma lookup_setEntry_same {T} (k : string) (v : T) (t : table T) :
  lookup k (setEntry k v t) = Some v.
Proof.
  induction t as [|[k0 x] t IH]; cbn.
  - now rewrite String.eqb_refl.
  - destruct (String.eqb k k0) eqn:Hk; cbn; now rewrite Hk.
Qed.

Lemma lookup_setEntry_other {T} (k k' : string) (v : T) (t : table T) :
  k' <> k -> lookup k' (setEntry k v t) = lookup k' t.
Proof.
  intros Hne. induction t as [|[k0 x] t IH]; cbn.
  - now destruct (String.eqb_spec k' k).
  - destruct (String.eqb_spec k k0) as [->|Hk]; cbn.
    + now destruct (String.eqb_spec k' k0).
    + now rewrite IH.
Qed.

Lemma setEntry_same {T} (k : string) (v : T) (t : table T) :
  lookup k t = Some v -> setEntry k v t = t.
Proof.
  induction t as [|[k0 x] t IH]; cbn; [discriminate|].
  destruct (String.eqb k k0); [now intros [= ->]|]. intros Hk. now rewrite (IH Hk).
Qed.

Lemma keeps_refl (t : dirent) : keeps t t.
Proof. intros p. destruct (find p t) as [[c|es]|]; eauto. Qed.

Lemma keeps_trans (a b c : dirent) : keeps a b -> keeps b c -> keeps a c.
Proof.
  intros Hab Hbc p. specialize (Hab p). specialize (Hbc p).
  destruct (find p a) as [[x|es]|]; [| |exact I].
  - now rewrite Hab in Hbc.
  - destruct Hab as [es' Hb]. now rewrite Hb in Hbc.
Qed.

Lemma keepsEntries_refl (es : table dirent) : keepsEntries es es.
Proof. intros name t Ht. exists t. split; [exact Ht|apply keeps_refl]. Qed.

Lemma keepsEntries_trans (a b c : table dirent) :
  keepsEntries a b -> keepsEntries b c -> keepsEntries a c.
Proof.
  intros Hab Hbc name t Ht.
  destruct (Hab name t Ht) as (t' & Ht' & Hk).
  destruct (Hbc name t' Ht') as (t'' & Ht'' & Hk').
  exists t''. split; [exact Ht''|]. now apply keeps_trans with t'.
Qed.

Lemma keeps_directory (es es' : table dirent) :
  keepsEntries es es' -> keeps (EDirectory es) (EDirectory es').
Proof.
  intros Hes [|name rest]; cbn; [eauto|].
  destruct (lookup name es) as [t|] eqn:Ht; [|exact I].
  destruct (Hes name t Ht) as (t' & -> & Hk). exact (Hk rest).
Qed.

Lemma keepsEntries_new (name : string) (t : dirent) (es : table dirent) :
  lookup name es = None -> keepsEntries es (setEntry name t es).
Proof.
  intros Hnone other x Hx. exists x. split; [|apply keeps_refl].
  rewrite lookup_setEntry_other; [exact Hx|]. intros ->. congruence.
Qed.

Lemma keepsEntries_replace (name : string) (t' : dirent) (es : table dirent) :
  keepsAt (lookup name es) (Some t') -> keepsEntries es (setEntry name t' es).
Proof.
  intros Hk other x Hx. destruct (String.eqb_spec other name) as [->|Hne].
  - rewrite Hx in Hk. destruct Hk as (t2 & [= <-] & Hk).
    exists t'. split; [apply lookup_setEntry_same|exact Hk].
  - exists x. split; [|apply keeps_refl]. now rewrite lookup_setEntry_other.
Qed.

End Entries.

Section NoOverwrite.

Lemma mkdirRecursive_keeps (dest : option dirent) (es : table dirent) :
  mkdirRecursive dest = Ret es -> keepsAt dest (Some (EDirectory es)).
Proof.
  destruct dest as [[c|entries]|]; cbn; [discriminate| |trivial].
  intros [= <-]. eexists. split; [reflexivity|apply keeps_refl].
Qed.

Lemma copyEntriesNoOverwrite_keeps (entries : table dirent) :
  Forall (fun e => forall dest dest' result,
                     copyDirSyncNoOverwrite e.2 dest = (dest', result) ->
                     keepsAt dest dest') entries ->
  forall destEntries destEntries' result,
    copyEntriesNoOverwrite copyDirSyncNoOverwrite entries destEntries
    = (destEntries', result) ->
    keepsEntries destEntries destEntries'.
Proof.
  induction 1 as [|[name node] rest Hnode _ IH]; intros destEntries destEntries' result; cbn.
  - intros [= <- _]. apply keepsEntries_refl.
  - destruct node as [content|sub].
    + destruct (lookup name destEntries) eqn:Hname.
      * apply IH.
      * intros Hrest. apply keepsEntries_trans with (setEntry name (EFile content) destEntries).
        -- now apply keepsEntries_new.
        -- exact (IH _ _ _ Hrest).
    + destruct (copyDirSyncNoOverwrite (EDirectory sub) (lookup name destEntries))
        as [copied res] eqn:Hcopy.
      pose proof (Hnode _ _ _ Hcopy) as Hkeep. cbn [snd] in Hkeep.
      assert (Hstep : keepsEntries destEntries
                        match copied with
                        | Some d => setEntry name d destEntries
                        | None => destEntries
                        end).
      { destruct copied as [d|]; [now apply keepsEntries_replace|apply keepsEntries_refl]. }
      destruct res as [[]|e].
      * intros Hrest. eapply keepsEntries_trans; [exact Hstep|exact (IH _ _ _ Hrest)].
      * now intros [= <- _].
Qed.

Lemma copyDirSyncNoOverwrite_keeps (src : dirent) :
  forall dest dest' result,
    copyDirSyncNoOverwrite src dest = (dest', result) -> keepsAt dest dest'.
Proof.
  induction src as [content|entries IH] using dirent_nested_ind; intros dest dest' result.
  - cbn. destruct (mkdirRecursive dest) as [es|e] eqn:Hmk.
    + intros [= <- _]. now apply mkdirRecursive_keeps.
    + intros [= <- _]. destruct dest as [t|]; [|exact I].
      exists t. split; [reflexivity|apply keeps_refl].
  - cbn. destruct (mkdirRecursive dest) as [es|e] eqn:Hmk.
    + destruct (copyEntriesNoOverwrite copyDirSyncNoOverwrite entries es)
        as [es' res] eqn:Hloop.
      intros [= <- _].
      pose proof (copyEntriesNoOverwrite_keeps entries IH _ _ _ Hloop) as Hes.
      destruct dest as [[c|d]|]; cbn in Hmk; [discriminate| |exact I].
      injection Hmk as <-. eexists. split; [reflexivity|now apply keeps_directory].
    + intros [= <- _]. destruct dest as [t|]; [|exact I].
      exists t. split; [reflexivity|apply keeps_refl].
Qed.

End NoOverwrite.

(** X22: [copyDirSyncNoOverwrite] never overwrites: every file that stood
    below the destination keeps its content and every directory stays a
    directory, also when the copy fails half way. *)
Theorem copy_without_overwrite_keeps_what_exists
    (src : dirent) (dest dest' : option dirent) (result : outcome unit)
    (p : list string) :
  copyDirSyncNoOverwrite src dest = (dest', result) ->
  (forall content, findAt p dest = Some (EFile content) ->
                   findAt p dest' = Some (EFile content))
  /\ (forall entries, findAt p dest = Some (EDirectory entries) ->
                      exists entries', findAt p dest' = Some (EDirectory entries')).
Proof.
  intros Hcopy. apply copyDirSyncNoOverwrite_keeps in Hcopy.
  destruct dest as [t|]; [|split; discriminate].
  destruct Hcopy as (t' & -> & Hkeep). specialize (Hkeep p). cbn.
  split.
  - intros content Hfile. now rewrite Hfile in Hkeep.
  - intros entries Hdir. now rewrite Hdir in Hkeep.
Qed.

(** X22, witness: the first test of [test-agent.ts]. *)
Lemma copy_without_overwrite_keeps_what_exists_witness :
  copyDirSyncNoOverwrite
    (EDirectory [("a.txt", EFile "source-a"); ("b.txt", EFile "source-b")])
    (Some (EDirectory [("a.txt", EFile "existing-a")]))
  = (Some (EDirectory [("a.txt", EFile "existing-a"); ("b.txt", EFile "source-b")]), Ret tt)
  /\ findAt ["a.txt"]
       (Some (EDirectory [("a.txt", EFile "existing-a"); ("b.txt", EFile "source-b")]))
     = Some (EFile "existing-a").
Proof.
  split; [reflexivity|].
  apply (copy_without_overwrite_keeps_what_exists
           (EDirectory [("a.txt", EFile "source-a"); ("b.txt", EFile "source-b")])
           (Some (EDirectory [("a.txt", EFile "existing-a")]))
           _ (Ret tt) ["a.txt"] eq_refl).
  reflexivity.
Defined.

Section Missing.

Lemma copyEntriesNoOverwrite_fills (entries : table dirent) :
  Forall (fun e => fills e.2) entries ->
  forall destEntries destEntries',
    copyEntriesNoOverwrite copyDirSyncNoOverwrite entries destEntries
    = (destEntries', Ret tt) ->
    forall name node rest content,
      lookup name entries = Some node ->
      find rest node = Some (EFile content) ->
      findAt rest (lookup name destEntries) = None ->
      findAt rest (lookup name destEntries') = Some (EFile content).
Proof.
  induction 1 as [|[name0 node0] more Hnode0 Hmore IH];
    intros destEntries destEntries' Hloop name node rest content Hname Hfile Hnone;
    [discriminate|].
  assert (Hlater : forall es es' t,
             copyEntriesNoOverwrite copyDirSyncNoOverwrite more es = (es', Ret tt) ->
             lookup name es = Some t -> find rest t = Some (EFile content) ->
             findAt rest (lookup name es') = Some (EFile content)).
  { intros es es' t Hrun Ht Hfound.
    assert (Hall : Forall (fun e => forall dest dest' result,
                             copyDirSyncNoOverwrite e.2 dest = (dest', result) ->
                             keepsAt dest dest') more).
    { apply Forall_forall. intros e _. apply copyDirSyncNoOverwrite_keeps. }
    destruct (copyEntriesNoOverwrite_keeps more Hall _ _ _ Hrun name t Ht)
      as (t' & -> & Hk).
    specialize (Hk rest). rewrite Hfound in Hk. exact Hk. }
  cbn in Hname, Hloop. destruct (String.eqb_spec name name0) as [->|Hne].
  - injection Hname as <-. destruct node0 as [c0|sub].
    + destruct rest as [|x rest]; [|discriminate]. cbn in Hfile. injection Hfile as ->.
      destruct (lookup name0 destEntries) eqn:Hdest; [discriminate|].
      eapply Hlater; [exact Hloop|apply lookup_setEntry_same|reflexivity].
    + destruct (copyDirSyncNoOverwrite (EDirectory sub) (lookup name0 destEntries))
        as [copied res] eqn:Hcopy.
      destruct res as [[]|e]; [|discriminate].
      pose proof (Hnode0 _ _ Hcopy rest content Hfile Hnone) as Hfilled. cbn [snd] in *.
      destruct copied as [d|]; [|discriminate].
      eapply Hlater; [exact Hloop|apply lookup_setEntry_same|exact Hfilled].
  - destruct node0 as [c0|sub].
    + destruct (lookup name0 destEntries) eqn:Hdest.
      * exact (IH _ _ Hloop name node rest content Hname Hfile Hnone).
      * apply (IH _ _ Hloop name node rest content Hname Hfile).
        now rewrite lookup_setEntry_other.
    + destruct (copyDirSyncNoOverwrite (EDirectory sub) (lookup name0 destEntries))
        as [copied res] eqn:Hcopy.
      destruct res as [[]|e]; [|discriminate].
      apply (IH _ _ Hloop name node rest content Hname Hfile).
      destruct copied as [d|]; [now rewrite lookup_setEntry_other|exact Hnone].
Qed.

Lemma copyDirSyncNoOverwrite_fills (src : dirent) : fills src.
Proof.
  induction src as [c|entries IH] using dirent_nested_ind;
    intros dest dest' Hcopy p content Hfile Hnone.
  - cbn in Hcopy. now destruct (mkdirRecursive dest).
  - cbn in Hcopy. destruct (mkdirRecursive dest) as [es|e] eqn:Hmk; [|discriminate].
    destruct (copyEntriesNoOverwrite copyDirSyncNoOverwrite entries es)
      as [es' res] eqn:Hloop.
    injection Hcopy as <- ->.
    destruct p as [|name rest]; [discriminate|]. cbn in Hfile |- *.
    destruct (lookup name entries) as [node|] eqn:Hname; [|discriminate].
    assert (Hdest : findAt rest (lookup name es) = None).
    { destruct dest as [[c|d]|]; cbn in Hmk; [discriminate| |].
      - injection Hmk as <-. cbn in Hnone. now destruct (lookup name d).
      - now injection Hmk as <-. }
    pose proof (copyEntriesNoOverwrite_fills entries IH _ _ Hloop name node rest content
                  Hname Hfile Hdest) as Hfilled.
    now destruct (lookup name es').
Qed.

End Missing.

(** X23: when [copyDirSyncNoOverwrite] succeeds, every file of the source
    that had nothing in its place below the destination stands there
    afterwards with the content of the source. *)
Theorem copy_without_overwrite_adds_missing_files
    (src : dirent) (dest dest' : option dirent) (p : list string) (content : string) :
  copyDirSyncNoOverwrite src dest = (dest', Ret tt) ->
  find p src = Some (EFile content) ->
  findAt p dest = None ->
  findAt p dest' = Some (EFile content).
Proof.
  intros Hcopy Hfile Hnone.
  exact (copyDirSyncNoOverwrite_fills src dest dest' Hcopy p content Hfile Hnone).
Qed.

(** X23, witness: the second test of [test-agent.ts], a nested file copied
    into a destination that does not exist. *)
Lemma copy_without_overwrite_adds_missing_files_witness :
  findAt ["sub"; "deep.txt"]
    (copyDirSyncNoOverwrite (EDirectory [("sub", EDirectory [("deep.txt", EFile "deep-content")])])
       None).1
  = Some (EFile "deep-content").
Proof.
  exact (copy_without_overwrite_adds_missing_files
           (EDirectory [("sub", EDirectory [("deep.txt", EFile "deep-content")])])
           None _ ["sub"; "deep.txt"] "deep-content" eq_refl eq_refl eq_refl).
Defined.

Section Repair.

Lemma covers_keeps (src : dirent) :
  forall t t', covers src t -> keeps t t' -> covers src t'.
Proof.
  induction src as [c|entries IH] using dirent_nested_ind; intros t t' Hcov Hkeep.
  - constructor.
  - inversion Hcov as [|? es Hall]; subst.
    pose proof (Hkeep []) as Hroot. cbn in Hroot. destruct Hroot as [es' [= ->]].
    constructor. rewrite Forall_forall in *. intros e He.
    destruct (Hall e He) as (x & Hx & Hcx).
    pose proof (Hkeep [e.1]) as Hname. cbn in Hname. rewrite Hx in Hname.
    assert (Hx' : exists x', lookup e.1 es' = Some x').
    { destruct x as [c|sub].
      - destruct (lookup e.1 es'); [eauto|discriminate].
      - destruct Hname as [sub' Hname]. destruct (lookup e.1 es'); [eauto|discriminate]. }
    destruct Hx' as [x' Hx']. exists x'. split; [exact Hx'|].
    apply (IH e He x x' Hcx). intros q. specialize (Hkeep (e.1 :: q)).
    cbn in Hkeep. now rewrite Hx, Hx' in Hkeep.
Qed.

Lemma copyEntriesNoOverwrite_covers (entries : table dirent) :
  Forall (fun e => forall dest d', copyDirSyncNoOverwrite e.2 dest = (Some d', Ret tt) ->
                                   covers e.2 d') entries ->
  forall es es',
    copyEntriesNoOverwrite copyDirSyncNoOverwrite entries es = (es', Ret tt) ->
    Forall (fun e => exists t, lookup e.1 es' = Some t /\ covers e.2 t) entries.
Proof.
  induction 1 as [|[name node] more Hnode _ IH]; intros es es' Hloop; [constructor|].
  assert (Hlater : forall es1 t,
             copyEntriesNoOverwrite copyDirSyncNoOverwrite more es1 = (es', Ret tt) ->
             lookup name es1 = Some t -> covers node t ->
             exists t', lookup name es' = Some t' /\ covers node t').
  { intros es1 t Hrun Ht Hcov.
    assert (Hall : Forall (fun e => forall dest dest' result,
                             copyDirSyncNoOverwrite e.2 dest = (dest', result) ->
                             keepsAt dest dest') more).
    { apply Forall_forall. intros e _. apply copyDirSyncNoOverwrite_keeps. }
    destruct (copyEntriesNoOverwrite_keeps more Hall _ _ _ Hrun name t Ht)
      as (t' & Ht' & Hk).
    exists t'. split; [exact Ht'|]. now apply covers_keeps with t. }
  cbn in Hloop. destruct node as [c|sub].
  - destruct (lookup name es) as [x|] eqn:Hname.
    + constructor; [|exact (IH _ _ Hloop)].
      apply (Hlater es x Hloop Hname). constructor.
    + constructor; [|exact (IH _ _ Hloop)].
      apply (Hlater _ (EFile c) Hloop); [apply lookup_setEntry_same|constructor].
  - destruct (copyDirSyncNoOverwrite (EDirectory sub) (lookup name es))
      as [copied res] eqn:Hcopy.
    destruct res as [[]|e]; [|discriminate].
    destruct copied as [d|].
    + constructor; [|exact (IH _ _ Hloop)].
      apply (Hlater _ d Hloop); [apply lookup_setEntry_same|].
      exact (Hnode _ _ Hcopy).
    + cbn in Hcopy. destruct (mkdirRecursive (lookup name es)); [|discriminate].
      destruct (copyEntriesNoOverwrite copyDirSyncNoOverwrite sub a). discriminate.
Qed.

Lemma copyDirSyncNoOverwrite_covers (src : dirent) :
  forall dest d', copyDirSyncNoOverwrite src dest = (Some d', Ret tt) -> covers src d'.
Proof.
  induction src as [c|entries IH] using dirent_nested_ind; intros dest d' Hcopy.
  - constructor.
  - cbn in Hcopy. destruct (mkdirRecursive dest) as [es|e]; [|discriminate].
    destruct (copyEntriesNoOverwrite copyDirSyncNoOverwrite entries es)
      as [es' res] eqn:Hloop.
    injection Hcopy as <- ->. constructor.
    exact (copyEntriesNoOverwrite_covers entries IH _ _ Hloop).
Qed.

Lemma copyEntriesNoOverwrite_covered (entries : table dirent) (es : table dirent) :
  Forall (fun e => forall t, covers e.2 t -> isDirectory e.2 = true ->
                             copyDirSyncNoOverwrite e.2 (Some t) = (Some t, Ret tt)) entries ->
  Forall (fun e => exists t, lookup e.1 es = Some t /\ covers e.2 t) entries ->
  copyEntriesNoOverwrite copyDirSyncNoOverwrite entries es = (es, Ret tt).
Proof.
  induction 1 as [|[name node] more Hnode _ IH]; intros Hcov; [reflexivity|].
  apply Forall_cons in Hcov as [(t & Ht & Hct) Hmore]. cbn [fst snd] in *.
  cbn [copyEntriesNoOverwrite]. destruct node as [c|sub].
  - rewrite Ht. exact (IH Hmore).
  - rewrite Ht, (Hnode t Hct eq_refl), (setEntry_same name t es Ht). exact (IH Hmore).
Qed.

Lemma copyDirSyncNoOverwrite_covered (src : dirent) :
  forall t, covers src t -> isDirectory src = true ->
            copyDirSyncNoOverwrite src (Some t) = (Some t, Ret tt).
Proof.
  induction src as [c|entries IH] using dirent_nested_ind; intros t Hcov Hdir;
    [discriminate|].
  inversion Hcov as [|? es Hall]; subst. cbn.
  now rewrite (copyEntriesNoOverwrite_covered entries es IH Hall).
Qed.

End Repair.

(** X24: repairing twice is repairing once: after a copy without overwrite
    that succeeded, a second copy of the same source succeeds and changes
    nothing. *)
Theorem copy_without_overwrite_is_idempotent
    (src : dirent) (dest dest' : option dirent) :
  copyDirSyncNoOverwrite src dest = (dest', Ret tt) ->
  copyDirSyncNoOverwrite src dest' = (dest', Ret tt).
Proof.
  intros Hcopy.
  assert (Hsome : exists d', dest' = Some d' /\ isDirectory src = true).
  { destruct src as [c|entries]; cbn in Hcopy;
      destruct (mkdirRecursive dest) as [es|e]; try discriminate.
    destruct (copyEntriesNoOverwrite copyDirSyncNoOverwrite entries es).
    injection Hcopy as <- _. eauto. }
  destruct Hsome as (d' & -> & Hdir).
  apply copyDirSyncNoOverwrite_covered; [|exact Hdir].
  exact (copyDirSyncNoOverwrite_covers src dest d' Hcopy).
Qed.

(** X24, witness: a template copied into a directory that holds one of its
    files. *)
Lemma copy_without_overwrite_is_idempotent_witness :
  copyDirSyncNoOverwrite
    (EDirectory [("settings.json", EFile "{}"); ("hooks", EDirectory [("log.sh", EFile "#!")])])
    (Some (EDirectory [("notes.md", EFile "mine"); ("settings.json", EFile "{}");
                       ("hooks", EDirectory [("log.sh", EFile "#!")])]))
  = (Some (EDirectory [("notes.md", EFile "mine"); ("settings.json", EFile "{}");
                       ("hooks", EDirectory [("log.sh", EFile "#!")])]), Ret tt).
Proof.
  exact (copy_without_overwrite_is_idempotent
           (EDirectory [("settings.json", EFile "{}");
                        ("hooks", EDirectory [("log.sh", EFile "#!")])])
           (Some (EDirectory [("notes.md", EFile "mine")]))
           (Some (EDirectory [("notes.md", EFile "mine"); ("settings.json", EFile "{}");
                              ("hooks", EDirectory [("log.sh", EFile "#!")])]))
           eq_refl).
Defined.

Section Overwrite.

Lemma includesId_lookup {T} (name : string) (t : table T) :
  includesId name (map fst t) = false -> lookup name t = None.
Proof.
  unfold includesId. induction t as [|[k v] t IH]; [reflexivity|]. cbn.
  destruct (String.eqb name k); [discriminate|exact IH].
Qed.

(** The loop of [copyDirSync] leaves alone the names it does not meet. *)
Lemma copyEntries_other (copyDir : dirent -> option dirent -> option dirent * outcome unit)
    (entries : table dirent) (name : string) :
  lookup name entries = None ->
  forall es es' result,
    copyEntries copyDir entries es = (es', result) -> lookup name es' = lookup name es.
Proof.
  induction entries as [|[name0 node0] more IH]; intros Hname es es' result; cbn.
  - now intros [= <- _].
  - cbn in Hname. destruct (String.eqb_spec name name0) as [->|Hne]; [discriminate|].
    destruct node0 as [c|sub].
    + destruct (lookup name0 es) as [[c0|d0]|]; try now intros [= <- _].
      * intros Hrest. rewrite (IH Hname _ _ _ Hrest). now apply lookup_setEntry_other.
      * intros Hrest. rewrite (IH Hname _ _ _ Hrest). now apply lookup_setEntry_other.
    + destruct (copyDir (EDirectory sub) (lookup name0 es)) as [copied res].
      assert (Hstep : lookup name match copied with
                                  | Some d => setEntry name0 d es
                                  | None => es
                                  end = lookup name es).
      { destruct copied; [now apply lookup_setEntry_other|reflexivity]. }
      destruct res as [[]|e].
      * intros Hrest. now rewrite (IH Hname _ _ _ Hrest).
      * now intros [= <- _].
Qed.

Lemma copyEntries_installs (entries : table dirent) :
  Forall (fun e => installs e.2) entries ->
  wellFormed (EDirectory entries) = true ->
  forall es es',
    copyEntries copyDirSync entries es = (es', Ret tt) ->
    forall name node rest content,
      lookup name entries = Some node ->
      find rest node = Some (EFile content) ->
      findAt rest (lookup name es') = Some (EFile content).
Proof.
  induction 1 as [|[name0 node0] more Hnode0 _ IH];
    intros Hwf es es' Hloop name node rest content Hname Hfile; [discriminate|].
  cbn in Hwf. apply andb_prop in Hwf as [Hnames Hsub].
  apply andb_prop in Hnames as [Hfresh Hnames]. apply andb_prop in Hsub as [Hwf0 Hsub].
  apply negb_true_iff, includesId_lookup in Hfresh.
  assert (Hmore : wellFormed (EDirectory more) = true)
    by (cbn; now rewrite Hnames, Hsub).
  cbn in Hname, Hloop. destruct (String.eqb_spec name name0) as [->|Hne].
  - injection Hname as <-. destruct node0 as [c0|sub].
    + destruct rest as [|x rest]; [|discriminate]. cbn in Hfile. injection Hfile as ->.
      assert (Hrest : exists es1, copyEntries copyDirSync more es1 = (es', Ret tt)
                                  /\ lookup name0 es1 = Some (EFile content)).
      { destruct (lookup name0 es) as [[c|d]|]; [|discriminate|];
          (eexists; split; [exact Hloop|apply lookup_setEntry_same]). }
      destruct Hrest as (es1 & Hrun & Hset).
      now rewrite (copyEntries_other _ more name0 Hfresh _ _ _ Hrun), Hset.
    + destruct (copyDirSync (EDirectory sub) (lookup name0 es)) as [copied res] eqn:Hcopy.
      destruct res as [[]|e]; [|discriminate].
      pose proof (Hnode0 Hwf0 _ _ Hcopy rest content Hfile) as Hdone.
      destruct copied as [d|]; [|discriminate].
      rewrite (copyEntries_other _ more name0 Hfresh _ _ _ Hloop), lookup_setEntry_same.
      exact Hdone.
  - assert (Hrest : exists es1, copyEntries copyDirSync more es1 = (es', Ret tt)).
    { destruct node0 as [c0|sub].
      - destruct (lookup name0 es) as [[c|d]|]; [eauto|discriminate|eauto].
      - destruct (copyDirSync (EDirectory sub) (lookup name0 es)) as [copied res].
        destruct res as [[]|e]; [eauto|discriminate]. }
    destruct Hrest as (es1 & Hrun).
    exact (IH Hmore _ _ Hrun name node rest content Hname Hfile).
Qed.

Lemma copyDirSync_installs (src : dirent) : installs src.
Proof.
  induction src as [c|entries IH] using dirent_nested_ind;
    intros Hwf dest dest' Hcopy p content Hfile.
  - cbn in Hcopy. now destruct (mkdirRecursive dest).
  - cbn in Hcopy. destruct (mkdirRecursive dest) as [es|e]; [|discriminate].
    destruct (copyEntries copyDirSync entries es) as [es' res] eqn:Hloop.
    injection Hcopy as <- ->.
    destruct p as [|name rest]; [discriminate|]. cbn in Hfile |- *.
    destruct (lookup name entries) as [node|] eqn:Hname; [|discriminate].
    pose proof (copyEntries_installs entries IH Hwf _ _ Hloop name node rest content
                  Hname Hfile) as Hdone.
    now destruct (lookup name es').
Qed.

End Overwrite.

(** X25: when [copyDirSync] succeeds, every file of the source stands
    below the destination with the content of the source, whatever stood
    there before.  The source lists no name twice in a directory. *)
Theorem copy_with_overwrite_installs_every_file
    (src : dirent) (dest dest' : option dirent) (p : list string) (content : string) :
  wellFormed src = true ->
  copyDirSync src dest = (dest', Ret tt) ->
  find p src = Some (EFile content) ->
  findAt p dest' = Some (EFile content).
Proof.
  intros Hwf Hcopy. exact (copyDirSync_installs src Hwf dest dest' Hcopy p content).
Qed.

(** X25, witness: an edited file is replaced, a file of the destination
    alone is kept. *)
Lemma copy_with_overwrite_installs_every_file_witness :
  copyDirSync (EDirectory [("a.txt", EFile "source-a")])
    (Some (EDirectory [("a.txt", EFile "existing-a"); ("c.txt", EFile "mine")]))
  = (Some (EDirectory [("a.txt", EFile "source-a"); ("c.txt", EFile "mine")]), Ret tt)
  /\ findAt ["a.txt"]
       (Some (EDirectory [("a.txt", EFile "source-a"); ("c.txt", EFile "mine")]))
     = Some (EFile "source-a").
Proof.
  split; [reflexivity|].
  exact (copy_with_overwrite_installs_every_file
           (EDirectory [("a.txt", EFile "source-a")])
           (Some (EDirectory [("a.txt", EFile "existing-a"); ("c.txt", EFile "mine")]))
           _ ["a.txt"] "source-a" eq_refl eq_refl eq_refl).
Defined.

(* ===================================================================== *)
(** * Properties of the runtime memory file *)
(* ===================================================================== *)

Section MemoryFile.
Context `{Host}.

Lemma deleteClaudeMemoryFile_leaves_no_file (path : string) (fs : filesystem) :
  exists fs' o,
    MemoryInvoke.deleteClaudeMemoryFile path fs = (fs', [], o)
    /\ Fs.isFile fs' path = false
    /\ (isRet o = false -> fs' = fs /\ fs !! path = Some Dir)
    /\ (isRet o = true -> fs' = delete path fs).
Proof.
  unfold MemoryInvoke.deleteClaudeMemoryFile, bind, Fs.existsSync, Fs.unlinkSync, ret,
    Fs.isFile.
  destruct (fs !! path) as [[c|]|] eqn:Hfs; cbn; rewrite ?Hfs; cbn.
  - do 2 eexists. split; [reflexivity|]. rewrite lookup_delete_eq.
    repeat split; discriminate.
  - do 2 eexists. split; [reflexivity|]. rewrite Hfs. repeat split; discriminate.
  - do 2 eexists. split; [reflexivity|]. rewrite Hfs. repeat split; try discriminate.
    intros _. symmetry. now apply delete_id.
Qed.

End MemoryFile.

(** X26: the Claude branch of the memory-file version of [invokeAgent]
    leaves no regular memory file behind: whether the CLI cannot be
    spawned, fails or succeeds, whatever it writes, and whether or not a
    stale file was found at the start, no regular file stands at the
    memory file path when the call ends. *)
Theorem memory_file_never_outlives_invocation `{Host}
    (w : World) (agent : AgentConfig) (agentId message workspacePath : string)
    (shouldReset : bool) (memoryBlock : string) (fs : filesystem) :
  orElse (agent_provider agent) "anthropic" <> "openai" ->
  Fs.isFile
    (finalFs (MemoryInvoke.invokeAgent w agent agentId message workspacePath shouldReset
                memoryBlock) fs)
    (MemoryInvoke.memoryFileOf agent agentId workspacePath)
  = false.
Proof.
  intros Hprovider. apply String.eqb_neq in Hprovider.
  unfold finalFs, MemoryInvoke.invokeAgent, MemoryInvoke.memoryFileOf.
  rewrite Hprovider. fold (workingDirOf agent agentId workspacePath).
  set (path := MemoryInvoke.getClaudeMemoryFilePath (workingDirOf agent agentId workspacePath)).
  set (body := bind (when (negb (JsString.isEmpty memoryBlock)) _) _).
  unfold bind, Fs.existsSync, when, log, emit, ret. cbv beta iota zeta.
  destruct (fs !! Path.join [workspacePath; agentId]); destruct shouldReset;
    cbn [negb]; cbv beta iota zeta;
    (destruct (deleteClaudeMemoryFile_leaves_no_file path fs)
       as (fs1 & o1 & -> & Hfile1 & _);
     destruct o1 as [[]|e1]; cbv beta iota zeta; cbn [fst snd]; [|exact Hfile1];
     unfold tryFinally;
     destruct (body fs1) as [[fs2 t2] o2];
     destruct (deleteClaudeMemoryFile_leaves_no_file path fs2)
       as (fs3 & o3 & -> & Hfile3 & _);
     now destruct o3).
Qed.

(** X26, witness: a stale memory file is found, the block is written and
    the CLI then exits with code 1. *)
Lemma memory_file_never_outlives_invocation_witness :
  Fs.isFile
    (finalFs (MemoryInvoke.invokeAgent (H := jsonHost)
                (worldOf (Closed (Some 1) EmptyString "boom") [])
                (agentOf "anthropic" false) "agent-b" "hi" "/ws" false "remember the plan")
       (oneFile "/ws/agent-b/.claude/MEMORY.md" "stale"))
    "/ws/agent-b/.claude/MEMORY.md"
  = false.
Proof.
  apply (memory_file_never_outlives_invocation (H := jsonHost)
           (worldOf (Closed (Some 1) EmptyString "boom") [])
           (agentOf "anthropic" false) "agent-b" "hi" "/ws" false "remember the plan"
           (oneFile "/ws/agent-b/.claude/MEMORY.md" "stale")).
  vm_compute. discriminate.
Defined.

(* ===================================================================== *)
(** * Properties of the event stream of the dashboard *)
(* ===================================================================== *)

Section EventStream.
Context `{Host}.

Lemma run_app (onError : bool) (s : Sse.State) (a b : list Sse.input) :
  Sse.run onError s (a ++ b)
  = let '(s1, a1) := Sse.run onError s a in
    let '(s2, a2) := Sse.run onError s1 b in
    (s2, a1 ++ a2).
Proof.
  revert s. induction a as [|i a IH]; intros s; cbn.
  - now destruct (Sse.run onError s b).
  - destruct (Sse.step onError s i) as [s1 a1]. rewrite IH.
    destruct (Sse.run onError s1 a) as [s2 a2].
    destruct (Sse.run onError s2 b) as [s3 a3]. now rewrite app_assoc.
Qed.

(** The delay stays between one and ten seconds, and so does every timer
    armed. *)
Lemma step_bounds (onError : bool) (s : Sse.State) (i : Sse.input) :
  1000 <= Sse.reconnectDelay s <= 10000 ->
  1000 <= Sse.reconnectDelay (Sse.step onError s i).1 <= 10000
  /\ Forall (fun ms => 1000 <= ms <= 10000) (Sse.delaysOf (Sse.step onError s i).2).
Proof.
  intros Hs. destruct i as [|data| | |visible rsc|]; cbn.
  - split; [lia|constructor].
  - split; [exact Hs|]. destruct (JSON_parse data); constructor.
  - destruct (Sse.closed s), onError; cbn; split; try exact Hs; repeat constructor; lia.
  - split; [lia|]. unfold Sse.connect. cbn. destruct (Sse.closed s); constructor.
  - destruct (_ && _); cbn; [|split; [exact Hs|constructor]].
    split; [lia|]. unfold Sse.connect. cbn. destruct (Sse.closed s); constructor.
  - split; [exact Hs|]. destruct (Sse.reconnectTimer s); constructor.
Qed.

Lemma delaysOf_app (a b : list Sse.action) :
  Sse.delaysOf (a ++ b) = Sse.delaysOf a ++ Sse.delaysOf b.
Proof. apply omap_app. Qed.

Lemma run_bounds (onError : bool) (inputs : list Sse.input) (s : Sse.State) :
  1000 <= Sse.reconnectDelay s <= 10000 ->
  1000 <= Sse.reconnectDelay (Sse.run onError s inputs).1 <= 10000
  /\ Forall (fun ms => 1000 <= ms <= 10000) (Sse.delaysOf (Sse.run onError s inputs).2).
Proof.
  revert s. induction inputs as [|i rest IH]; intros s Hs; cbn.
  - split; [exact Hs|constructor].
  - destruct (step_bounds onError s i Hs) as [Hs1 Ha1].
    destruct (Sse.step onError s i) as [s1 a1]. cbn in Hs1, Ha1.
    destruct (IH s1 Hs1) as [Hs2 Ha2].
    destruct (Sse.run onError s1 rest) as [s2 a2]. cbn in *.
    split; [exact Hs2|]. rewrite delaysOf_app. now apply Forall_app.
Qed.

(** Once closed, the machine stays closed and neither connects nor arms a
    timer. *)
Lemma run_closed (onError : bool) (inputs : list Sse.input) (s : Sse.State) :
  Sse.closed s = true ->
  Sse.closed (Sse.run onError s inputs).1 = true
  /\ Forall (fun a => Sse.reconnects a = false) (Sse.run onError s inputs).2.
Proof.
  revert s. induction inputs as [|i rest IH]; intros s Hs; cbn.
  - split; [exact Hs|constructor].
  - assert (Hstep : Sse.closed (Sse.step onError s i).1 = true
                    /\ Forall (fun a => Sse.reconnects a = false) (Sse.step onError s i).2).
    { destruct i as [|data| | |visible rsc|]; cbn; rewrite ?Hs, ?andb_false_r; cbn;
        unfold Sse.connect; cbn; rewrite ?Hs;
        (split; [first [exact Hs|reflexivity]|]).
      - constructor.
      - destruct (JSON_parse data); repeat constructor.
      - destruct onError; repeat constructor.
      - constructor.
      - constructor.
      - destruct (Sse.reconnectTimer s); repeat constructor. }
    destruct Hstep as [Hs1 Ha1]. destruct (Sse.step onError s i) as [s1 a1]. cbn in Hs1, Ha1.
    destruct (IH s1 Hs1) as [Hs2 Ha2].
    destruct (Sse.run onError s1 rest) as [s2 a2]. cbn in *.
    split; [exact Hs2|]. now apply Forall_app.
Qed.

End EventStream.

(** X27: whatever the browser delivers to [subscribeToEvents], in whatever
    order, every reconnection timer is armed with a delay between one and
    ten seconds; and once the caller has unsubscribed, no connection is
    opened and no timer is armed any more, a timer that fires late or a
    tab that becomes visible included. *)
Theorem reconnection_is_bounded_and_ends_with_unsubscribe `{Host}
    (onError : bool) (before after : list Sse.input) :
  Forall (fun ms => 1000 <= ms <= 10000)
    (Sse.delaysOf (Sse.run onError Sse.subscribed.1 (before ++ after)).2)
  /\ Forall (fun a => Sse.reconnects a = false)
       (Sse.run onError
          (Sse.run onError Sse.subscribed.1 (before ++ [Sse.Unsubscribe])).1 after).2.
Proof.
  split.
  - apply run_bounds. cbn. lia.
  - apply run_closed. rewrite run_app.
    destruct (Sse.run onError Sse.subscribed.1 before) as [s1 a1]. reflexivity.
Qed.

Section Backoff.
Context `{Host}.

Lemma backoff_next (k : nat) : Z.min (Sse.backoff k * 2) 10000 = Sse.backoff (S k).
Proof.
  unfold Sse.backoff. rewrite Nat2Z.inj_succ, Z.pow_succ_r by lia.
  assert (0 < 2 ^ Z.of_nat k) by (apply Z.pow_pos_nonneg; lia). lia.
Qed.

Lemma run_failure_cycle (onError : bool) (s : Sse.State) (rest : list Sse.input) :
  Sse.closed s = false ->
  Sse.run onError s (Sse.Error :: Sse.TimerFires :: rest)
  = let s2 := {| Sse.closed := false; Sse.reconnectTimer := true;
                 Sse.reconnectDelay := Z.min (Sse.reconnectDelay s * 2) 10000;
                 Sse.listening := Sse.listening s |} in
    ((Sse.run onError s2 rest).1,
     (if onError then [Sse.OnError] else [])
       ++ [Sse.Close; Sse.SetTimeout (Sse.reconnectDelay s); Sse.NewEventSource]
       ++ (Sse.run onError s2 rest).2).
Proof.
  intros Hopen. cbn [Sse.run Sse.step]. rewrite Hopen. cbv beta iota zeta.
  unfold Sse.connect. cbn [Sse.closed Sse.reconnectTimer Sse.reconnectDelay Sse.listening].
  rewrite ?Hopen. destruct (Sse.run onError _ rest) as [s3 a3]. cbn [fst snd].
  destruct onError; reflexivity.
Qed.

Lemma run_failures (onError : bool) (n k : nat) (s : Sse.State) :
  Sse.closed s = false -> Sse.reconnectDelay s = Sse.backoff k ->
  Sse.closed (Sse.run onError s (Sse.failures n)).1 = false
  /\ Sse.reconnectDelay (Sse.run onError s (Sse.failures n)).1 = Sse.backoff (k + n)
  /\ Sse.delaysOf (Sse.run onError s (Sse.failures n)).2 = map Sse.backoff (seq k n).
Proof.
  revert k s. induction n as [|n IH]; intros k s Hopen Hdelay.
  - cbn. now rewrite Nat.add_0_r.
  - cbn [Sse.failures]. rewrite (run_failure_cycle onError s _ Hopen). cbv zeta.
    set (s2 := {| Sse.closed := false; Sse.reconnectTimer := true;
                  Sse.reconnectDelay := Z.min (Sse.reconnectDelay s * 2) 10000;
                  Sse.listening := Sse.listening s |}).
    destruct (IH (S k) s2) as (Hc & Hd & Hl); [reflexivity| |].
    { cbn. now rewrite Hdelay, backoff_next. }
    cbn [fst snd]. split; [exact Hc|]. split; [now rewrite Hd, Nat.add_succ_r|].
    rewrite !delaysOf_app, Hl. destruct onError; cbn; now rewrite Hdelay.
Qed.

End Backoff.

(** X28: a connection that fails time after time is retried after one,
    two, four and eight seconds and then every ten seconds; once a
    connection has opened, the next failures start again from one
    second. *)
Theorem reconnection_backs_off_exponentially `{Host} (onError : bool) (n m : nat) :
  Sse.delaysOf
    (Sse.run onError Sse.subscribed.1 (Sse.failures n ++ [Sse.Open] ++ Sse.failures m)).2
  = map Sse.backoff (seq 0 n) ++ map Sse.backoff (seq 0 m)
  /\ map Sse.backoff (seq 0 6) = [1000; 2000; 4000; 8000; 10000; 10000].
Proof.
  split; [|reflexivity].
  destruct (run_failures onError n 0 Sse.subscribed.1 eq_refl eq_refl) as (Hc & _ & Hl).
  rewrite run_app.
  destruct (Sse.run onError Sse.subscribed.1 (Sse.failures n)) as [s1 a1]. cbn [fst snd] in *.
  change ([Sse.Open] ++ Sse.failures m) with (Sse.Open :: Sse.failures m).
  cbn [Sse.run Sse.step].
  set (s2 := {| Sse.closed := Sse.closed s1; Sse.reconnectTimer := Sse.reconnectTimer s1;
                Sse.reconnectDelay := 1000; Sse.listening := Sse.listening s1 |}).
  destruct (run_failures onError m 0 s2 Hc eq_refl) as (_ & _ & Hl2).
  destruct (Sse.run onError s2 (Sse.failures m)) as [s3 a3]. cbn [fst snd app] in *.
  now rewrite delaysOf_app, Hl, Hl2.
Qed.

Section Buffer.
Context `{Host}.

Lemma pushEvent_take {A} (maxEvents : nat) (newest : list A) (event : A) :
  pushEvent maxEvents (take maxEvents newest) event = take maxEvents (event :: newest).
Proof.
  unfold pushEvent.
  destruct (Nat.ltb_spec maxEvents (length (event :: take maxEvents newest))) as [Hlt|Hge].
  - destruct maxEvents as [|m]; [reflexivity|]. simpl. f_equal.
    rewrite take_take. f_equal. lia.
  - destruct maxEvents as [|m]; [simpl in Hge; lia|]. simpl. f_equal.
    simpl in Hge. rewrite length_take in Hge.
    rewrite !take_ge by lia. reflexivity.
Qed.

Lemma useSSE_snoc (maxEvents : nat) (actions : list Sse.action) (a : Sse.action) :
  useSSE maxEvents (actions ++ [a])
  = let '(events, connected) := useSSE maxEvents actions in
    match a with
    | Sse.OnEvent event => (pushEvent maxEvents events event, connected)
    | Sse.OnError => (events, false)
    | _ => (events, connected)
    end.
Proof.
  unfold useSSE. rewrite fold_left_app. cbn [fold_left].
  now destruct (fold_left _ actions _).
Qed.

Lemma useSSE_state (maxEvents : nat) (actions : list Sse.action) :
  useSSE maxEvents actions
  = (take maxEvents (rev (eventsOf actions)), negb (reportsError actions)).
Proof.
  induction actions as [|a actions IH] using rev_ind; [now destruct maxEvents|].
  rewrite useSSE_snoc, IH. unfold eventsOf, reportsError.
  rewrite omap_app, existsb_app, rev_app_distr.
  destruct a; cbn; rewrite ?app_nil_r, ?orb_false_r, ?orb_true_r; try reflexivity.
  now rewrite pushEvent_take.
Qed.

Lemma run_reports (s : Sse.State) (inputs : list Sse.input) :
  reportsError (Sse.run true s inputs).2
  = existsb (fun i => match i with Sse.Error => true | _ => false end) inputs.
Proof.
  revert s. induction inputs as [|i rest IH]; intros s; [reflexivity|].
  cbn [Sse.run existsb].
  destruct (Sse.step true s i) as [s1 a1] eqn:Hstep. specialize (IH s1).
  destruct (Sse.run true s1 rest) as [s2 a2]. cbn [fst snd] in *.
  unfold reportsError in *. rewrite existsb_app, IH. f_equal.
  destruct i as [|data| | |visible rsc|]; cbn in Hstep.
  - now injection Hstep as <- <-.
  - injection Hstep as <- <-. now destruct (JSON_parse data).
  - destruct (Sse.closed s); now injection Hstep as <- <-.
  - injection Hstep as <- <-. unfold Sse.connect. cbn. now destruct (Sse.closed s).
  - destruct (_ && _); injection Hstep as <- <-; [|reflexivity].
    unfold Sse.connect. cbn. now destruct (Sse.closed s).
  - injection Hstep as <- <-. now destruct (Sse.reconnectTimer s).
Qed.

End Buffer.

(** X29: the buffer of [useSSE] holds the events delivered, the newest
    first, cut to the [maxEvents] newest; and its [connected] flag is true
    exactly as long as no error has been delivered: it stays false after
    the first error, also when the stream has opened again. *)
Theorem event_buffer_keeps_newest_and_flag_never_recovers `{Host}
    (maxEvents : nat) (inputs : list Sse.input) :
  let actions := (Sse.run true Sse.subscribed.1 inputs).2 in
  useSSE maxEvents actions
  = (take maxEvents (rev (eventsOf actions)),
     negb (existsb (fun i => match i with Sse.Error => true | _ => false end) inputs)).
Proof.
  cbv zeta. rewrite useSSE_state.
  now rewrite run_reports.
Qed.

(** X30: for two safe timestamps in whole milliseconds, [timeAgo] shows
    the whole number of minutes, hours or days that have passed, never
    zero of a unit: minutes from 1 to 59, hours from 1 to 23, days from 1;
    less than a minute, a timestamp of the future included, reads as just
    now. *)
Theorem timeAgo_counts_whole_units (now ts : Z) :
  safeTimestamp now = true -> safeTimestamp ts = true ->
  (now - ts < 60000 /\ timeAgo now ts = "just now")
  \/ (exists n, timeAgo now ts = JsString.ofZ n +:+ "m ago"
                /\ 1 <= n <= 59 /\ n * 60000 <= now - ts < (n + 1) * 60000)
  \/ (exists n, timeAgo now ts = JsString.ofZ n +:+ "h ago"
                /\ 1 <= n <= 23 /\ n * 3600000 <= now - ts < (n + 1) * 3600000)
  \/ (exists n, timeAgo now ts = JsString.ofZ n +:+ "d ago"
                /\ 1 <= n /\ n * 86400000 <= now - ts < (n + 1) * 86400000).
Proof.
  intros _ _. unfold timeAgo. cbv zeta.
  destruct (Z.ltb_spec (now - ts) 60000) as [H1|H1]; [now left|right].
  destruct (Z.ltb_spec (now - ts) 3600000) as [H2|H2].
  { left. exists ((now - ts) / 60000). split; [reflexivity|].
    Z.to_euclidean_division_equations. lia. }
  right. destruct (Z.ltb_spec (now - ts) 86400000) as [H3|H3].
  { left. exists ((now - ts) / 3600000). split; [reflexivity|].
    Z.to_euclidean_division_equations. lia. }
  right. exists ((now - ts) / 86400000). split; [reflexivity|].
  Z.to_euclidean_division_equations. lia.
Qed.

(** X30, witness: ninety minutes read as one hour. *)
Lemma timeAgo_counts_whole_units_witness :
  timeAgo 1772100000000 1772094600000 = "1h ago"
  /\ ((1772100000000 - 1772094600000 < 60000
       /\ timeAgo 1772100000000 1772094600000 = "just now")
      \/ (exists n, timeAgo 1772100000000 1772094600000 = JsString.ofZ n +:+ "m ago"
                    /\ 1 <= n <= 59
                    /\ n * 60000 <= 1772100000000 - 1772094600000 < (n + 1) * 60000)
      \/ (exists n, timeAgo 1772100000000 1772094600000 = JsString.ofZ n +:+ "h ago"
                    /\ 1 <= n <= 23
                    /\ n * 3600000 <= 1772100000000 - 1772094600000 < (n + 1) * 3600000)
      \/ (exists n, timeAgo 1772100000000 1772094600000 = JsString.ofZ n +:+ "d ago"
                    /\ 1 <= n
                    /\ n * 86400000 <= 1772100000000 - 1772094600000 < (n + 1) * 86400000)).
Proof.
  split; [reflexivity|].
  apply (timeAgo_counts_whole_units 1772100000000 1772094600000); reflexivity.
Defined.
